(** * cloudshell-cli: the session pool and the expect engine

    A shallow embedding of [cloudshell/cli/session/connection_manager.py]
    and [cloudshell/cli/session/expect_session.py], with the properties
    their specification states about them.

    Conventions.
    - Python integers are [Z]; durations and clock readings are [Z]
      milliseconds (the source writes seconds as floats: 0.1 is 100).
    - An object with identity (a Session, a thread) is a key into a
      finite map; the map is the store, the key is the reference.
    - A Python exception is a constructor of [exn]; a call that may
      raise returns a [res].  A [while True] loop takes fuel, and
      running out of it is the separate outcome [OutOfFuel]. *)

From Stdlib Require Import ZArith Lia Bool List Ascii String.
From stdpp Require Import base option list gmap strings.
Import ListNotations.

Set Default Proof Using "Type".

(** ** The connection pool: [ConnectionManager] *)

Module ConnectionManager.

Local Open Scope Z_scope.

(** Identity of a Session object and of a thread. *)
Definition sid := nat.
Definition tid := nat.

(** The one field of a Session the pool touches. *)
Record Session := mkSession { _active : bool }.

(** [ExpectSession.set_active] (expect_session.py, 76-82). *)
Definition set_active (state : bool) (s : Session) : Session :=
  {| _active := state |}.

(** Modelled from the spec: [Session.set_invalid] is called by
    [destroy_thread_session] but defined in the absent
    [cloudshell/cli/session/session.py]; the spec says the operation
    "marks the session inactive". *)
Definition set_invalid (s : Session) : Session := set_active false s.

(** Program points of a thread inside [get_session_instance]
    (connection_manager.py, 155-166; the numbers are lines of the file). *)
Inductive pc :=
  | Idle                   (* outside get_session_instance *)
  | Locked                 (* in the with-block, before the test of line 162 *)
  | Creating               (* test passed, in _create_session_by_connection_type *)
  | Created (s : sid)      (* before increment_sessions_count, line 164 *)
  | Putting (s : sid)      (* before return_session_to_pool, line 165 *)
  | Unlocking              (* at the end of the with-block *)
  | Getting.               (* before _get_session_from_pool, line 166 *)

(** The manager object, the class-level lock and registry, the thread
    program points and the store of the sessions line 163 has returned:
    a session enters the store when [create_session()] has constructed
    it and its [connect] has returned.  An object whose [connect]
    raised is dropped by [_new_session] and never enters the store. *)
Record state := mkState {
  _max_connections : Z;
  _session_pool : list sid;            (* Queue(maxsize=_max_connections) *)
  _existing_sessions : Z;
  CREATE_SESSION_LOCK : option tid;    (* the holder, if taken *)
  SESSION_CONTAINER : gmap tid sid;
  sessions : gmap sid Session;
  next_sid : sid;                      (* identity of the next session of the store *)
  pcs : gmap tid pc
}.

(** [__init__], as far as the pool is concerned (lines 32-33). *)
Definition init (max_connections : Z) : state :=
  {| _max_connections := max_connections;
     _session_pool := [];
     _existing_sessions := 0;
     CREATE_SESSION_LOCK := None;
     SESSION_CONTAINER := ∅;
     sessions := ∅;
     next_sid := 0%nat;
     pcs := ∅ |}.

Definition with_pool (q : list sid) (st : state) : state :=
  {| _max_connections := _max_connections st; _session_pool := q;
     _existing_sessions := _existing_sessions st;
     CREATE_SESSION_LOCK := CREATE_SESSION_LOCK st;
     SESSION_CONTAINER := SESSION_CONTAINER st; sessions := sessions st;
     next_sid := next_sid st; pcs := pcs st |}.

Definition with_count (n : Z) (st : state) : state :=
  {| _max_connections := _max_connections st; _session_pool := _session_pool st;
     _existing_sessions := n;
     CREATE_SESSION_LOCK := CREATE_SESSION_LOCK st;
     SESSION_CONTAINER := SESSION_CONTAINER st; sessions := sessions st;
     next_sid := next_sid st; pcs := pcs st |}.

Definition with_lock (l : option tid) (st : state) : state :=
  {| _max_connections := _max_connections st; _session_pool := _session_pool st;
     _existing_sessions := _existing_sessions st;
     CREATE_SESSION_LOCK := l;
     SESSION_CONTAINER := SESSION_CONTAINER st; sessions := sessions st;
     next_sid := next_sid st; pcs := pcs st |}.

Definition with_pc (t : tid) (p : pc) (st : state) : state :=
  {| _max_connections := _max_connections st; _session_pool := _session_pool st;
     _existing_sessions := _existing_sessions st;
     CREATE_SESSION_LOCK := CREATE_SESSION_LOCK st;
     SESSION_CONTAINER := SESSION_CONTAINER st; sessions := sessions st;
     next_sid := next_sid st; pcs := <[t := p]> (pcs st) |}.

Definition with_container (c : gmap tid sid) (st : state) : state :=
  {| _max_connections := _max_connections st; _session_pool := _session_pool st;
     _existing_sessions := _existing_sessions st;
     CREATE_SESSION_LOCK := CREATE_SESSION_LOCK st;
     SESSION_CONTAINER := c; sessions := sessions st;
     next_sid := next_sid st; pcs := pcs st |}.

Definition with_sessions (h : gmap sid Session) (n : sid) (st : state) : state :=
  {| _max_connections := _max_connections st; _session_pool := _session_pool st;
     _existing_sessions := _existing_sessions st;
     CREATE_SESSION_LOCK := CREATE_SESSION_LOCK st;
     SESSION_CONTAINER := SESSION_CONTAINER st; sessions := h;
     next_sid := n; pcs := pcs st |}.

(** A thread with no entry is outside [get_session_instance]. *)
Definition pc_of (t : tid) (st : state) : pc := default Idle (pcs st !! t).

(** [decrement_sessions_count] (lines 148-150). *)
Definition decrement_sessions_count (st : state) : state :=
  if 0 <? _existing_sessions st
  then with_count (_existing_sessions st - 1) st
  else st.

(** [increment_sessions_count] (lines 152-153). *)
Definition increment_sessions_count (st : state) : state :=
  with_count (_existing_sessions st + 1) st.

(** [Queue.full()]: a maxsize of zero or less is an unbounded queue. *)
Definition pool_full (st : state) : bool :=
  (0 <? _max_connections st) && (_max_connections st <=? Z.of_nat (length (_session_pool st))).

(** [Queue.empty()]. *)
Definition pool_empty (st : state) : bool :=
  match _session_pool st with [] => true | _ => false end.

(** The test of line 162. *)
Definition may_create (st : state) : bool :=
  pool_empty st && (_existing_sessions st <? _max_connections st).

(** [return_session_to_pool] (lines 139-146): [Queue.put] with a timeout.
    [None] is the [Full] exception of a put that timed out. *)
Definition return_session_to_pool (s : sid) (st : state) : option state :=
  if pool_full st then None else Some (with_pool (_session_pool st ++ [s]) st).

(** [_get_session_from_pool] (lines 117-137): [Queue.get] with a timeout;
    [None] is the exception raised when the get timed out. *)
Definition _get_session_from_pool (st : state) : option (sid * state) :=
  match _session_pool st with
  | [] => None
  | s :: q => Some (s, with_pool q st)
  end.

(** [destroy_thread_session] (lines 186-195), called by thread [t]. *)
Definition destroy_thread_session (t : tid) (s : sid) (st : state) : state :=
  let st1 := with_sessions (alter set_invalid s (sessions st)) (next_sid st) st in
  if decide (is_Some (SESSION_CONTAINER st1 !! t))
  then with_container (delete t (SESSION_CONTAINER st1)) st1
  else st1.

(** *** Interleavings

    One label is one atomic action of one thread.  The outcome of
    [_create_session_by_connection_type] (a session object or an
    exception) is chosen by the environment and carried by the label. *)
Inductive label :=
  | LAcquire (t : tid)                 (* enter the with-block: take the lock *)
  | LCheck (t : tid)                   (* evaluate the test of line 162 *)
  | LCreate (t : tid) (ok : bool)      (* line 163 returns, or raises *)
  | LIncr (t : tid)                    (* line 164 *)
  | LPut (t : tid)                     (* line 165; raises Full on a full queue *)
  | LRelease (t : tid)                 (* leave the with-block *)
  | LGet (t : tid)                     (* line 166; raises on an empty queue *)
  | LReturn (t : tid) (s : sid)        (* a caller's return_session_to_pool *)
  | LDestroy (t : tid) (s : sid).      (* a caller's destroy_thread_session *)

Definition step (l : label) (st : state) : option state :=
  match l with
  | LAcquire t =>
      match pc_of t st, CREATE_SESSION_LOCK st with
      | Idle, None => Some (with_pc t Locked (with_lock (Some t) st))
      | _, _ => None
      end
  | LCheck t =>
      match pc_of t st with
      | Locked => Some (with_pc t (if may_create st then Creating else Unlocking) st)
      | _ => None
      end
  | LCreate t ok =>
      match pc_of t st with
      | Creating =>
          if ok
          then let s := next_sid st in
               Some (with_pc t (Created s)
                       (with_sessions (<[s := mkSession true]> (sessions st)) (S s) st))
          else (* the exception leaves the with-block and the call *)
               Some (with_pc t Idle (with_lock None st))
      | _ => None
      end
  | LIncr t =>
      match pc_of t st with
      | Created s => Some (with_pc t (Putting s) (increment_sessions_count st))
      | _ => None
      end
  | LPut t =>
      match pc_of t st with
      | Putting s =>
          match return_session_to_pool s st with
          | Some st' => Some (with_pc t Unlocking st')
          | None => Some (with_pc t Idle (with_lock None st))
          end
      | _ => None
      end
  | LRelease t =>
      match pc_of t st with
      | Unlocking => Some (with_pc t Getting (with_lock None st))
      | _ => None
      end
  | LGet t =>
      match pc_of t st with
      | Getting =>
          match _get_session_from_pool st with
          | Some (_, st') => Some (with_pc t Idle st')
          | None => Some (with_pc t Idle st)
          end
      | _ => None
      end
  | LReturn t s =>
      match pc_of t st with
      | Idle => Some (default st (return_session_to_pool s st))
      | _ => None
      end
  | LDestroy t s =>
      match pc_of t st with
      | Idle => Some (destroy_thread_session t s st)
      | _ => None
      end
  end.

(** A schedule is a list of labels; [None] when a label is not enabled. *)
Fixpoint run (ls : list label) (st : state) : option state :=
  match ls with
  | [] => Some st
  | l :: ls' => match step l st with
                | Some st' => run ls' st'
                | None => None
                end
  end.

(** One whole uncontended call of [get_session_instance] by thread [t]:
    the schedule in which [t] runs alone from line 161 to line 166. *)
Definition get_session_instance (t : tid) (ok : bool) (st : state) : list label :=
  LAcquire t :: LCheck t ::
  (if may_create st
   then LCreate t ok :: (if ok then [LIncr t; LPut t; LRelease t; LGet t] else [])
   else [LRelease t; LGet t]).

(** Calls of the two counter methods, in any order. *)
Inductive count_op := Increment | Decrement.

Definition count_step (st : state) (o : count_op) : state :=
  match o with
  | Increment => increment_sessions_count st
  | Decrement => decrement_sessions_count st
  end.

Definition count_run (ops : list count_op) (st : state) : state :=
  fold_left count_step ops st.

(** *** The counter methods, one action at a time

    Neither method takes a lock and neither is one atomic action: line
    149 reads the counter and compares it, and the [-= 1] of line 150
    and the [+= 1] of line 153 read the counter again and then write
    it.  Between two of its actions a thread is at one of these points;
    what it has read travels with it.  A thread with no entry is
    outside both methods. *)
Inductive count_pc :=
  | DTested              (* decrement: the test of line 149 was true *)
  | DLoaded (x : Z)      (* decrement: line 150 has read x *)
  | ILoaded (x : Z).     (* increment: line 153 has read x *)

Inductive count_label :=
  | DTest (t : tid)      (* line 149: read and compare; return if false *)
  | DLoad (t : tid)      (* line 150: read *)
  | DStore (t : tid)     (* line 150: write, and return *)
  | ILoad (t : tid)      (* line 153: read *)
  | IStore (t : tid).    (* line 153: write, and return *)

Definition count_micro (l : count_label) (c : state * gmap tid count_pc)
  : option (state * gmap tid count_pc) :=
  let '(st, at_) := c in
  match l with
  | DTest t =>
      match at_ !! t with
      | None => Some (st, if 0 <? _existing_sessions st
                          then <[t := DTested]> at_ else at_)
      | Some _ => None
      end
  | DLoad t =>
      match at_ !! t with
      | Some DTested => Some (st, <[t := DLoaded (_existing_sessions st)]> at_)
      | _ => None
      end
  | DStore t =>
      match at_ !! t with
      | Some (DLoaded x) => Some (with_count (x - 1) st, delete t at_)
      | _ => None
      end
  | ILoad t =>
      match at_ !! t with
      | None => Some (st, <[t := ILoaded (_existing_sessions st)]> at_)
      | Some _ => None
      end
  | IStore t =>
      match at_ !! t with
      | Some (ILoaded x) => Some (with_count (x + 1) st, delete t at_)
      | _ => None
      end
  end.

Fixpoint count_micro_run (ls : list count_label) (c : state * gmap tid count_pc)
  : option (state * gmap tid count_pc) :=
  match ls with
  | [] => Some c
  | l :: ls' => match count_micro l c with
                | Some c' => count_micro_run ls' c'
                | None => None
                end
  end.

(** The actions of one call that runs from start to end with no other
    thread in between, and a sequence of such calls, one after the
    other. *)
Definition count_call (t : tid) (o : count_op) (st : state) : list count_label :=
  match o with
  | Increment => [ILoad t; IStore t]
  | Decrement =>
      if 0 <? _existing_sessions st then [DTest t; DLoad t; DStore t] else [DTest t]
  end.

Fixpoint serial (calls : list (tid * count_op)) (st : state) : list count_label :=
  match calls with
  | [] => []
  | (t, o) :: rest => count_call t o st ++ serial rest (count_step st o)
  end.

(** Two calls of [decrement_sessions_count] that overlap: both threads
    pass the test of line 149 before either runs line 150. *)
Definition overlapping_decrements : list count_label :=
  [DTest 1%nat; DTest 2%nat; DLoad 1%nat; DStore 1%nat; DLoad 2%nat; DStore 2%nat].

(** What holds of every reachable state: the counter is within the
    capacity, or zero when the capacity is negative; a thread inside
    the with-block holds the lock; and between the test of line 162 and
    the increment of line 164 the counter is strictly below the
    capacity. *)
Definition pc_inv (t : tid) (st : state) : Prop :=
  match pc_of t st with
  | Idle | Getting => True
  | Locked | Putting _ | Unlocking => CREATE_SESSION_LOCK st = Some t
  | Creating | Created _ =>
      CREATE_SESSION_LOCK st = Some t ∧ _existing_sessions st < _max_connections st
  end.

Definition pool_inv (max : Z) (st : state) : Prop :=
  _max_connections st = max
  ∧ _existing_sessions st <= Z.max 0 max
  ∧ ∀ t, pc_inv t st.

(** A state in which thread 1 is pinned to the active session 0. *)
Definition pinned : state :=
  with_container {[1%nat := 0%nat]}
    (with_sessions {[0%nat := mkSession true]} 1%nat (init 2)).

(** A schedule in which a session comes back while another thread is
    between the test of line 162 and line 163: thread 1 gets session 0,
    thread 2 passes the test on the empty queue, thread 1 returns
    session 0. *)
Definition late_return : list label :=
  [LAcquire 1%nat; LCheck 1%nat; LCreate 1%nat true; LIncr 1%nat; LPut 1%nat;
   LRelease 1%nat; LGet 1%nat;
   LAcquire 2%nat; LCheck 2%nat;
   LReturn 1%nat 0%nat].

(** A schedule of three callers on a pool of capacity two. *)
Definition three_callers : list label :=
  [LAcquire 1%nat; LCheck 1%nat; LCreate 1%nat true; LIncr 1%nat; LPut 1%nat;
   LRelease 1%nat; LAcquire 2%nat; LGet 1%nat; LCheck 2%nat; LCreate 2%nat true;
   LIncr 2%nat; LReturn 1%nat 0%nat; LPut 2%nat; LRelease 2%nat; LGet 2%nat;
   LAcquire 3%nat; LCheck 3%nat; LRelease 3%nat; LGet 3%nat].

End ConnectionManager.

(** ** The expect engine: [ExpectSession] *)

Module ExpectSession.

Local Open Scope Z_scope.

(** The exceptions of [session_exceptions] the engine raises or catches;
    [ReError] is [re.error]; [OtherException] is any other instance of
    [Exception] a transport or a reaction raises; [Interrupt] is an
    exception that is not an instance of [Exception], such as
    [KeyboardInterrupt] or [SystemExit]. *)
Inductive exn :=
  | SessionReadTimeout
  | SessionReadEmptyData
  | ExpectedSessionException (msg : string)
  | SessionLoopLimitException (loops : Z)
  | SessionLoopDetectorException (msg : string)
  | CommandExecutionException (msg : string)
  | ReError
  | OtherException (msg : string)
  | Interrupt (name : string).

(** What [except Exception] catches. *)
Definition is_exception (e : exn) : bool :=
  match e with
  | Interrupt _ => false
  | _ => true
  end.

(** The outcome of a call. *)
Inductive res (A : Type) :=
  | Ok (a : A)
  | Raise (e : exn)
  | OutOfFuel.
Arguments Ok {A} a.
Arguments Raise {A} e.
Arguments OutOfFuel {A}.

(** Python truthiness of a string, and [x or d] on an optional integer. *)
Definition truthy (s : string) : bool :=
  match s with EmptyString => false | String _ _ => true end.

Definition py_or (x : option Z) (d : Z) : Z :=
  match x with
  | Some v => if v =? 0 then d else v
  | None => d
  end.

(** *** What the engine imports

    Python's [re] and the helper [normalize_buffer] are not part of the
    engine; it is written against this interface.  [re_search f p s] is
    [re.search(p, s, flags=f)], the leftmost match returned as the text
    before it, the match and the text after it.  [re_sub p repl s] is
    [re.sub(p, repl, s)]; it is [None] when the library raises
    [re.error], as CPython from 3.7 on does for a replacement that holds
    a backslash followed by a letter that is no escape. *)
Inductive re_flag := NOFLAG | MULTILINE | DOTALL.

Class Lib := {
  re_search : re_flag → string → string → option (string * string * string);
  re_sub : string → string → string → option string;
  re_escape : string → string;
  normalize_buffer : string → string
}.

(** [re.sub(p, '', s, count=1, flags=f)]: the leftmost match is deleted. *)
Definition re_sub_first_empty `{Lib} (f : re_flag) (p s : string) : string :=
  match re_search f p s with
  | Some (before, _, after) => before +:+ after
  | None => s
  end.

(** The attributes of an [ExpectSession] object (lines 41-52). *)
Record session := mkSession {
  _new_line : string;
  _timeout : Z;
  _max_loop_retries : Z;
  _empty_loop_timeout : Z;
  _loop_detector_max_action_loops : Z;
  _loop_detector_max_combination_length : Z;
  _clear_buffer_timeout : Z;
  _reconnect_timeout : Z;
  _active : bool;
  _command_patterns : gmap string string
}.

(** [__init__] with its defaults (lines 17-52). *)
Definition MAX_LOOP_RETRIES := 20.
Definition READ_TIMEOUT := 30000.
Definition EMPTY_LOOP_TIMEOUT := 500.
Definition CLEAR_BUFFER_TIMEOUT := 100.
Definition LOOP_DETECTOR_MAX_ACTION_LOOPS := 3.
Definition LOOP_DETECTOR_MAX_COMBINATION_LENGTH := 4.
Definition RECONNECT_TIMEOUT := 30000.

Definition carriage_return : string := String (ascii_of_nat 13) EmptyString.
Definition line_feed : string := String (ascii_of_nat 10) EmptyString.

Definition new_session : session :=
  {| _new_line := carriage_return;
     _timeout := READ_TIMEOUT;
     _max_loop_retries := MAX_LOOP_RETRIES;
     _empty_loop_timeout := EMPTY_LOOP_TIMEOUT;
     _loop_detector_max_action_loops := LOOP_DETECTOR_MAX_ACTION_LOOPS;
     _loop_detector_max_combination_length := LOOP_DETECTOR_MAX_COMBINATION_LENGTH;
     _clear_buffer_timeout := CLEAR_BUFFER_TIMEOUT;
     _reconnect_timeout := RECONNECT_TIMEOUT;
     _active := false;
     _command_patterns := ∅ |}.

(** [ExpectSession(max_loop_retries=n)]: the other parameters at their
    defaults. *)
Definition new_session_with_max_loop_retries (n : Z) : session :=
  {| _new_line := carriage_return;
     _timeout := READ_TIMEOUT;
     _max_loop_retries := n;
     _empty_loop_timeout := EMPTY_LOOP_TIMEOUT;
     _loop_detector_max_action_loops := LOOP_DETECTOR_MAX_ACTION_LOOPS;
     _loop_detector_max_combination_length := LOOP_DETECTOR_MAX_COMBINATION_LENGTH;
     _clear_buffer_timeout := CLEAR_BUFFER_TIMEOUT;
     _reconnect_timeout := RECONNECT_TIMEOUT;
     _active := false;
     _command_patterns := ∅ |}.

(** The abstract methods of the session and the clock, over the state
    [W] of the transport handle.  [_receive t w] is
    [self._receive(t, logger)] and [_send] is [self._send]: they act on
    the handle.  [_initialize_session], [_connect_actions] and
    [disconnect] are hooks of the session: they get the session object
    as well, and may change it.

    Modelled from the spec: [disconnect] is declared in the absent
    [cloudshell/cli/session/session.py]; the spec lists it as
    "disconnect() - idempotent" with no failure, so it returns a state. *)
Class Transport (W : Type) := {
  _receive : Z → W → res string * W;
  _send : string → W → res unit * W;
  _initialize_session : string → session → W → res unit * (session * W);
  _connect_actions : string → session → W → res unit * (session * W);
  disconnect : session → W → session * W;
  time_time : W → Z;
  time_sleep : Z → W → W
}.

(** The session object, the transport behind it, and a ghost counter of
    the executions of line 244 (the deletion of the command echo).  The
    counter belongs to the engine: a reaction of an action map gets the
    session and the transport, not the counter. *)
Record St (W : Type) := mkSt {
  self : session;
  world : W;
  echo_strips : nat
}.
Arguments mkSt {W} _ _ _.
Arguments self {W} _.
Arguments world {W} _.
Arguments echo_strips {W} _.

Definition with_world {W} (w : W) (st : St W) : St W :=
  mkSt (self st) w (echo_strips st).

Definition with_self {W} (s : session) (st : St W) : St W :=
  mkSt s (world st) (echo_strips st).

Definition count_strip {W} (st : St W) : St W :=
  mkSt (self st) (world st) (S (echo_strips st)).

(** [set_active] (lines 76-82) and [active] (lines 84-89). *)
Definition set_active_session (state : bool) (s : session) : session :=
  {| _new_line := _new_line s; _timeout := _timeout s;
     _max_loop_retries := _max_loop_retries s;
     _empty_loop_timeout := _empty_loop_timeout s;
     _loop_detector_max_action_loops := _loop_detector_max_action_loops s;
     _loop_detector_max_combination_length := _loop_detector_max_combination_length s;
     _clear_buffer_timeout := _clear_buffer_timeout s;
     _reconnect_timeout := _reconnect_timeout s;
     _active := state;
     _command_patterns := _command_patterns s |}.

Definition set_active {W} (state : bool) (st : St W) : St W :=
  with_self (set_active_session state (self st)) st.

Definition active {W} (st : St W) : bool := _active (self st).

Definition set_command_pattern (command pattern : string) (s : session) : session :=
  {| _new_line := _new_line s; _timeout := _timeout s;
     _max_loop_retries := _max_loop_retries s;
     _empty_loop_timeout := _empty_loop_timeout s;
     _loop_detector_max_action_loops := _loop_detector_max_action_loops s;
     _loop_detector_max_combination_length := _loop_detector_max_combination_length s;
     _clear_buffer_timeout := _clear_buffer_timeout s;
     _reconnect_timeout := _reconnect_timeout s;
     _active := _active s;
     _command_patterns := <[command := pattern]> (_command_patterns s) |}.

(** Modelled from the spec: [ActionLoopDetector] lives in the absent
    [cloudshell/cli/service/action_map.py].  Spec 4.5: after each append,
    for every cycle length L from 1 to max-combination-length, the last
    L * max-loops entries are tested for being max-loops repeats of one
    L-long sequence.  The history is kept newest first. *)
Record ActionLoopDetector := mkDetector {
  max_action_loops : Z;
  max_combination_length : Z;
  action_history : list string
}.

(** Modelled from the spec: the first [n] blocks of length [L] of the
    history all read [first] (spec 4.5, "exact repeats"). *)
Fixpoint chunks_equal (L : nat) (first : list string) (n : nat) (h : list string) : bool :=
  match n with
  | O => true
  | S n' => bool_decide (take L h = first) && chunks_equal L first n' (drop L h)
  end.

(** Modelled from the spec: the last [L * loops] entries are [loops]
    repeats of one sequence of length [L] (spec 4.5). *)
Definition is_loop (loops : nat) (h : list string) (L : nat) : bool :=
  (L * loops <=? length h)%nat && chunks_equal L (take L h) loops h.

(** Modelled from the spec: the append and the test for every cycle
    length from 1 to max-combination-length (spec 4.5). *)
Definition loops_detected (key : string) (d : ActionLoopDetector)
  : bool * ActionLoopDetector :=
  let h := key :: action_history d in
  (existsb (is_loop (Z.to_nat (max_action_loops d)) h)
           (seq 1 (Z.to_nat (max_combination_length d))),
   mkDetector (max_action_loops d) (max_combination_length d) h).

(** Modelled from the spec: [ActionMap] lives in the absent
    [cloudshell/cli/service/action_map.py].  The engine calls only its
    [process] method, which reports whether a rule matched, may act on
    the session and feed the detector, and may raise (spec 4.3 d). *)
Record ActionMap (W : Type) := mkActionMap {
  am_process : string → bool → ActionLoopDetector → session → W
               → res bool * (session * W) * ActionLoopDetector
}.
Arguments mkActionMap {W} _.
Arguments am_process {W} _ _ _ _ _ _.

(** Modelled from the spec: an entry of an action map is a trigger
    pattern and a reaction (spec 3); the absent class is as above.  The
    reaction gets the session and may send on it. *)
Record Action (W : Type) := mkAction {
  a_pattern : string;
  a_reaction : session → W → res unit * (session * W)
}.
Arguments mkAction {W} _ _.
Arguments a_pattern {W} _.
Arguments a_reaction {W} _ _ _.

(** Modelled from the spec: the absent [ActionMap.process].  Spec 4.3 d:
    every matching rule's reaction executes and feeds the detector with
    the rule's identity (its pattern); a detected loop fails the call;
    the result tells whether any rule matched. *)
Fixpoint process_rules `{Lib} {W} (rules : list (Action W)) (matched : bool)
    (output : string) (check : bool) (d : ActionLoopDetector) (s : session) (w : W)
  : res bool * (session * W) * ActionLoopDetector :=
  match rules with
  | [] => (Ok matched, (s, w), d)
  | a :: rules' =>
      match re_search DOTALL (a_pattern a) output with
      | None => process_rules rules' matched output check d s w
      | Some _ =>
          match a_reaction a s w with
          | (Ok _, (s1, w1)) =>
              let '(looping, d1) :=
                if check then loops_detected (a_pattern a) d else (false, d) in
              if looping
              then (Raise (SessionLoopDetectorException "Expected actions loops detected"),
                    (s1, w1), d1)
              else process_rules rules' true output check d1 s1 w1
          | (Raise e, sw1) => (Raise e, sw1, d)
          | (OutOfFuel, sw1) => (OutOfFuel, sw1, d)
          end
      end
  end.

(** Modelled from the spec: the action map of a list of rules; the
    absent constructor [ActionMap()] is the map of no rule. *)
Definition ActionMap_of_rules `{Lib} {W} (rules : list (Action W)) : ActionMap W :=
  mkActionMap (process_rules rules false).

(** Modelled from the spec: [ErrorMap] lives in the absent
    [cloudshell/cli/service/error_map.py].  Spec 4.3 step 5: the ordered
    error patterns are evaluated against the result; if one matches, the
    call fails with the command-execution error carrying the matched text. *)
Record ErrorMap := mkErrorMap { error_patterns : list string }.

(** Modelled from the spec: the text matched by the first error
    pattern that matches (spec 4.3 step 5, "carrying the matched text"). *)
Fixpoint first_error `{Lib} (patterns : list string) (output : string) : option string :=
  match patterns with
  | [] => None
  | p :: ps =>
      match re_search NOFLAG p output with
      | Some (_, matched, _) => Some matched
      | None => first_error ps output
      end
  end.

(** Modelled from the spec: the absent [ErrorMap.process] (spec 4.3
    step 5). *)
Definition em_process `{Lib} (error_map : ErrorMap) (output : string) : res unit :=
  match first_error (error_patterns error_map) output with
  | Some matched => Raise (CommandExecutionException matched)
  | None => Ok tt
  end.

(** *** The methods *)

Section Engine.

Context `{Lib} {W : Type} `{Transport W}.

Definition raise {A} (e : exn) (st : St W) : res A * St W := (Raise e, st).

(** [self._receive(timeout, logger)] on the session's transport. *)
Definition receive (timeout : Z) (st : St W) : res string * St W :=
  let '(r, w) := _receive timeout (world st) in (r, with_world w st).

(** [_clear_buffer] (lines 91-108); [out] is the accumulator, [''] at
    the call. *)
Fixpoint _clear_buffer_loop (fuel : nat) (timeout : Z) (out : string) (st : St W)
  : res string * St W :=
  match fuel with
  | O => (OutOfFuel, st)
  | S fuel' =>
      match receive timeout st with
      | (Ok read_buffer, st1) =>
          if truthy read_buffer
          then _clear_buffer_loop fuel' timeout (out +:+ read_buffer) st1
          else (Ok out, st1)
      | (Raise SessionReadTimeout, st1) => (Ok out, st1)
      | (Raise SessionReadEmptyData, st1) => (Ok out, st1)
      | (Raise e, st1) => (Raise e, st1)
      | (OutOfFuel, st1) => (OutOfFuel, st1)
      end
  end.

Definition _clear_buffer (fuel : nat) (timeout : Z) (st : St W) : res string * St W :=
  _clear_buffer_loop fuel timeout "" st.

(** [self.disconnect()] on the session [s] and the handle [w]. *)
Definition disconnected (s : session) (w : W) (st : St W) : St W :=
  let '(s', w') := disconnect s w in mkSt s' w' (echo_strips st).

(** [connect] (lines 110-122). *)
Definition connect (prompt : string) (st : St W) : res unit * St W :=
  match _initialize_session prompt (self st) (world st) with
  | (Ok _, (s1, w1)) =>
      match _connect_actions prompt s1 w1 with
      | (Ok _, (s2, w2)) => (Ok tt, set_active true (mkSt s2 w2 (echo_strips st)))
      | (Raise e, (s2, w2)) => (Raise e, disconnected s2 w2 st)
      | (OutOfFuel, (s2, w2)) => (OutOfFuel, mkSt s2 w2 (echo_strips st))
      end
  | (Raise e, (s1, w1)) => (Raise e, disconnected s1 w1 st)
  | (OutOfFuel, (s1, w1)) => (OutOfFuel, mkSt s1 w1 (echo_strips st))
  end.

(** [send_line] (lines 124-131). *)
Definition send_line (command : string) (st : St W) : res unit * St W :=
  let '(r, w) := _send (command +:+ _new_line (self st)) (world st) in
  (r, with_world w st).

(** [_receive_all] (lines 133-151); [timeout] is already
    [timeout or self._timeout], [start_time] the clock at the call. *)
Fixpoint _receive_all_loop (fuel : nat) (timeout start_time : Z)
    (read_buffer : string) (st : St W) : res string * St W :=
  match fuel with
  | O => (OutOfFuel, st)
  | S fuel' =>
      match receive 100 st with
      | (Ok data, st1) =>
          _receive_all_loop fuel' timeout start_time (read_buffer +:+ data) st1
      | (Raise SessionReadTimeout, st1)
      | (Raise SessionReadEmptyData, st1) =>
          if truthy read_buffer then (Ok read_buffer, st1)
          else if timeout <? time_time (world st1) - start_time
               then (Raise (ExpectedSessionException "Socket closed by timeout"), st1)
               else _receive_all_loop fuel' timeout start_time read_buffer st1
      | (Raise e, st1) => (Raise e, st1)
      | (OutOfFuel, st1) => (OutOfFuel, st1)
      end
  end.

Definition _receive_all (fuel : nat) (timeout : option Z) (st : St W)
  : res string * St W :=
  let timeout := py_or timeout (_timeout (self st)) in
  let start_time := time_time (world st) in
  _receive_all_loop fuel timeout start_time "" st.

(** [_generate_command_pattern] (lines 153-162).  The [re.sub] of line
    160 runs before the assignment: when it raises, nothing is stored. *)
Definition _generate_command_pattern (command : string) (st : St W)
  : res string * St W :=
  match _command_patterns (self st) !! command with
  | Some pattern => (Ok pattern, st)
  | None =>
      match re_sub "\\\s+" "\s+" (re_escape command) with
      | Some escaped =>
          let pattern := "\s*" +:+ escaped +:+ "\s*" in
          (Ok pattern, with_self (set_command_pattern command pattern (self st)) st)
      | None => (Raise ReError, st)
      end
  end.

(** [match_prompt] (lines 173-181). *)
Definition match_prompt (prompt match_string : string) : bool :=
  bool_decide (is_Some (re_search DOTALL prompt match_string)).

(** The local variables of [hardware_expect] that live across the
    iterations of its loop (lines 218-224 and the parameter of line 185). *)
Record loop_vars := mkVars {
  output_list : list string;
  output_str : string;
  retries_count : Z;
  is_correct_exit : bool;
  remove_command_from_output : bool;
  action_loop_detector : ActionLoopDetector
}.

(** The defaulting of line 205 and the loop condition of line 226. *)
Definition effective_retries (retries : option Z) (s : session) : Z :=
  py_or retries (_max_loop_retries s).

Definition loop_guard (retries retries_count : Z) : bool :=
  (retries =? 0) || (retries_count <? retries).

(** Lines 241-245: the deletion of the command echo, at most the
    leftmost match, and only while the flag is set. *)
Definition strip_echo (command : option string) (remove : bool) (output_str : string)
    (st : St W) : res (string * bool) * St W :=
  match command with
  | Some c =>
      if truthy c && remove
      then match _generate_command_pattern c st with
           | (Ok command_pattern, st1) =>
               match re_search MULTILINE command_pattern output_str with
               | Some _ =>
                   (Ok (re_sub_first_empty MULTILINE command_pattern output_str, false),
                    count_strip st1)
               | None => (Ok (output_str, remove), st1)
               end
           | (Raise e, st1) => (Raise e, st1)
           | (OutOfFuel, st1) => (OutOfFuel, st1)
           end
      else (Ok (output_str, remove), st)
  | None => (Ok (output_str, remove), st)
  end.

(** Lines 252-268: what one iteration does with the buffer once the
    chunk has been appended and the echo handled.  The boolean tells
    whether the loop is left by the [break] of line 268. *)
Definition match_and_act (expected_string : string) (action_map : ActionMap W)
    (check_action_loop_detector : bool) (v : loop_vars) (output_str : string)
    (remove : bool) (st : St W) : res (loop_vars * bool) * St W :=
  let hit := match_prompt expected_string output_str in
  let output_list1 := if hit then output_list v ++ [output_str] else output_list v in
  let is_correct_exit1 := if hit then true else is_correct_exit v in
  match am_process action_map output_str check_action_loop_detector
          (action_loop_detector v) (self st) (world st) with
  | (Ok action_matched, (s1, w1), d1) =>
      (Ok (mkVars (if action_matched then output_list1 ++ [output_str] else output_list1)
                  (if action_matched then "" else output_str)
                  0 is_correct_exit1 remove d1,
           is_correct_exit1), mkSt s1 w1 (echo_strips st))
  | (Raise e, (s1, w1), _) => (Raise e, mkSt s1 w1 (echo_strips st))
  | (OutOfFuel, (s1, w1), _) => (OutOfFuel, mkSt s1 w1 (echo_strips st))
  end.

(** One iteration of the loop (lines 231-268). *)
Definition iteration (fuel : nat) (command : option string) (expected_string : string)
    (action_map : ActionMap W) (timeout : option Z) (check_action_loop_detector : bool)
    (empty_loop_timeout : Z) (v : loop_vars) (st : St W)
  : res (loop_vars * bool) * St W :=
  match _receive_all fuel timeout st with
  | (Ok read_buffer, st1) =>
      if truthy read_buffer
      then let read_buffer := normalize_buffer read_buffer in
           let output_str1 := output_str v +:+ read_buffer in
           match strip_echo command (remove_command_from_output v) output_str1 st1 with
           | (Ok (output_str2, remove), st2) =>
               match_and_act expected_string action_map check_action_loop_detector
                             v output_str2 remove st2
           | (Raise e, st2) => (Raise e, st2)
           | (OutOfFuel, st2) => (OutOfFuel, st2)
           end
      else (Ok (mkVars (output_list v) (output_str v) (retries_count v + 1)
                       (is_correct_exit v) (remove_command_from_output v)
                       (action_loop_detector v),
                false),
            with_world (time_sleep empty_loop_timeout (world st1)) st1)
  | (Raise e, st1) => (Raise e, st1)
  | (OutOfFuel, st1) => (OutOfFuel, st1)
  end.

(** The loop of lines 226-268. *)
Fixpoint expect_loop (fuel n : nat) (command : option string) (expected_string : string)
    (action_map : ActionMap W) (timeout : option Z) (retries : Z)
    (check_action_loop_detector : bool) (empty_loop_timeout : Z)
    (v : loop_vars) (st : St W) : res loop_vars * St W :=
  if loop_guard retries (retries_count v)
  then match n with
       | O => (OutOfFuel, st)
       | S n' =>
           match iteration fuel command expected_string action_map timeout
                   check_action_loop_detector empty_loop_timeout v st with
           | (Ok (v1, true), st1) => (Ok v1, st1)
           | (Ok (v1, false), st1) =>
               expect_loop fuel n' command expected_string action_map timeout retries
                           check_action_loop_detector empty_loop_timeout v1 st1
           | (Raise e, st1) => (Raise e, st1)
           | (OutOfFuel, st1) => (OutOfFuel, st1)
           end
       end
  else (Ok v, st).

(** Lines 208-214: the drain, the send and the test of the pattern. *)
Definition prologue (fuel : nat) (command : option string) (expected_string : string)
    (st : St W) : res unit * St W :=
  let '(r, st2) :=
    match command with
    | Some c =>
        match _clear_buffer fuel (_clear_buffer_timeout (self st)) st with
        | (Ok _, st1) => send_line c st1
        | (Raise e, st1) => (Raise e, st1)
        | (OutOfFuel, st1) => (OutOfFuel, st1)
        end
    | None => (Ok tt, st)
    end in
  match r with
  | Ok _ =>
      if truthy expected_string then (Ok tt, st2)
      else raise (ExpectedSessionException "List of expected messages can't be empty!") st2
  | Raise e => (Raise e, st2)
  | OutOfFuel => (OutOfFuel, st2)
  end.

(** Lines 270-278: the verdict, the error map and the closing drain. *)
Definition epilogue (fuel : nat) (error_map : ErrorMap) (v : loop_vars) (st : St W)
  : res string * St W :=
  if negb (is_correct_exit v)
  then raise (SessionLoopLimitException (retries_count v)) st
  else
    let result_output := String.concat "" (output_list v) in
    match em_process error_map result_output with
    | Ok _ =>
        match _clear_buffer fuel (_clear_buffer_timeout (self st)) st with
        | (Ok tail, st1) => (Ok (result_output +:+ tail), st1)
        | (Raise e, st1) => (Raise e, st1)
        | (OutOfFuel, st1) => (OutOfFuel, st1)
        end
    | Raise e => (Raise e, st)
    | OutOfFuel => (OutOfFuel, st)
    end.

Definition initial_vars (remove_command_from_output : bool) (s : session) : loop_vars :=
  mkVars [] "" 0 false remove_command_from_output
         (mkDetector (_loop_detector_max_action_loops s)
                     (_loop_detector_max_combination_length s) []).

(** [hardware_expect] (lines 183-278).  [fuel] bounds every loop. *)
Definition hardware_expect (fuel : nat) (command : option string)
    (expected_string : string) (action_map : option (ActionMap W))
    (error_map : option ErrorMap) (timeout retries : option Z)
    (check_action_loop_detector : bool) (empty_loop_timeout : option Z)
    (remove_command_from_output : bool) (st : St W) : res string * St W :=
  let action_map := default (ActionMap_of_rules []) action_map in
  let error_map := default (mkErrorMap []) error_map in
  let retries := effective_retries retries (self st) in
  let empty_loop_timeout := py_or empty_loop_timeout (_empty_loop_timeout (self st)) in
  match prologue fuel command expected_string st with
  | (Ok _, st1) =>
      match expect_loop fuel fuel command expected_string action_map timeout retries
              check_action_loop_detector empty_loop_timeout
              (initial_vars remove_command_from_output (self st1)) st1 with
      | (Ok v, st2) => epilogue fuel error_map v st2
      | (Raise e, st2) => (Raise e, st2)
      | (OutOfFuel, st2) => (OutOfFuel, st2)
      end
  | (Raise e, st1) => (Raise e, st1)
  | (OutOfFuel, st1) => (OutOfFuel, st1)
  end.

(** [probe_for_prompt] (lines 164-171). *)
Definition probe_for_prompt (fuel : nat) (expected_string : string) (st : St W)
  : res string * St W :=
  hardware_expect fuel (Some "") expected_string None None None None true None true st.

(** A transport that yields no data: every read raises one of the two
    transient exceptions.  A clock that runs: every read takes at least
    a millisecond.  A transport whose sends return. *)
Definition silent : Prop :=
  ∀ t w, fst (_receive t w) = Raise SessionReadTimeout
         ∨ fst (_receive t w) = Raise SessionReadEmptyData.

Definition ticking : Prop :=
  ∀ t w, time_time w + 1 <= time_time (snd (_receive t w)).

Definition sending : Prop :=
  ∀ data w, fst (_send data w) = Ok tt.

(** Hooks that leave the flag of a session alone while it is False:
    none of them calls [set_active(True)]. *)
Definition hooks_keep_inactive : Prop :=
  (∀ p s w, _active s = false → _active (fst (snd (_initialize_session p s w))) = false)
  ∧ (∀ p s w, _active s = false → _active (fst (snd (_connect_actions p s w))) = false)
  ∧ (∀ s w, _active s = false → _active (fst (disconnect s w)) = false).

(** The echo has been deleted at most once since the counter read [n],
    and not at all while the flag of line 245 is still set. *)
Definition strips_inv (n : nat) (v : loop_vars) (st : St W) : Prop :=
  (echo_strips st <= n + 1)%nat
  ∧ (remove_command_from_output v = true → echo_strips st = n).

End Engine.

End ExpectSession.

(** ** A small regular-expression engine

    An instance of [Lib] for running the engine on concrete devices.  It
    reads the fragment of Python's pattern syntax the engine itself
    writes (escaped characters, [\s], [*] and [+]) and the prompts of the
    specification's examples ([.], [$]).  Quantifiers are greedy and
    backtrack; the match found is the leftmost one. *)

Module MiniRe.

Import ExpectSession.

Local Open Scope char_scope.

Inductive atom := Lit (c : ascii) | Space | AnyChar | EndAnchor.
Inductive quant := One | Star | Plus.

Definition is_space (c : ascii) : bool :=
  existsb (Ascii.eqb c)
    [" "; ascii_of_nat 9; ascii_of_nat 10; ascii_of_nat 11; ascii_of_nat 12; ascii_of_nat 13].

Definition newline : ascii := ascii_of_nat 10.

Fixpoint parse (p : list ascii) : list (atom * quant) :=
  match p with
  | [] => []
  | "\" :: c :: r =>
      match r with
      | "*" :: r' => ((if Ascii.eqb c "s" then Space else Lit c), Star) :: parse r'
      | "+" :: r' => ((if Ascii.eqb c "s" then Space else Lit c), Plus) :: parse r'
      | _ => ((if Ascii.eqb c "s" then Space else Lit c), One) :: parse r
      end
  | c :: r =>
      let a := if Ascii.eqb c "." then AnyChar
               else if Ascii.eqb c "$" then EndAnchor else Lit c in
      match r with
      | "*" :: r' => (a, Star) :: parse r'
      | "+" :: r' => (a, Plus) :: parse r'
      | _ => (a, One) :: parse r
      end
  end.

Definition atom_matches (f : re_flag) (a : atom) (c : ascii) : bool :=
  match a with
  | Lit c' => Ascii.eqb c c'
  | Space => is_space c
  | AnyChar => match f with DOTALL => true | _ => negb (Ascii.eqb c newline) end
  | EndAnchor => false
  end.

(** [$]: the end of the text or just before a final newline; with
    [MULTILINE], before any newline. *)
Definition at_end (f : re_flag) (s : list ascii) : bool :=
  match s with
  | [] => true
  | c :: s' =>
      Ascii.eqb c newline &&
      match f with MULTILINE => true | _ => match s' with [] => true | _ => false end end
  end.

Fixpoint star (f : re_flag) (a : atom) (k : list ascii → option (list ascii))
    (s : list ascii) : option (list ascii) :=
  match s with
  | c :: s' =>
      if atom_matches f a c
      then match star f a k s' with
           | Some r => Some r
           | None => k s
           end
      else k s
  | [] => k s
  end.

(** The text left after a match of [items] at the head of the text. *)
Fixpoint match_items (f : re_flag) (items : list (atom * quant))
    (k : list ascii → option (list ascii)) : list ascii → option (list ascii) :=
  match items with
  | [] => k
  | (EndAnchor, _) :: r => fun s => if at_end f s then match_items f r k s else None
  | (a, One) :: r =>
      fun s => match s with
               | c :: s' => if atom_matches f a c then match_items f r k s' else None
               | [] => None
               end
  | (a, Star) :: r => star f a (match_items f r k)
  | (a, Plus) :: r =>
      fun s => match s with
               | c :: s' => if atom_matches f a c then star f a (match_items f r k) s' else None
               | [] => None
               end
  end.

Fixpoint search_from (f : re_flag) (items : list (atom * quant))
    (before_rev s : list ascii) : option (list ascii * list ascii * list ascii) :=
  match match_items f items Some s with
  | Some rest => Some (rev before_rev, take (length s - length rest) s, rest)
  | None =>
      match s with
      | c :: s' => search_from f items (c :: before_rev) s'
      | [] => None
      end
  end.

Definition search (f : re_flag) (p s : string) : option (string * string * string) :=
  match search_from f (parse (list_ascii_of_string p)) [] (list_ascii_of_string s) with
  | Some (b, m, a) =>
      Some (string_of_list_ascii b, string_of_list_ascii m, string_of_list_ascii a)
  | None => None
  end.

(** Every match replaced by the text [repl], taken literally, as
    CPython up to 3.6 takes a backslash followed by a letter that is no
    escape. *)
Fixpoint sub_all (fuel : nat) (items : list (atom * quant)) (repl s : list ascii)
  : list ascii :=
  match fuel with
  | O => s
  | S fuel' =>
      match search_from NOFLAG items [] s with
      | Some (b, [], c :: a) => b ++ repl ++ c :: sub_all fuel' items repl a
      | Some (b, [], []) => b ++ repl
      | Some (b, _, a) => b ++ repl ++ sub_all fuel' items repl a
      | None => s
      end
  end.

Definition sub (p repl s : string) : string :=
  let l := list_ascii_of_string s in
  string_of_list_ascii
    (sub_all (S (length l)) (parse (list_ascii_of_string p)) (list_ascii_of_string repl) l).

(** The check CPython from 3.7 on makes of a replacement before any
    match is looked for ([sre_parse.parse_template]): a backslash
    followed by an ASCII letter is an error, unless the letter is one of
    the escapes [a b f n r t v] or the [g] of a group reference. *)
Definition is_ascii_letter (c : ascii) : bool :=
  let n := nat_of_ascii c in
  (Nat.leb 65 n && Nat.leb n 90) || (Nat.leb 97 n && Nat.leb n 122).

Fixpoint bad_escape (repl : list ascii) : bool :=
  match repl with
  | [] => false
  | "\" :: c :: r =>
      (is_ascii_letter c
       && negb (existsb (Ascii.eqb c) ["a"; "b"; "f"; "n"; "r"; "t"; "v"; "g"]))
      || bad_escape r
  | _ :: r => bad_escape r
  end.

(** [re.escape]: the characters special in a pattern get a backslash. *)
Definition special (c : ascii) : bool :=
  is_space c ||
  existsb (Ascii.eqb c)
    ["("; ")"; "["; "]"; "{"; "}"; "?"; "*"; "+"; "-"; "|"; "^"; "$"; "\"; "."; "&"; "~"; "#"].

Definition escape (s : string) : string :=
  string_of_list_ascii
    (flat_map (fun c => if special c then ["\"; c] else [c]) (list_ascii_of_string s)).

(** [re] as CPython up to 3.6 has it: [re.sub] takes every replacement.
    The chunk is left as it is: [normalize_buffer] is in the absent
    [cloudshell/cli/session/helper/normalize_buffer.py]. *)
#[export] Instance lib : Lib :=
  {| re_search := search; re_sub := fun p repl s => Some (sub p repl s);
     re_escape := escape; normalize_buffer := fun s => s |}.

End MiniRe.

(** ** The same engine as CPython 3.7 and later have it: [re.sub]
    raises [re.error] for a replacement with a bad escape. *)

Module MiniRe37.

Import ExpectSession.

Definition sub (p repl s : string) : option string :=
  if MiniRe.bad_escape (list_ascii_of_string repl) then None
  else Some (MiniRe.sub p repl s).

#[export] Instance lib : Lib :=
  {| re_search := MiniRe.search; re_sub := sub;
     re_escape := MiniRe.escape; normalize_buffer := fun s => s |}.

End MiniRe37.

(** ** A scripted device

    A transport whose reads return the entries of a script one by one
    and time out once the script is over.  A read of data takes one
    millisecond, a read that times out takes its timeout. *)

Module Scripted.

Import ExpectSession MiniRe.

Local Open Scope Z_scope.

Record wire := mkWire {
  now : Z;
  incoming : list (res string);
  sent : list string;
  init_result : res unit;
  actions_result : res unit;
  disconnects : nat
}.

Definition scripted_receive (timeout : Z) (w : wire) : res string * wire :=
  match incoming w with
  | r :: rest =>
      (r, mkWire (now w + match r with Ok _ => 1 | _ => Z.max 1 timeout end) rest
                  (sent w) (init_result w) (actions_result w) (disconnects w))
  | [] =>
      (Raise SessionReadTimeout,
       mkWire (now w + Z.max 1 timeout) [] (sent w) (init_result w) (actions_result w)
               (disconnects w))
  end.

Definition scripted_send (data : string) (w : wire) : res unit * wire :=
  (Ok tt, mkWire (now w) (incoming w) (sent w ++ [data]) (init_result w)
                  (actions_result w) (disconnects w)).

#[export] Instance transport : Transport wire :=
  {| _receive := scripted_receive;
     _send := scripted_send;
     _initialize_session := fun _ s w => (init_result w, (s, w));
     _connect_actions := fun _ s w => (actions_result w, (s, w));
     disconnect := fun s w => (s, mkWire (now w) (incoming w) (sent w) (init_result w)
                                         (actions_result w) (S (disconnects w)));
     time_time := now;
     time_sleep := fun d w => mkWire (now w + d) (incoming w) (sent w) (init_result w)
                                       (actions_result w) (disconnects w) |}.

(** A device with the given script, behind a fresh session object. *)
Definition device (script : list (res string)) : St wire :=
  mkSt new_session (mkWire 0 script [] (Ok tt) (Ok tt) 0) 0.

(** The reaction of a rule that answers with a line: [session.send_line]. *)
Definition reply (text : string) (s : session) (w : wire) : res unit * (session * wire) :=
  let '(r, w1) := scripted_send (text +:+ _new_line s) w in (r, (s, w1)).

Definition nl : string := line_feed.
Definition crlf : string := carriage_return +:+ line_feed.

(** The device of the specification's error-map example. *)
Definition syntax_error_device : St wire :=
  device [Ok ("cmd" +:+ nl +:+ "bad arg" +:+ nl +:+ "Syntax error" +:+ nl +:+ "#")].

(** A device that asks for a password, and the rule that answers. *)
Definition password_device : St wire := device [Ok "Password:"].

Definition password_rules : ActionMap wire :=
  ActionMap_of_rules [mkAction "Password:" (reply "secret")].

(** A device that echoes the command, then prints the command's name
    again in its answer. *)
Definition echoing_device : St wire :=
  device [Raise SessionReadEmptyData;
          Ok ("show" +:+ crlf);
          Raise SessionReadTimeout;
          Ok ("show is back" +:+ crlf +:+ "device#")].

(** A device that prints its prompt once the command has been sent,
    behind the session object [s]. *)
Definition prompting_device (s : session) : St wire :=
  mkSt s (mkWire 0 [Raise SessionReadTimeout; Ok "device#"] [] (Ok tt) (Ok tt) 0) 0.

(** A device that answers nothing. *)
Definition quiet_device : St wire := device [].

(** A device whose [_initialize_session] fails. *)
Definition refusing_device : St wire :=
  mkSt new_session (mkWire 0 [] [] (Raise (OtherException "no route to host")) (Ok tt) 0) 0.

End Scripted.

(** ** A mute transport

    Its state is the clock alone: every read times out after its
    timeout, at least a millisecond, and every send is swallowed. *)

Module Mute.

Import ExpectSession.

Local Open Scope Z_scope.

#[export] Instance transport : Transport Z :=
  {| _receive := fun timeout clock => (Raise SessionReadTimeout, clock + Z.max 1 timeout);
     _send := fun _ clock => (Ok tt, clock);
     _initialize_session := fun _ s clock => (Ok tt, (s, clock));
     _connect_actions := fun _ s clock => (Ok tt, (s, clock));
     disconnect := fun s clock => (s, clock);
     time_time := fun clock => clock;
     time_sleep := fun d clock => clock + d |}.

Definition mute_session : St Z := mkSt new_session 0 0.

End Mute.

(** ** The connection pool: creating a session and the callers' view

    [_new_session] and [_create_session_by_connection_type]
    (connection_manager.py, 47-115), and [get_session_instance],
    [get_thread_session] as one thread runs them from start to end. *)

Module PoolCalls.

Import ConnectionManager.

Local Open Scope Z_scope.

(** The outcome of a method of the manager; [Failed origin message] is
    [raise Exception(origin, message)]. *)
Inductive outcome (A : Type) :=
  | Done (a : A)
  | Failed (origin message : string).
Arguments Done {A} a.
Arguments Failed {A} origin message.

(** The value of [self._connection_type]: a function (with the value it
    returns when called, [None] being Python's None), a string, or
    anything else (with the text [format] gives for it). *)
Inductive connection_type_setting :=
  | TypeCallable (result : option string)
  | TypeStr (s : string)
  | TypeOther (shown : string).

(** The attributes [__init__] reads from the configuration (lines
    24-43).  [_connection_map] lists the dictionary in the order of its
    iteration; the boolean of an entry tells whether
    [create_session()] followed by [connect(re_string=self._prompt)]
    returns for that type, or raises. *)
Record config := mkConfig {
  _connection_map : list (string * bool);
  _connection_type : connection_type_setting;
  _default_connection_type : string;
  _connection_type_auto : string
}.

(** [self._connection_map[key]]. *)
Fixpoint map_lookup (key : string) (m : list (string * bool)) : option bool :=
  match m with
  | [] => None
  | (k, v) :: m' => if String.eqb key k then Some v else map_lookup key m'
  end.

(** [str.lower()] on ASCII text. *)
Definition lower_ascii (c : ascii) : ascii :=
  let n := nat_of_ascii c in
  if ((65 <=? n) && (n <=? 90))%nat then ascii_of_nat (n + 32) else c.

Fixpoint lower (s : string) : string :=
  match s with
  | EmptyString => EmptyString
  | String c s' => String (lower_ascii c) (lower s')
  end.

Definition nonempty (s : string) : bool :=
  match s with EmptyString => false | String _ _ => true end.

(** A session enters the store: [create_session()] has constructed it
    and its [connect] has returned, so its flag is set. *)
Definition allocate (st : state) : sid * state :=
  let s := next_sid st in
  (s, with_sessions (<[s := mkSession true]> (sessions st)) (S s) st).

(** [_new_session] (lines 47-67).  The last component lists the
    connection types whose factory was called. *)
Definition _new_session (cfg : config) (connection_type : string) (st : state)
  : outcome sid * state * list string :=
  match map_lookup connection_type (_connection_map cfg) with
  | Some true =>
      let '(s, st1) := allocate st in (Done s, st1, [connection_type])
  | Some false =>
      (Failed "ConnectionManager" "Failed to open connection, see logs for details",
       st, [connection_type])
  | None =>
      (Failed "ConnectionManager"
              ("Unknown connection type '" +:+ connection_type +:+ "'"), st, [])
  end.

(** Lines 75-87: the connection type in force, lower-cased. *)
Definition resolve_connection_type (cfg : config) : outcome string :=
  match _connection_type cfg with
  | TypeCallable result =>
      let connection_type := match result with Some s => s | None => "" end in
      Done (lower (if nonempty connection_type then connection_type
                   else _default_connection_type cfg))
  | TypeStr s =>
      if nonempty s then Done (lower s)
      else Failed "_create_session_by_connection_type" ("Unknown connection type " +:+ s)
  | TypeOther shown =>
      Failed "_create_session_by_connection_type" ("Unknown connection type " +:+ shown)
  end.

(** The loop of lines 99-108 over the keys still to try. *)
Fixpoint try_each (cfg : config) (keys : list (string * bool)) (st : state)
    (tried : list string) : option sid * state * list string :=
  match keys with
  | [] => (None, st, tried)
  | (key, _) :: keys' =>
      match _new_session cfg key st with
      | (Done s, st1, t) => (Some s, st1, tried ++ t)
      | (Failed _ _, st1, t) => try_each cfg keys' st1 (tried ++ t)
      end
  end.

(** [_create_session_by_connection_type] (lines 69-115). *)
Definition _create_session_by_connection_type (cfg : config) (st : state)
  : outcome sid * state * list string :=
  match resolve_connection_type cfg with
  | Failed origin message => (Failed origin message, st, [])
  | Done connection_type =>
      if negb (String.eqb connection_type (_connection_type_auto cfg))
      then _new_session cfg connection_type st
      else match try_each cfg (_connection_map cfg) st [] with
           | (Some s, st1, tried) => (Done s, st1, tried)
           | (None, st1, tried) =>
               (Failed "ConnectionManager" "Failed to open connection to device.",
                st1, tried)
           end
  end.

(** [get_session_instance] (lines 155-166) run by one thread from start
    to end, no other thread moving; [create] is line 163.  The [Full]
    exception of a put that timed out is shown by its class name. *)
Definition get_session_instance_call (create : state → outcome sid * state)
    (st : state) : outcome sid * state :=
  let '(entered, st1) :=
    if may_create st
    then match create st with
         | (Done s, st') =>
             let st'' := increment_sessions_count st' in
             match return_session_to_pool s st'' with
             | Some st''' => (Done tt, st''')
             | None => (Failed "Full" "", st'')
             end
         | (Failed origin message, st') => (Failed origin message, st')
         end
    else (Done tt, st) in
  match entered with
  | Done _ =>
      match _get_session_from_pool st1 with
      | Some (s, st2) => (Done s, st2)
      | None =>
          (Failed "ConnectionManager" "Failed to get available session from pull.", st1)
      end
  | Failed origin message => (Failed origin message, st1)
  end.

(** Line 163 under a configuration. *)
Definition create_by (cfg : config) (st : state) : outcome sid * state :=
  fst (_create_session_by_connection_type cfg st).

(** [get_thread_session] (lines 177-184), called by thread [t]. *)
Definition get_thread_session (create : state → outcome sid * state) (t : tid)
    (st : state) : outcome sid * state :=
  match SESSION_CONTAINER st !! t with
  | Some s => (Done s, st)
  | None =>
      match get_session_instance_call create st with
      | (Done s, st1) => (Done s, with_container (<[t := s]> (SESSION_CONTAINER st1)) st1)
      | (Failed origin message, st1) => (Failed origin message, st1)
      end
  end.

(** The program points of the with-block, and the one after construction. *)
Definition in_with_block (p : pc) : bool :=
  match p with
  | Locked | Creating | Created _ | Putting _ | Unlocking => true
  | Idle | Getting => false
  end.

Definition is_created (p : pc) : bool :=
  match p with Created _ => true | _ => false end.

(** Every session of the store is counted, but for the one line 163
    has returned to a thread that has not yet counted it (between lines
    163 and 164). *)
Definition built_inv (st : state) : Prop :=
  (Z.of_nat (next_sid st) = _existing_sessions st
   ∧ ∀ t, is_created (pc_of t st) = false)
  ∨ (Z.of_nat (next_sid st) = _existing_sessions st + 1
     ∧ ∃ t, is_created (pc_of t st) = true).

(** A line 163 that always returns a session. *)
Definition always_creates (st : state) : outcome sid * state :=
  let '(s, st') := allocate st in (Done s, st').

(** Line 163 as the label [LCreate t ok] has it: a session, or the
    exception of a creation that failed. *)
Definition creation_outcome (ok : bool) (st : state) : outcome sid * state :=
  if ok then always_creates st
  else (Failed "ConnectionManager" "Failed to open connection to device.", st).

(** A configuration with three transports, of which ssh is down. *)
Definition ssh_down : config :=
  mkConfig [("ssh", false); ("telnet", true); ("tcp", true)] (TypeStr "AUTO") "ssh" "auto".

End PoolCalls.

(** ** The expect engine: reconnecting, and kinds of transport *)

Module Recovery.

Import ExpectSession.

Local Open Scope Z_scope.

Section Recovery.

Context {W : Type} `{Transport W}.

(** The loop of [reconnect] (lines 292-297); [call_time] is the clock
    at the call.  [except Exception] (line 296) catches the instances of
    [Exception] only: an attempt that ends with another exception, such
    as [KeyboardInterrupt], ends the loop with it. *)
Fixpoint reconnect_loop (fuel : nat) (prompt : string) (timeout call_time : Z)
    (st : St W) : res unit * St W :=
  if time_time (world st) - call_time <? timeout
  then match fuel with
       | O => (OutOfFuel, st)
       | S fuel' =>
           match connect prompt (disconnected (self st) (world st) st) with
           | (Ok u, st1) => (Ok u, st1)
           | (Raise e, st1) =>
               if is_exception e
               then reconnect_loop fuel' prompt timeout call_time st1
               else (Raise e, st1)
           | (OutOfFuel, st1) => (OutOfFuel, st1)
           end
       end
  else (Raise (ExpectedSessionException
                 "Reconnect unsuccessful, timeout exceeded, see logs for more details"), st).

(** [reconnect] (lines 280-299). *)
Definition reconnect (fuel : nat) (prompt : string) (timeout : option Z) (st : St W)
  : res unit * St W :=
  let timeout := py_or timeout (_reconnect_timeout (self st)) in
  reconnect_loop fuel prompt timeout (time_time (world st)) st.

(** The two exceptions the readers absorb. *)
Definition transient (e : exn) : bool :=
  match e with
  | SessionReadTimeout | SessionReadEmptyData => true
  | _ => false
  end.

(** A transport whose reads return the empty string and never raise. *)
Definition hollow : Prop := ∀ t w, fst (_receive t w) = Ok "".

(** A transport whose sends raise no transient exception, and an action
    map whose [process] raises none. *)
Definition sends_cleanly : Prop :=
  ∀ data w e, fst (_send data w) = Raise e → transient e = false.

Definition acts_cleanly (action_map : ActionMap W) : Prop :=
  ∀ output check d s w e,
    fst (fst (am_process action_map output check d s w)) = Raise e → transient e = false.

(** A session whose initialization always raises an instance of
    [Exception], and hooks that take time: the clock never runs
    backwards and an initialization takes at least a millisecond. *)
Definition refusing : Prop :=
  ∀ p s w, ∃ e, is_exception e = true ∧ fst (_initialize_session p s w) = Raise e.

Definition attempts_take_time : Prop :=
  (∀ s w, time_time w <= time_time (snd (disconnect s w)))
  ∧ (∀ p s w, time_time w + 1 <= time_time (snd (snd (_initialize_session p s w)))).

End Recovery.

End Recovery.

(** ** A flaky transport

    Its [_initialize_session] raises as long as failures are left, one
    fewer after each; an attempt takes [cost] milliseconds. *)

Module Flaky.

Import ExpectSession.

Local Open Scope Z_scope.

Record line := mkLine {
  clock : Z;
  cost : Z;
  failures_left : nat;
  attempts : nat;
  closed : nat
}.

#[export] Instance transport : Transport line :=
  {| _receive := fun timeout l =>
       (Raise SessionReadTimeout,
        mkLine (clock l + Z.max 1 timeout) (cost l) (failures_left l) (attempts l) (closed l));
     _send := fun _ l => (Ok tt, l);
     _initialize_session := fun _ s l =>
       match failures_left l with
       | O => (Ok tt, (s, mkLine (clock l + cost l) (cost l) O (S (attempts l)) (closed l)))
       | S n => (Raise (OtherException "connection refused"),
                 (s, mkLine (clock l + cost l) (cost l) n (S (attempts l)) (closed l)))
       end;
     _connect_actions := fun _ s l => (Ok tt, (s, l));
     disconnect := fun s l =>
       (s, mkLine (clock l) (cost l) (failures_left l) (attempts l) (S (closed l)));
     time_time := clock;
     time_sleep := fun d l =>
       mkLine (clock l + d) (cost l) (failures_left l) (attempts l) (closed l) |}.

(** A fresh session on a line that fails [n] times. *)
Definition flaky_session (n : nat) (cost : Z) : St line :=
  mkSt new_session (mkLine 0 cost n 0 0) 0.

End Flaky.

(** ** A dead transport: every connection is refused, after a quarter
    of a second. *)

Module Dead.

Import ExpectSession.

Local Open Scope Z_scope.

Record host := mkHost { uptime : Z; refusals : nat }.

#[export] Instance transport : Transport host :=
  {| _receive := fun timeout h =>
       (Raise SessionReadTimeout, mkHost (uptime h + Z.max 1 timeout) (refusals h));
     _send := fun _ h => (Ok tt, h);
     _initialize_session := fun _ s h =>
       (Raise (OtherException "connection refused"),
        (s, mkHost (uptime h + 250) (S (refusals h))));
     _connect_actions := fun _ s h => (Ok tt, (s, h));
     disconnect := fun s h => (s, h);
     time_time := uptime;
     time_sleep := fun d h => mkHost (uptime h + d) (refusals h) |}.

Definition dead_session : St host := mkSt new_session (mkHost 0 0) 0.

End Dead.

(** ** An interrupted transport: the operator's Ctrl-C arrives during
    every initialization, ten milliseconds in. *)

Module Interrupted.

Import ExpectSession.

Local Open Scope Z_scope.

#[export] Instance transport : Transport Z :=
  {| _receive := fun timeout clock => (Raise SessionReadTimeout, clock + Z.max 1 timeout);
     _send := fun _ clock => (Ok tt, clock);
     _initialize_session := fun _ s clock =>
       (Raise (Interrupt "KeyboardInterrupt"), (s, clock + 10));
     _connect_actions := fun _ s clock => (Ok tt, (s, clock));
     disconnect := fun s clock => (s, clock);
     time_time := fun clock => clock;
     time_sleep := fun d clock => clock + d |}.

Definition interrupted_session : St Z := mkSt new_session 0 0.

End Interrupted.

(** ** A hollow transport: every read returns the empty string. *)

Module Hollow.

Import ExpectSession.

Local Open Scope Z_scope.

#[export] Instance transport : Transport Z :=
  {| _receive := fun timeout clock => (Ok "", clock + Z.max 1 timeout);
     _send := fun _ clock => (Ok tt, clock);
     _initialize_session := fun _ s clock => (Ok tt, (s, clock));
     _connect_actions := fun _ s clock => (Ok tt, (s, clock));
     disconnect := fun s clock => (s, clock);
     time_time := fun clock => clock;
     time_sleep := fun d clock => clock + d |}.

Definition hollow_session : St Z := mkSt new_session 0 0.

End Hollow.

(** * Properties *)

(** ** The connection pool *)

Section PoolFacts.

Import ConnectionManager.

Local Open Scope Z_scope.

Lemma pc_of_with_pc (t t' : tid) (p : pc) (st : state) :
  pc_of t' (with_pc t p st) = if decide (t = t') then p else pc_of t' st.
Proof.
  unfold pc_of, with_pc; simpl. rewrite lookup_insert.
  destruct (decide (t = t')); reflexivity.
Qed.

Lemma count_run_nonneg (ops : list count_op) (st : state) :
  0 <= _existing_sessions st → 0 <= _existing_sessions (count_run ops st).
Proof.
  unfold count_run. revert st.
  induction ops as [|o ops IH]; intros st Hst; simpl; [exact Hst|].
  apply IH. destruct o; simpl.
  - lia.
  - unfold decrement_sessions_count.
    destruct (0 <? _existing_sessions st) eqn:E; simpl; [|exact Hst].
    apply Z.ltb_lt in E. lia.
Qed.

Lemma count_micro_run_app (a b : list count_label) (c : state * gmap tid count_pc) :
  count_micro_run (a ++ b) c
  = match count_micro_run a c with
    | Some c' => count_micro_run b c'
    | None => None
    end.
Proof.
  revert c. induction a as [|l a IH]; intros c; simpl; [reflexivity|].
  destruct (count_micro l c); [apply IH | reflexivity].
Qed.

(** A call that no other thread interrupts does what the method's body
    says. *)
Lemma count_call_atomic (t : tid) (o : count_op) (st : state) (at_ : gmap tid count_pc) :
  at_ !! t = None →
  count_micro_run (count_call t o st) (st, at_) = Some (count_step st o, at_).
Proof.
  intros Hout. destruct o; unfold count_call.
  - cbn [count_micro_run count_micro]. rewrite Hout.
    cbn [count_micro_run count_micro]. rewrite lookup_insert_eq.
    rewrite delete_insert_id by exact Hout. reflexivity.
  - cbn [count_step]. unfold decrement_sessions_count.
    destruct (0 <? _existing_sessions st) eqn:E.
    + cbn [count_micro_run count_micro]. rewrite Hout, E.
      cbn [count_micro_run count_micro]. rewrite lookup_insert_eq.
      cbn [count_micro_run count_micro]. rewrite lookup_insert_eq.
      rewrite delete_insert_eq, delete_insert_id by exact Hout. reflexivity.
    + cbn [count_micro_run count_micro]. rewrite Hout, E. reflexivity.
Qed.

Lemma serial_is_count_run (calls : list (tid * count_op)) (st : state)
    (at_ : gmap tid count_pc) :
  (∀ t, at_ !! t = None) →
  count_micro_run (serial calls st) (st, at_) = Some (count_run (map snd calls) st, at_).
Proof.
  intros Hout. revert st. induction calls as [|[t o] calls IH]; intros st;
    [reflexivity|].
  cbn [serial]. rewrite count_micro_run_app, (count_call_atomic t o st at_ (Hout t)).
  rewrite IH. reflexivity.
Qed.




(** C8: [destroy_thread_session], called by thread [t] with a session
    of the store, leaves that session inactive, leaves the registry
    without an entry for [t], and leaves the idle queue and the counter
    as they were: the session is not returned to the pool. *)
Theorem destroy_thread_session_invalidates (t : tid) (s : sid) (st : state) :
  is_Some (sessions st !! s) →
  let st' := destroy_thread_session t s st in
  _active <$> (sessions st' !! s) = Some false
  ∧ SESSION_CONTAINER st' = delete t (SESSION_CONTAINER st)
  ∧ SESSION_CONTAINER st' !! t = None
  ∧ _session_pool st' = _session_pool st
  ∧ _existing_sessions st' = _existing_sessions st.
Proof.
  intros [x Hx] st'. subst st'. unfold destroy_thread_session.
  assert (Hs : _active <$> (alter set_invalid s (sessions st) !! s) = Some false).
  { rewrite lookup_alter_eq, Hx. reflexivity. }
  destruct (decide _) as [Hin|Hout]; simpl in *.
  - split; [exact Hs|]. split; [reflexivity|].
    split; [apply lookup_delete_eq|]. split; reflexivity.
  - split; [exact Hs|].
    assert (Hn : SESSION_CONTAINER st !! t = None).
    { destruct (SESSION_CONTAINER st !! t) eqn:E; [|reflexivity].
      exfalso. apply Hout. eauto. }
    split; [symmetry; apply delete_id; exact Hn|].
    split; [exact Hn|]. split; reflexivity.
Qed.

Lemma destroy_thread_session_invalidates_witness :
  is_Some (sessions pinned !! 0%nat)
  ∧ _active <$> (sessions (destroy_thread_session 1%nat 0%nat pinned) !! 0%nat) = Some false
  ∧ SESSION_CONTAINER (destroy_thread_session 1%nat 0%nat pinned) !! 1%nat = None
  ∧ _session_pool (destroy_thread_session 1%nat 0%nat pinned) = [].
Proof.
  assert (H0 : is_Some (sessions pinned !! 0%nat)) by (eexists; reflexivity).
  destruct (destroy_thread_session_invalidates 1%nat 0%nat pinned H0)
    as (Ha & _ & Hc & Hp & _).
  split; [exact H0|]. split; [exact Ha|]. split; [exact Hc | exact Hp].
Defined.

Lemma pool_inv_init (max : Z) : pool_inv max (init max).
Proof.
  split; [reflexivity|]. split; [simpl; lia|].
  intros t. unfold pc_inv, pc_of. simpl. rewrite lookup_empty. exact I.
Qed.

Lemma pc_inv_frame (t' : tid) (st st' : state) :
  pc_of t' st' = pc_of t' st →
  CREATE_SESSION_LOCK st' = CREATE_SESSION_LOCK st →
  _existing_sessions st' = _existing_sessions st →
  _max_connections st' = _max_connections st →
  pc_inv t' st → pc_inv t' st'.
Proof.
  unfold pc_inv. intros -> -> -> ->. exact id.
Qed.

Lemma pc_inv_outside (t t' : tid) (st st' : state) :
  t ≠ t' →
  pc_of t' st' = pc_of t' st →
  CREATE_SESSION_LOCK st = Some t →
  pc_inv t' st → pc_inv t' st'.
Proof.
  unfold pc_inv. intros Hne -> Hl.
  destruct (pc_of t' st); intros H; try exact I; exfalso; rewrite Hl in H;
    try (apply proj1 in H); congruence.
Qed.

Lemma pool_inv_step (max : Z) (l : label) (st st' : state) :
  pool_inv max st → step l st = Some st' → pool_inv max st'.
Proof.
  intros (Hmax & Hle & Hpc) Hstep.
  destruct l as [t|t|t ok|t|t|t|t|t s|t s]; simpl in Hstep.
  - (* LAcquire *)
    destruct (pc_of t st) eqn:Ept; try discriminate.
    destruct (CREATE_SESSION_LOCK st) eqn:El; try discriminate.
    injection Hstep as <-. split; [exact Hmax|]. split; [exact Hle|].
    intros t'. pose proof (Hpc t') as H'. unfold pc_inv in *.
    rewrite pc_of_with_pc. destruct (decide (t = t')) as [->|Hne]; simpl.
    + reflexivity.
    + change (pc_of t' (with_lock (Some t) st)) with (pc_of t' st).
      destruct (pc_of t' st); try exact I;
        rewrite El in H'; try (apply proj1 in H'); discriminate.
  - (* LCheck *)
    assert (Hl := Hpc t). unfold pc_inv in Hl.
    destruct (pc_of t st) eqn:Ept; try discriminate.
    injection Hstep as <-. split; [exact Hmax|]. split; [exact Hle|].
    intros t'. destruct (decide (t = t')) as [<-|Hne].
    + unfold pc_inv. rewrite pc_of_with_pc, decide_True by reflexivity.
      destruct (may_create st) eqn:Em; simpl; [|exact Hl].
      split; [exact Hl|]. unfold may_create in Em.
      apply andb_true_iff in Em as [_ Em]. apply Z.ltb_lt in Em. exact Em.
    + apply (pc_inv_frame t' st); try reflexivity; [|apply Hpc].
      rewrite pc_of_with_pc, decide_False by exact Hne. reflexivity.
  - (* LCreate *)
    assert (Hl := Hpc t). unfold pc_inv in Hl.
    destruct (pc_of t st) eqn:Ept; try discriminate. destruct Hl as [Hl Hlt].
    destruct ok; injection Hstep as <-.
    + split; [exact Hmax|]. split; [exact Hle|].
      intros t'. destruct (decide (t = t')) as [<-|Hne].
      * unfold pc_inv. rewrite pc_of_with_pc, decide_True by reflexivity.
        simpl. split; assumption.
      * apply (pc_inv_frame t' st); try reflexivity; [|apply Hpc].
        rewrite pc_of_with_pc, decide_False by exact Hne. reflexivity.
    + split; [exact Hmax|]. split; [exact Hle|].
      intros t'. destruct (decide (t = t')) as [<-|Hne].
      * unfold pc_inv. rewrite pc_of_with_pc, decide_True by reflexivity. exact I.
      * apply (pc_inv_outside t t' st); [exact Hne| |exact Hl|apply Hpc].
        rewrite pc_of_with_pc, decide_False by exact Hne. reflexivity.
  - (* LIncr *)
    assert (Hl := Hpc t). unfold pc_inv in Hl.
    destruct (pc_of t st) eqn:Ept; try discriminate. destruct Hl as [Hl Hlt].
    injection Hstep as <-. split; [exact Hmax|]. split; [simpl; lia|].
    intros t'. destruct (decide (t = t')) as [<-|Hne].
    + unfold pc_inv. rewrite pc_of_with_pc, decide_True by reflexivity. exact Hl.
    + apply (pc_inv_outside t t' st); [exact Hne| |exact Hl|apply Hpc].
      rewrite pc_of_with_pc, decide_False by exact Hne. reflexivity.
  - (* LPut *)
    assert (Hl := Hpc t). unfold pc_inv in Hl.
    destruct (pc_of t st) eqn:Ept; try discriminate.
    unfold return_session_to_pool in Hstep.
    destruct (pool_full st); injection Hstep as <-;
      (split; [exact Hmax|]; split; [exact Hle|]);
      intros t'; (destruct (decide (t = t')) as [<-|Hne];
      [ unfold pc_inv; rewrite pc_of_with_pc, decide_True by reflexivity;
        first [exact I | exact Hl]
      | apply (pc_inv_outside t t' st); [exact Hne| |exact Hl|apply Hpc];
        rewrite pc_of_with_pc, decide_False by exact Hne; reflexivity ]).
  - (* LRelease *)
    assert (Hl := Hpc t). unfold pc_inv in Hl.
    destruct (pc_of t st) eqn:Ept; try discriminate.
    injection Hstep as <-. split; [exact Hmax|]. split; [exact Hle|].
    intros t'. destruct (decide (t = t')) as [<-|Hne].
    + unfold pc_inv. rewrite pc_of_with_pc, decide_True by reflexivity. exact I.
    + apply (pc_inv_outside t t' st); [exact Hne| |exact Hl|apply Hpc].
      rewrite pc_of_with_pc, decide_False by exact Hne. reflexivity.
  - (* LGet *)
    destruct (pc_of t st) eqn:Ept; try discriminate.
    unfold _get_session_from_pool in Hstep.
    destruct (_session_pool st); injection Hstep as <-;
      (split; [exact Hmax|]; split; [exact Hle|]);
      intros t'; (destruct (decide (t = t')) as [<-|Hne];
      [ unfold pc_inv; rewrite pc_of_with_pc, decide_True by reflexivity; exact I
      | apply (pc_inv_frame t' st); try reflexivity; [|apply Hpc];
        rewrite pc_of_with_pc, decide_False by exact Hne; reflexivity ]).
  - (* LReturn *)
    destruct (pc_of t st) eqn:Ept; try discriminate.
    injection Hstep as <-. unfold return_session_to_pool.
    destruct (pool_full st); simpl; (split; [exact Hmax|]; split; [exact Hle|]);
      intros t'; apply (pc_inv_frame t' st); try reflexivity; apply Hpc.
  - (* LDestroy *)
    destruct (pc_of t st) eqn:Ept; try discriminate.
    injection Hstep as <-. unfold destroy_thread_session.
    destruct (decide _); simpl; (split; [exact Hmax|]; split; [exact Hle|]);
      intros t'; apply (pc_inv_frame t' st); try reflexivity; apply Hpc.
Qed.

Lemma pool_inv_run (max : Z) (ls : list label) (st st' : state) :
  pool_inv max st → run ls st = Some st' → pool_inv max st'.
Proof.
  revert st. induction ls as [|l ls IH]; intros st Hinv Hrun; simpl in Hrun.
  - injection Hrun as <-. exact Hinv.
  - destruct (step l st) as [st1|] eqn:E; [|discriminate].
    apply (IH st1); [|exact Hrun]. exact (pool_inv_step max l st st1 Hinv E).
Qed.

Lemma pc_of_frame (t : tid) (st st' : state) :
  pcs st' = pcs st → pc_of t st' = pc_of t st.
Proof. unfold pc_of. intros ->. reflexivity. Qed.

Lemma enters_creating (l : label) (t : tid) (st st' : state) :
  step l st = Some st' → pc_of t st' = Creating →
  pc_of t st = Creating
  ∨ (l = LCheck t ∧ pc_of t st = Locked ∧ may_create st = true).
Proof.
  intros Hstep Hpc'.
  destruct l as [u|u|u ok|u|u|u|u|u s'|u s']; simpl in Hstep;
    destruct (pc_of u st) eqn:Epu; try discriminate.
  - destruct (CREATE_SESSION_LOCK st); [discriminate|]. injection Hstep as <-.
    rewrite pc_of_with_pc in Hpc'. destruct (decide (u = t)); [discriminate|].
    left. exact Hpc'.
  - injection Hstep as <-.
    rewrite pc_of_with_pc in Hpc'. destruct (decide (u = t)) as [->|Hne].
    + right. destruct (may_create st); [|discriminate]. auto.
    + left. exact Hpc'.
  - destruct ok; injection Hstep as <-;
      rewrite pc_of_with_pc in Hpc'; (destruct (decide (u = t)); [discriminate|]);
      left; exact Hpc'.
  - injection Hstep as <-.
    rewrite pc_of_with_pc in Hpc'. destruct (decide (u = t)); [discriminate|].
    left. exact Hpc'.
  - unfold return_session_to_pool in Hstep.
    destruct (pool_full st); injection Hstep as <-;
      rewrite pc_of_with_pc in Hpc'; (destruct (decide (u = t)); [discriminate|]);
      left; exact Hpc'.
  - injection Hstep as <-.
    rewrite pc_of_with_pc in Hpc'. destruct (decide (u = t)); [discriminate|].
    left. exact Hpc'.
  - unfold _get_session_from_pool in Hstep.
    destruct (_session_pool st); injection Hstep as <-;
      rewrite pc_of_with_pc in Hpc'; (destruct (decide (u = t)); [discriminate|]);
      left; exact Hpc'.
  - injection Hstep as <-. left. rewrite <- Hpc'. symmetry. apply pc_of_frame.
    unfold return_session_to_pool. destruct (pool_full st); reflexivity.
  - injection Hstep as <-. left. rewrite <- Hpc'. symmetry. apply pc_of_frame.
    unfold destroy_thread_session. destruct (decide _); reflexivity.
Qed.

Lemma count_nonneg_step (l : label) (st st' : state) :
  step l st = Some st' → 0 <= _existing_sessions st → 0 <= _existing_sessions st'.
Proof.
  intros Hstep Hc.
  destruct l as [u|u|u ok|u|u|u|u|u s'|u s']; simpl in Hstep;
    destruct (pc_of u st); try discriminate.
  - destruct (CREATE_SESSION_LOCK st); [discriminate|]. injection Hstep as <-. exact Hc.
  - injection Hstep as <-. exact Hc.
  - destruct ok; injection Hstep as <-; exact Hc.
  - injection Hstep as <-. simpl. lia.
  - unfold return_session_to_pool in Hstep.
    destruct (pool_full st); injection Hstep as <-; exact Hc.
  - injection Hstep as <-. exact Hc.
  - unfold _get_session_from_pool in Hstep.
    destruct (_session_pool st); injection Hstep as <-; exact Hc.
  - injection Hstep as <-. unfold return_session_to_pool.
    destruct (pool_full st); exact Hc.
  - injection Hstep as <-. unfold destroy_thread_session.
    destruct (decide _); exact Hc.
Qed.

Lemma count_nonneg_run (ls : list label) (st st' : state) :
  run ls st = Some st' → 0 <= _existing_sessions st → 0 <= _existing_sessions st'.
Proof.
  revert st. induction ls as [|l ls IH]; intros st Hrun Hc; simpl in Hrun.
  - injection Hrun as <-. exact Hc.
  - destruct (step l st) as [st1|] eqn:E; [|discriminate].
    apply (IH st1 Hrun). exact (count_nonneg_step l st st1 E Hc).
Qed.

(** C2, as the code has it.  In every state a pool of any capacity
    [max], negative ones included, reaches from its initial state, under
    any schedule of the threads calling [get_session_instance],
    [return_session_to_pool] and [destroy_thread_session]: the counter
    of existing sessions lies between zero and the larger of zero and
    [max]; a thread that is enabled to run line 163 holds the creation
    lock and finds the counter strictly below [max], and line 163 leaves
    the counter as it is; and a thread comes to line 163 only by the
    test of line 162, taken under the lock on an idle queue that was
    empty and a counter that was strictly below [max] when the test was
    taken.  Nothing is said of the queue when line 163 runs: callers
    return sessions without the lock. *)
Theorem pool_counter_bounded_creation_guarded
    (max : Z) (ls : list label) (st : state) :
  run ls (init max) = Some st →
  0 <= _existing_sessions st <= Z.max 0 max
  ∧ (∀ t ok st', step (LCreate t ok) st = Some st' →
       CREATE_SESSION_LOCK st = Some t
       ∧ _existing_sessions st < max
       ∧ _existing_sessions st' = _existing_sessions st)
  ∧ (∀ l t st', step l st = Some st' → pc_of t st' = Creating →
       pc_of t st = Creating
       ∨ (l = LCheck t ∧ CREATE_SESSION_LOCK st = Some t
          ∧ _session_pool st = [] ∧ _existing_sessions st < max)).
Proof.
  intros Hrun.
  assert (Hinv : pool_inv max st).
  { apply (pool_inv_run max ls (init max)); [apply pool_inv_init | exact Hrun]. }
  assert (Hnn : 0 <= _existing_sessions st).
  { apply (count_nonneg_run ls (init max) st Hrun). simpl. lia. }
  destruct Hinv as (Hm & Hle & Hpc). split; [split; [exact Hnn | exact Hle]|]. split.
  - intros t ok st' Hstep. simpl in Hstep.
    assert (Hl := Hpc t). unfold pc_inv in Hl.
    destruct (pc_of t st) eqn:Ept; try discriminate. destruct Hl as [Hl Hlt].
    split; [exact Hl|]. split; [lia|].
    destruct ok; injection Hstep as <-; reflexivity.
  - intros l t st' Hstep Hpc'.
    destruct (enters_creating l t st st' Hstep Hpc') as [Hc|(-> & Hlocked & Em)];
      [left; exact Hc|right].
    assert (Hl := Hpc t). unfold pc_inv in Hl. rewrite Hlocked in Hl.
    unfold may_create, pool_empty in Em.
    apply andb_true_iff in Em as [Em1 Em2]. apply Z.ltb_lt in Em2.
    destruct (_session_pool st); [|discriminate].
    split; [reflexivity|]. split; [exact Hl|]. split; [reflexivity|lia].
Qed.

Lemma pool_counter_bounded_creation_guarded_witness :
  (∃ st, run three_callers (init 2) = Some st
         ∧ 0 <= _existing_sessions st <= Z.max 0 2
         ∧ _existing_sessions st = 2
         ∧ _session_pool st = [])
  ∧ (∃ st, run [LAcquire 1%nat; LCheck 1%nat; LRelease 1%nat; LGet 1%nat] (init (-1))
           = Some st
           ∧ 0 <= _existing_sessions st <= Z.max 0 (-1)
           ∧ next_sid st = 0%nat).
Proof.
  split.
  - destruct (run three_callers (init 2)) as [st|] eqn:E;
      [|vm_compute in E; discriminate].
    exists st. split; [reflexivity|]. split.
    + exact (proj1 (pool_counter_bounded_creation_guarded 2 three_callers st E)).
    + vm_compute in E. injection E as <-. split; reflexivity.
  - destruct (run [LAcquire 1%nat; LCheck 1%nat; LRelease 1%nat; LGet 1%nat] (init (-1)))
      as [st|] eqn:E; [|vm_compute in E; discriminate].
    exists st. split; [reflexivity|]. split.
    + exact (proj1 (pool_counter_bounded_creation_guarded (-1) _ st E)).
    + vm_compute in E. injection E as <-. reflexivity.
Defined.

(** C2, as the specification states it, fails twice.  A pool whose size
    is negative starts with a counter above its capacity.  And on a
    pool of capacity two the schedule [late_return] reaches a state in
    which thread 2 holds the lock and has passed the test, the idle
    queue holds session 0, and line 163 is enabled: the session it
    returns is created while the idle queue is not empty. *)
Lemma creation_with_nonempty_queue :
  _max_connections (init (-1)) < _existing_sessions (init (-1))
  ∧ ∃ st st',
      run late_return (init 2) = Some st
      ∧ _session_pool st = [0%nat]
      ∧ CREATE_SESSION_LOCK st = Some 2%nat
      ∧ step (LCreate 2%nat true) st = Some st'
      ∧ next_sid st' = S (next_sid st)
      ∧ _session_pool st' = [0%nat].
Proof.
  split; [reflexivity|].
  destruct (run late_return (init 2)) as [st|] eqn:E; [|vm_compute in E; discriminate].
  destruct (step (LCreate 2%nat true) st) as [st'|] eqn:E';
    [|vm_compute in E; injection E as <-; vm_compute in E'; discriminate].
  exists st, st'. split; [reflexivity|].
  vm_compute in E. injection E as <-.
  vm_compute in E'. injection E' as <-.
  repeat split.
Qed.

(** An uncontended call creates a session; once the session is back in
    the pool the next call reuses it and the counter stays at one. *)
Example release_then_acquire_reuses :
  let st1 := default (init 2) (run (get_session_instance 1%nat true (init 2)) (init 2)) in
  let st2 := default st1 (return_session_to_pool 0%nat st1) in
  let st3 := default st2 (run (get_session_instance 2%nat true st2) st2) in
  _existing_sessions st1 = 1 ∧ _session_pool st2 = [0%nat]
  ∧ _existing_sessions st3 = 1 ∧ _session_pool st3 = [] ∧ next_sid st3 = 1%nat.
Proof. vm_compute. repeat split. Qed.

End PoolFacts.

(** ** The expect engine *)

Section EngineFacts.

Import ExpectSession.

Context `{Lib} {W : Type} `{Transport W}.

Local Open Scope Z_scope.

Lemma append_assoc (a b c : string) : (a +:+ b) +:+ c = a +:+ b +:+ c.
Proof.
  induction a as [|x a IH]; [reflexivity|].
  change (String x ((a +:+ b) +:+ c) = String x (a +:+ b +:+ c)).
  rewrite IH. reflexivity.
Qed.

Lemma append_empty_r (a : string) : a +:+ "" = a.
Proof.
  induction a as [|x a IH]; [reflexivity|].
  change (String x (a +:+ "") = String x a). rewrite IH. reflexivity.
Qed.

Lemma concat_cons (x : string) (l : list string) :
  String.concat "" (x :: l) = x +:+ String.concat "" l.
Proof.
  destruct l as [|y l]; [symmetry; apply append_empty_r | reflexivity].
Qed.

Lemma concat_snoc2 (l : list string) (a b : string) :
  String.concat "" (l ++ [a; b]) = String.concat "" l +:+ a +:+ b.
Proof.
  induction l as [|x l IH].
  - reflexivity.
  - change ((x :: l) ++ [a; b]) with (x :: (l ++ [a; b])).
    rewrite !concat_cons, IH, append_assoc. reflexivity.
Qed.

(** *** [connect] *)

(** C7: on a session whose flag is False, with hooks that do not set
    it, if [_initialize_session] raises, or it returns and
    [_connect_actions] raises, [connect] raises that same exception from
    the state [disconnect] has left, and the flag is still False; the
    flag is True after [connect] exactly when both steps returned. *)
Theorem connect_failure_disconnects_and_reraises (prompt : string) (st : St W) :
  hooks_keep_inactive →
  active st = false →
  let i := _initialize_session prompt (self st) (world st) in
  let a := _connect_actions prompt (fst (snd i)) (snd (snd i)) in
  (∀ e, fst i = Raise e →
        connect prompt st = (Raise e, disconnected (fst (snd i)) (snd (snd i)) st)
        ∧ active (snd (connect prompt st)) = false)
  ∧ (∀ u e, fst i = Ok u → fst a = Raise e →
        connect prompt st = (Raise e, disconnected (fst (snd a)) (snd (snd a)) st)
        ∧ active (snd (connect prompt st)) = false)
  ∧ (active (snd (connect prompt st)) = true
     ↔ (∃ u, fst i = Ok u) ∧ (∃ u, fst a = Ok u)).
Proof.
  intros (Hinit & Hacts & Hdisc) Hact i a. subst i a. unfold connect, active in *.
  specialize (Hinit prompt (self st) (world st) Hact).
  destruct (_initialize_session prompt (self st) (world st)) as [r1 [s1 w1]].
  cbn [fst snd] in *.
  assert (Hd1 : _active (self (disconnected s1 w1 st)) = false).
  { unfold disconnected. specialize (Hdisc s1 w1 Hinit).
    destruct (disconnect s1 w1) as [s' w']. exact Hdisc. }
  destruct r1 as [u|e|].
  - specialize (Hacts prompt s1 w1 Hinit).
    destruct (_connect_actions prompt s1 w1) as [r2 [s2 w2]].
    cbn [fst snd] in *.
    assert (Hd2 : _active (self (disconnected s2 w2 st)) = false).
    { unfold disconnected. specialize (Hdisc s2 w2 Hacts).
      destruct (disconnect s2 w2) as [s' w']. exact Hdisc. }
    destruct r2 as [u'|e|]; cbn [fst snd].
    + split; [intros e [=]|]. split; [intros ? e _ [=]|].
      split; [intros _; split; eexists; reflexivity | reflexivity].
    + split; [intros e' [=]|]. split.
      * intros ? e' _ [= ->]. split; [reflexivity | exact Hd2].
      * cbn [fst snd]. rewrite Hd2. split; [discriminate | intros [_ [? [=]]]].
    + split; [intros e' [=]|]. split; [intros ? e' _ [=]|].
      cbn [fst snd self]. rewrite Hacts. split; [discriminate | intros [_ [? [=]]]].
  - split; [intros e' [= ->]; split; [reflexivity | exact Hd1]|].
    split; [intros ? e' [=]|].
    cbn [fst snd]. rewrite Hd1. split; [discriminate | intros [[? [=]] _]].
  - split; [intros e' [=]|]. split; [intros ? e' [=]|].
    cbn [fst snd self]. rewrite Hinit. split; [discriminate | intros [[? [=]] _]].
Qed.

(** *** [hardware_expect]: the pattern test *)

(** C6, as the code has it: with an empty expected pattern and no
    command, [hardware_expect] raises at once and touches nothing; with
    a command, the buffer is drained and the command sent first, and the
    exception is raised from the state both have left. *)
Theorem empty_pattern_rejected_after_drain_and_send
    (fuel : nat) (action_map : option (ActionMap W)) (error_map : option ErrorMap)
    (timeout retries : option Z) (check : bool) (empty_loop_timeout : option Z)
    (remove : bool) (st : St W) :
  hardware_expect fuel None "" action_map error_map timeout retries check
                  empty_loop_timeout remove st
  = (Raise (ExpectedSessionException "List of expected messages can't be empty!"), st)
  ∧ ∀ c drained st1 st2,
      _clear_buffer fuel (_clear_buffer_timeout (self st)) st = (Ok drained, st1) →
      send_line c st1 = (Ok tt, st2) →
      hardware_expect fuel (Some c) "" action_map error_map timeout retries check
                      empty_loop_timeout remove st
      = (Raise (ExpectedSessionException "List of expected messages can't be empty!"), st2).
Proof.
  split.
  - reflexivity.
  - intros c drained st1 st2 Hd Hs. unfold hardware_expect, prologue.
    rewrite Hd, Hs. reflexivity.
Qed.

(** *** [hardware_expect]: the error map *)

(** The loop is left with [is_correct_exit] set only after a buffer that
    matched the expected pattern has been archived. *)
Lemma match_and_act_exit (expected_string : string) (action_map : ActionMap W)
    (check : bool) (v v' : loop_vars) (buf : string) (remove b : bool) (st st' : St W) :
  (is_correct_exit v = true →
   ∃ seg, In seg (output_list v) ∧ match_prompt expected_string seg = true) →
  match_and_act expected_string action_map check v buf remove st = (Ok (v', b), st') →
  is_correct_exit v' = true →
  ∃ seg, In seg (output_list v') ∧ match_prompt expected_string seg = true.
Proof.
  intros Hv. unfold match_and_act.
  destruct (am_process _ _ _ _ _ _) as [[[m|e|] [s1 w1]] d1]; try discriminate.
  intros [= <- _ _]. simpl.
  destruct (match_prompt expected_string buf) eqn:Hhit.
  - intros _. exists buf. split; [|exact Hhit].
    destruct m; rewrite ?in_app_iff; simpl; auto.
  - intros Hexit. destruct (Hv Hexit) as (seg & Hin & Hseg).
    exists seg. split; [|exact Hseg]. destruct m; rewrite ?in_app_iff; auto.
Qed.

Lemma expect_loop_exit (fuel k : nat) (command : option string)
    (expected_string : string) (action_map : ActionMap W) (timeout : option Z)
    (retries : Z) (check : bool) (empty_loop_timeout : Z) (v v' : loop_vars)
    (st st' : St W) :
  (is_correct_exit v = true →
   ∃ seg, In seg (output_list v) ∧ match_prompt expected_string seg = true) →
  expect_loop fuel k command expected_string action_map timeout retries check
              empty_loop_timeout v st = (Ok v', st') →
  is_correct_exit v' = true →
  ∃ seg, In seg (output_list v') ∧ match_prompt expected_string seg = true.
Proof.
  revert v st. induction k as [|k IH]; intros v st Hv; simpl.
  - destruct (loop_guard _ _); [discriminate|]. intros [= <- _]. exact Hv.
  - destruct (loop_guard _ _); [|intros [= <- _]; exact Hv].
    destruct (iteration _ _ _ _ _ _ _ _ _) as [[[v1 b]|e|] st1] eqn:Hit;
      try discriminate.
    assert (Hv1 : is_correct_exit v1 = true →
                  ∃ seg, In seg (output_list v1) ∧ match_prompt expected_string seg = true).
    { revert Hit. unfold iteration.
      destruct (_receive_all _ _ _) as [[chunk|e|] st0]; try discriminate.
      destruct (truthy chunk).
      - destruct (strip_echo _ _ _ _) as [[[buf remove']|e|] st2]; try discriminate.
        apply match_and_act_exit. exact Hv.
      - intros [= <- _ _]. exact Hv. }
    destruct b; [intros [= <- _]; exact Hv1 | apply IH; exact Hv1].
Qed.

(** C1: when the drain and send succeeded and the loop ended by a match
    of the expected pattern, with the segments [output_list v] archived
    (one of them matches the pattern), and a pattern of the error map
    matches the concatenation of these segments, [hardware_expect]
    raises [CommandExecutionException] with the text matched by the
    first such pattern: no result is returned. *)
Theorem error_map_overrides_prompt_match
    (fuel : nat) (command : option string) (expected_string : string)
    (action_map : option (ActionMap W)) (error_map : option ErrorMap)
    (timeout retries : option Z) (check : bool) (empty_loop_timeout : option Z)
    (remove : bool) (st st1 st2 : St W) (v : loop_vars) (matched : string) :
  prologue fuel command expected_string st = (Ok tt, st1) →
  expect_loop fuel fuel command expected_string
    (default (ActionMap_of_rules []) action_map) timeout
    (effective_retries retries (self st)) check
    (py_or empty_loop_timeout (_empty_loop_timeout (self st)))
    (initial_vars remove (self st1)) st1 = (Ok v, st2) →
  is_correct_exit v = true →
  first_error (error_patterns (default (mkErrorMap []) error_map))
              (String.concat "" (output_list v)) = Some matched →
  (∃ seg, In seg (output_list v) ∧ match_prompt expected_string seg = true)
  ∧ hardware_expect fuel command expected_string action_map error_map timeout retries
                    check empty_loop_timeout remove st
    = (Raise (CommandExecutionException matched), st2).
Proof.
  intros Hp Hl Hexit Herr. split.
  - eapply expect_loop_exit; [|exact Hl|exact Hexit]. simpl. discriminate.
  - unfold hardware_expect. rewrite Hp, Hl.
    unfold epilogue, em_process. rewrite Hexit, Herr. reflexivity.
Qed.

(** *** [hardware_expect]: a buffer that matches the prompt and a rule *)

Lemma epilogue_result (fuel : nat) (error_map : ErrorMap) (v : loop_vars)
    (st st' : St W) (r : string) :
  epilogue fuel error_map v st = (Ok r, st') →
  ∃ tail, r = String.concat "" (output_list v) +:+ tail.
Proof.
  unfold epilogue, raise. destruct (negb (is_correct_exit v)); [discriminate|].
  destruct (em_process _ _); try discriminate.
  destruct (_clear_buffer _ _ _) as [[tail| |] st1]; try discriminate.
  intros [= <- _]. exists tail. reflexivity.
Qed.

(** C9: in an iteration whose buffer [buf] matches the expected pattern
    and for which the action map reports a match, lines 252-268 append
    [buf] to the archived segments twice, empty the buffer and leave the
    loop; every result the call then returns holds [buf] twice in a row. *)
Theorem prompt_and_action_match_archives_twice
    (expected_string : string) (action_map : ActionMap W) (check : bool)
    (v : loop_vars) (buf : string) (remove : bool) (st : St W)
    (s1 : session) (w1 : W) (d1 : ActionLoopDetector) :
  match_prompt expected_string buf = true →
  am_process action_map buf check (action_loop_detector v) (self st) (world st)
  = (Ok true, (s1, w1), d1) →
  let v' := mkVars (output_list v ++ [buf; buf]) "" 0 true remove d1 in
  match_and_act expected_string action_map check v buf remove st
  = (Ok (v', true), mkSt s1 w1 (echo_strips st))
  ∧ ∀ fuel error_map r st',
      epilogue fuel error_map v' (mkSt s1 w1 (echo_strips st)) = (Ok r, st') →
      ∃ tail, r = String.concat "" (output_list v) +:+ buf +:+ buf +:+ tail.
Proof.
  intros Hhit Ham v'. split.
  - unfold match_and_act. rewrite Hhit, Ham. subst v'.
    rewrite <- app_assoc. reflexivity.
  - intros fuel error_map r st' He.
    destruct (epilogue_result fuel error_map v' _ st' r He) as [tail ->].
    exists tail. subst v'. simpl output_list.
    rewrite concat_snoc2, !append_assoc. reflexivity.
Qed.

(** *** [hardware_expect]: the command echo *)

Lemma receive_frame (timeout : Z) (st : St W) :
  echo_strips (snd (receive timeout st)) = echo_strips st
  ∧ self (snd (receive timeout st)) = self st.
Proof.
  unfold receive. destruct (_receive timeout (world st)); split; reflexivity.
Qed.

Lemma clear_buffer_loop_frame (fuel : nat) (timeout : Z) (out : string) (st : St W) :
  echo_strips (snd (_clear_buffer_loop fuel timeout out st)) = echo_strips st
  ∧ self (snd (_clear_buffer_loop fuel timeout out st)) = self st.
Proof.
  revert out st. induction fuel as [|fuel IH]; intros out st; simpl; [auto|].
  destruct (receive_frame timeout st) as [Hs Hf].
  destruct (receive timeout st) as [[data|e|] st1]; simpl in *.
  - destruct (truthy data); simpl; [|auto].
    destruct (IH (out +:+ data) st1) as [-> ->]. auto.
  - destruct e; simpl; auto.
  - auto.
Qed.

Lemma receive_all_loop_frame (fuel : nat) (timeout start_time : Z) (buf : string)
    (st : St W) :
  echo_strips (snd (_receive_all_loop fuel timeout start_time buf st)) = echo_strips st
  ∧ self (snd (_receive_all_loop fuel timeout start_time buf st)) = self st.
Proof.
  revert buf st. induction fuel as [|fuel IH]; intros buf st; simpl; [auto|].
  destruct (receive_frame 100 st) as [Hs Hf].
  destruct (receive 100 st) as [[data|e|] st1]; simpl in *.
  - destruct (IH (buf +:+ data) st1) as [-> ->]. auto.
  - destruct e; simpl; auto;
      (destruct (truthy buf); simpl; [auto|]);
      (destruct (_ <? _); simpl; [auto|]);
      destruct (IH buf st1) as [-> ->]; auto.
  - auto.
Qed.

Lemma send_line_frame (command : string) (st : St W) :
  echo_strips (snd (send_line command st)) = echo_strips st
  ∧ self (snd (send_line command st)) = self st.
Proof.
  unfold send_line. destruct (_send _ (world st)); split; reflexivity.
Qed.

Lemma prologue_frame (fuel : nat) (command : option string) (expected_string : string)
    (st : St W) :
  echo_strips (snd (prologue fuel command expected_string st)) = echo_strips st
  ∧ self (snd (prologue fuel command expected_string st)) = self st.
Proof.
  unfold prologue, _clear_buffer, raise. destruct command as [c|].
  - destruct (clear_buffer_loop_frame fuel (_clear_buffer_timeout (self st)) "" st)
      as [Hs Hf].
    destruct (_clear_buffer_loop _ _ _ _) as [[x|e|] st1]; simpl in *.
    + destruct (send_line_frame c st1) as [Hs' Hf'].
      destruct (send_line c st1) as [[u|e|] st2]; simpl in *;
        try destruct (truthy expected_string); simpl; split; congruence.
    + auto.
    + auto.
  - destruct (truthy expected_string); simpl; auto.
Qed.

Lemma epilogue_frame (fuel : nat) (error_map : ErrorMap) (v : loop_vars) (st : St W) :
  echo_strips (snd (epilogue fuel error_map v st)) = echo_strips st.
Proof.
  unfold epilogue, _clear_buffer, raise.
  destruct (negb (is_correct_exit v)); [reflexivity|].
  destruct (em_process _ _); try reflexivity.
  destruct (clear_buffer_loop_frame fuel (_clear_buffer_timeout (self st)) "" st)
    as [Hs _].
  destruct (_clear_buffer_loop _ _ _ _) as [[x|e|] st1]; exact Hs.
Qed.

Lemma generate_command_pattern_frame (command : string) (st : St W) :
  echo_strips (snd (_generate_command_pattern command st)) = echo_strips st.
Proof.
  unfold _generate_command_pattern.
  destruct (_command_patterns (self st) !! command); [reflexivity|].
  destruct (re_sub _ _ _); reflexivity.
Qed.

(** The deletion happens only under a set flag, and clears it. *)
Lemma strip_echo_counts (command : option string) (remove : bool) (buf : string)
    (st : St W) :
  (∀ buf' remove', fst (strip_echo command remove buf st) = Ok (buf', remove') →
     remove' = true →
     remove = true ∧ echo_strips (snd (strip_echo command remove buf st)) = echo_strips st)
  ∧ (echo_strips (snd (strip_echo command remove buf st)) = echo_strips st
     ∨ (remove = true
        ∧ echo_strips (snd (strip_echo command remove buf st)) = S (echo_strips st))).
Proof.
  unfold strip_echo. destruct command as [c|]; [|simpl; split; [intros ? ? [= _ <-]|]; auto].
  destruct (truthy c); simpl; [|split; [intros ? ? [= _ <-]|]; auto].
  destruct remove; simpl; [|split; [intros ? ? [= _ <-]|]; auto].
  pose proof (generate_command_pattern_frame c st) as Hg.
  destruct (_generate_command_pattern c st) as [[pattern|e|] st1]; simpl in Hg.
  - destruct (re_search MULTILINE pattern buf); simpl.
    + split; [intros ? ? [= _ <-]; discriminate|]. right. rewrite Hg. auto.
    + split; [intros ? ? _ _|]; auto.
  - simpl. split; [discriminate | auto].
  - simpl. split; [discriminate | auto].
Qed.

Lemma match_and_act_frame (expected_string : string) (action_map : ActionMap W)
    (check : bool) (v : loop_vars) (buf : string) (remove : bool) (st : St W) :
  echo_strips (snd (match_and_act expected_string action_map check v buf remove st))
  = echo_strips st
  ∧ ∀ v' b, fst (match_and_act expected_string action_map check v buf remove st)
            = Ok (v', b) → remove_command_from_output v' = remove.
Proof.
  unfold match_and_act.
  destruct (am_process _ _ _ _ _ _) as [[[m|e|] [s1 w1]] d1]; simpl;
    (split; [reflexivity|]); intros v' b [=]; subst; reflexivity.
Qed.

Lemma iteration_strips (n fuel : nat) (command : option string)
    (expected_string : string) (action_map : ActionMap W) (timeout : option Z)
    (check : bool) (empty_loop_timeout : Z) (v : loop_vars) (st : St W) :
  strips_inv n v st →
  let r := iteration fuel command expected_string action_map timeout check
                     empty_loop_timeout v st in
  (echo_strips (snd r) <= n + 1)%nat
  ∧ ∀ v' b, fst r = Ok (v', b) → strips_inv n v' (snd r).
Proof.
  intros [Hle Hflag] r. subst r. unfold iteration, _receive_all.
  destruct (receive_all_loop_frame fuel (py_or timeout (_timeout (self st)))
              (time_time (world st)) "" st) as [Hs _].
  destruct (_receive_all_loop _ _ _ _ _) as [[chunk|e|] st1]; simpl in Hs.
  - destruct (truthy chunk).
    + pose proof (strip_echo_counts command (remove_command_from_output v)
                    (output_str v +:+ normalize_buffer chunk) st1) as Hc.
      destruct (strip_echo _ _ _ _) as [[[buf remove']|e|] st2];
        destruct Hc as [Hkeep Hcount]; cbn [fst snd] in *.
      * destruct (match_and_act_frame expected_string action_map check v buf remove' st2)
          as [Hm Hv].
        assert (Hbound : (echo_strips st2 <= n + 1)%nat).
        { destruct Hcount as [->|[Hr ->]]; [lia|]. rewrite Hs, (Hflag Hr). lia. }
        split; [rewrite Hm; exact Hbound|].
        intros v' b Hok. split; [rewrite Hm; exact Hbound|].
        rewrite (Hv v' b Hok), Hm. intros Hr'.
        destruct (Hkeep buf remove' eq_refl Hr') as [Hr ->]. rewrite Hs. exact (Hflag Hr).
      * split; [|discriminate].
        destruct Hcount as [->|[Hr ->]]; [lia|]. rewrite Hs, (Hflag Hr). lia.
      * split; [|discriminate].
        destruct Hcount as [->|[Hr ->]]; [lia|]. rewrite Hs, (Hflag Hr). lia.
    + unfold with_world. simpl. rewrite Hs. split; [exact Hle|].
      intros v' b [= <- _]. simpl. split; [exact Hle | exact Hflag].
  - simpl. rewrite Hs. split; [exact Hle | discriminate].
  - simpl. rewrite Hs. split; [exact Hle | discriminate].
Qed.

Lemma expect_loop_strips (n fuel k : nat) (command : option string)
    (expected_string : string) (action_map : ActionMap W) (timeout : option Z)
    (retries : Z) (check : bool) (empty_loop_timeout : Z) (v : loop_vars) (st : St W) :
  strips_inv n v st →
  (echo_strips (snd (expect_loop fuel k command expected_string action_map timeout
                                 retries check empty_loop_timeout v st)) <= n + 1)%nat.
Proof.
  revert v st. induction k as [|k IH]; intros v st Hinv; simpl.
  - destruct (loop_guard _ _); simpl; apply Hinv.
  - destruct (loop_guard _ _); simpl; [|apply Hinv].
    destruct (iteration_strips n fuel command expected_string action_map timeout
                check empty_loop_timeout v st Hinv) as [Hle Hnext].
    destruct (iteration _ _ _ _ _ _ _ _ _) as [[[v1 b]|e|] st1]; simpl in *;
      try exact Hle.
    destruct b; simpl; [exact Hle|]. apply IH. apply (Hnext v1 false). reflexivity.
Qed.

(** What lines 241-245 do where the pattern of the command is to be
    had, from the cache or from a [re.sub] that accepts the template of
    line 160: during one call of [hardware_expect] line 244 runs at most
    once; when it runs, on a non-empty command with the flag set, the
    buffer loses the leftmost match of the command's pattern and the
    flag is cleared; once the flag is cleared the buffer is left as it
    is, whatever it holds. *)
Lemma echo_removed_at_most_once
    (fuel : nat) (command : option string) (expected_string : string)
    (action_map : option (ActionMap W)) (error_map : option ErrorMap)
    (timeout retries : option Z) (check : bool) (empty_loop_timeout : option Z)
    (remove : bool) (st : St W) :
  (echo_strips (snd (hardware_expect fuel command expected_string action_map error_map
                       timeout retries check empty_loop_timeout remove st))
   <= echo_strips st + 1)%nat
  ∧ (∀ c buf (st0 : St W) pattern st1 before matched after,
       truthy c = true →
       _generate_command_pattern c st0 = (Ok pattern, st1) →
       re_search MULTILINE pattern buf = Some (before, matched, after) →
       strip_echo (Some c) true buf st0 = (Ok (before +:+ after, false), count_strip st1))
  ∧ (∀ c buf (st0 : St W), strip_echo c false buf st0 = (Ok (buf, false), st0)).
Proof.
  split; [|split].
  - unfold hardware_expect.
    destruct (prologue_frame fuel command expected_string st) as [Hs _].
    destruct (prologue fuel command expected_string st) as [[u|e|] st1];
      simpl in Hs; simpl; try lia.
    match goal with |- context [expect_loop ?f ?k ?c ?e ?a ?t ?r ?ch ?el ?v ?s] =>
      pose proof (expect_loop_strips (echo_strips st) f k c e a t r ch el v s) as Hl
    end.
    destruct (expect_loop _ _ _ _ _ _ _ _ _ _ _) as [[v|e|] st2]; simpl in *.
    + rewrite epilogue_frame. apply Hl. split; [lia | intros _; exact Hs].
    + apply Hl. split; [lia | intros _; exact Hs].
    + apply Hl. split; [lia | intros _; exact Hs].
  - intros c buf st0 pattern st1 before matched after Hc Hg Hm.
    unfold strip_echo, re_sub_first_empty. rewrite Hc, Hg, Hm. reflexivity.
  - intros c buf st0. unfold strip_echo. destruct c as [c|]; [|reflexivity].
    rewrite andb_false_r. reflexivity.
Qed.

(** *** [hardware_expect]: reads that yield nothing *)

(** [_receive_all] returns only a chunk that is not empty: the branch of
    lines 247-250, which counts an empty read, is never taken. *)
Lemma receive_all_loop_truthy (fuel : nat) (timeout start_time : Z) (buf chunk : string)
    (st st' : St W) :
  _receive_all_loop fuel timeout start_time buf st = (Ok chunk, st') →
  truthy chunk = true.
Proof.
  revert buf st. induction fuel as [|fuel IH]; intros buf st; simpl; [discriminate|].
  destruct (receive 100 st) as [[data|e|] st1]; [apply IH| |discriminate].
  destruct e; try discriminate;
    (destruct (truthy buf) eqn:E; [intros [= <- _]; exact E|]);
    (destruct (_ <? _); [discriminate | apply IH]).
Qed.

Lemma iteration_resets_retries_count (fuel : nat) (command : option string)
    (expected_string : string) (action_map : ActionMap W) (timeout : option Z)
    (check : bool) (empty_loop_timeout : Z) (v v' : loop_vars) (b : bool)
    (st st' : St W) :
  iteration fuel command expected_string action_map timeout check empty_loop_timeout v st
  = (Ok (v', b), st') →
  retries_count v' = 0.
Proof.
  unfold iteration, _receive_all.
  destruct (_receive_all_loop _ _ _ _ _) as [[chunk|e|] st1] eqn:E; try discriminate.
  rewrite (receive_all_loop_truthy _ _ _ _ _ _ _ E).
  destruct (strip_echo _ _ _ _) as [[[buf remove']|e|] st2]; try discriminate.
  unfold match_and_act.
  destruct (am_process _ _ _ _ _ _) as [[[m|e|] [s1 w1]] d1]; try discriminate.
  intros [= <- _ _]. reflexivity.
Qed.

(** *** [hardware_expect]: the command echo, where [re.sub] is strict *)

Lemma strip_echo_uncached (c buf : string) (st : St W) :
  (∀ x, re_sub "\\\s+" "\s+" x = None) →
  truthy c = true →
  _command_patterns (self st) !! c = None →
  strip_echo (Some c) true buf st = (Raise ReError, st).
Proof.
  intros Hre Hc Hm. unfold strip_echo, _generate_command_pattern.
  rewrite Hc, Hm, Hre. reflexivity.
Qed.

Lemma iteration_uncached (fuel : nat) (c expected_string : string)
    (action_map : ActionMap W) (timeout : option Z) (check : bool)
    (empty_loop_timeout : Z) (v : loop_vars) (st : St W) :
  (∀ x, re_sub "\\\s+" "\s+" x = None) →
  truthy c = true →
  _command_patterns (self st) !! c = None →
  remove_command_from_output v = true →
  let r := iteration fuel (Some c) expected_string action_map timeout check
                     empty_loop_timeout v st in
  (∀ x, fst r ≠ Ok x)
  ∧ echo_strips (snd r) = echo_strips st
  ∧ ∀ chunk st0, _receive_all fuel timeout st = (Ok chunk, st0) →
                 r = (Raise ReError, st0).
Proof.
  intros Hre Hc Hm Hv r. subst r. unfold iteration, _receive_all.
  destruct (receive_all_loop_frame fuel (py_or timeout (_timeout (self st)))
              (time_time (world st)) "" st) as [Hs Hself].
  destruct (_receive_all_loop _ _ _ _ _) as [[chunk|e|] st0] eqn:E;
    cbn [fst snd] in Hs, Hself.
  - rewrite (receive_all_loop_truthy _ _ _ _ _ _ _ E), Hv.
    rewrite strip_echo_uncached; [|exact Hre|exact Hc|rewrite Hself; exact Hm].
    cbn [fst snd]. split; [discriminate|]. split; [exact Hs|].
    intros chunk' st0' [= _ <-]. reflexivity.
  - cbn [fst snd]. split; [discriminate|]. split; [exact Hs|]. discriminate.
  - cbn [fst snd]. split; [discriminate|]. split; [exact Hs|]. discriminate.
Qed.

Lemma expect_loop_uncached (fuel k : nat) (c expected_string : string)
    (action_map : ActionMap W) (timeout : option Z) (retries : Z) (check : bool)
    (empty_loop_timeout : Z) (v : loop_vars) (st : St W) :
  (∀ x, re_sub "\\\s+" "\s+" x = None) →
  truthy c = true →
  _command_patterns (self st) !! c = None →
  remove_command_from_output v = true →
  let r := expect_loop fuel k (Some c) expected_string action_map timeout retries check
                       empty_loop_timeout v st in
  (∀ v', fst r = Ok v' → v' = v)
  ∧ echo_strips (snd r) = echo_strips st.
Proof.
  intros Hre Hc Hm Hv r. subst r. destruct k as [|k]; cbn [expect_loop].
  - destruct (loop_guard _ _); cbn [fst snd]; split; try reflexivity;
      [discriminate | intros v' [= <-]; reflexivity].
  - destruct (loop_guard _ _); cbn [fst snd];
      [|split; [intros v' [= <-]; reflexivity | reflexivity]].
    destruct (iteration_uncached fuel c expected_string action_map timeout check
                empty_loop_timeout v st Hre Hc Hm Hv) as (Hno & Hs & _).
    destruct (iteration _ _ _ _ _ _ _ _ _) as [[[v1 b]|e|] st1]; cbn [fst snd] in *.
    + exfalso. exact (Hno (v1, b) eq_refl).
    + split; [discriminate | exact Hs].
    + split; [discriminate | exact Hs].
Qed.

(** C5, as the code has it under a [re.sub] that rejects the template
    [\s+] of line 160, as CPython 3.7 and later do.  A call of
    [hardware_expect] with a command that is not empty and not in the
    cache, and with the removal of the echo enabled, never returns a
    result and deletes no echo: the iteration in which the first data
    arrives raises [re.error] at line 160, from the state the read has
    left, and nothing is stored in the cache. *)
Theorem uncached_echo_pattern_raises
    (fuel : nat) (c expected_string : string)
    (action_map : option (ActionMap W)) (error_map : option ErrorMap)
    (timeout retries : option Z) (check : bool) (empty_loop_timeout : option Z)
    (st : St W) :
  (∀ x, re_sub "\\\s+" "\s+" x = None) →
  truthy c = true →
  _command_patterns (self st) !! c = None →
  (∀ out, fst (hardware_expect fuel (Some c) expected_string action_map error_map timeout
                               retries check empty_loop_timeout true st) ≠ Ok out)
  ∧ echo_strips (snd (hardware_expect fuel (Some c) expected_string action_map error_map
                        timeout retries check empty_loop_timeout true st))
    = echo_strips st
  ∧ (∀ (v : loop_vars) (st0 st1 : St W) chunk am elt,
       remove_command_from_output v = true →
       _command_patterns (self st0) !! c = None →
       _receive_all fuel timeout st0 = (Ok chunk, st1) →
       iteration fuel (Some c) expected_string am timeout check elt v st0
       = (Raise ReError, st1)
       ∧ _command_patterns (self st1) !! c = None).
Proof.
  intros Hre Hc Hm.
  assert (Hcall :
    (∀ out, fst (hardware_expect fuel (Some c) expected_string action_map error_map timeout
                                 retries check empty_loop_timeout true st) ≠ Ok out)
    ∧ echo_strips (snd (hardware_expect fuel (Some c) expected_string action_map error_map
                          timeout retries check empty_loop_timeout true st))
      = echo_strips st).
  { unfold hardware_expect.
    destruct (prologue_frame fuel (Some c) expected_string st) as [Hs Hself].
    destruct (prologue fuel (Some c) expected_string st) as [[u|e|] st1];
      cbn [fst snd] in *; [|split; [discriminate | exact Hs]..].
    match goal with |- context [expect_loop ?f ?k _ ?e ?a ?t ?r ?ch ?el ?v ?s] =>
      destruct (expect_loop_uncached f k c e a t r ch el v s Hre Hc) as [Hsame Hstrips];
        [rewrite Hself; exact Hm | reflexivity |]
    end.
    destruct (expect_loop _ _ _ _ _ _ _ _ _ _ _) as [[v|e|] st2]; cbn [fst snd] in *;
      [|split; [discriminate | congruence]..].
    rewrite (Hsame v eq_refl). unfold epilogue, raise. cbn [initial_vars is_correct_exit negb].
    cbn [fst snd]. split; [discriminate | congruence]. }
  destruct Hcall as [Hno Hs]. split; [exact Hno|]. split; [exact Hs|].
  intros v st0 st1 chunk am elt Hv Hm0 Hr.
  destruct (iteration_uncached fuel c expected_string am timeout check elt v st0
              Hre Hc Hm0 Hv) as (_ & _ & Hraise).
  split; [exact (Hraise chunk st1 Hr)|].
  unfold _receive_all in Hr.
  destruct (receive_all_loop_frame fuel (py_or timeout (_timeout (self st0)))
              (time_time (world st0)) "" st0) as [_ Hself].
  rewrite Hr in Hself. cbn [snd] in Hself. rewrite Hself. exact Hm0.
Qed.

Lemma receive_silent (t : Z) (st : St W) :
  silent → ticking →
  ∃ e st1, receive t st = (Raise e, st1)
           ∧ (e = SessionReadTimeout ∨ e = SessionReadEmptyData)
           ∧ time_time (world st) + 1 <= time_time (world st1)
           ∧ self st1 = self st.
Proof.
  intros Hsilent Htick. unfold receive.
  specialize (Hsilent t (world st)). specialize (Htick t (world st)).
  destruct (_receive t (world st)) as [r w]; simpl in *.
  destruct Hsilent as [->| ->]; eexists _, _; (split; [reflexivity|]); auto.
Qed.

Lemma receive_all_loop_silent (fuel : nat) (timeout start_time : Z) (st : St W) :
  silent → ticking →
  (Z.to_nat (timeout - (time_time (world st) - start_time)) + 1 <= fuel)%nat →
  ∃ st', _receive_all_loop fuel timeout start_time "" st
         = (Raise (ExpectedSessionException "Socket closed by timeout"), st').
Proof.
  intros Hsilent Htick. revert st.
  induction fuel as [|fuel IH]; intros st Hfuel; [lia|]. simpl.
  destruct (receive_silent 100 st Hsilent Htick) as (e & st1 & -> & He & Ht & _).
  assert (Hstep :
    ∃ st', (if timeout <? time_time (world st1) - start_time
            then (Raise (ExpectedSessionException "Socket closed by timeout"), st1)
            else _receive_all_loop fuel timeout start_time "" st1)
           = (Raise (ExpectedSessionException "Socket closed by timeout"), st')).
  { destruct (timeout <? time_time (world st1) - start_time) eqn:E.
    - eexists. reflexivity.
    - apply Z.ltb_ge in E. apply IH. lia. }
  destruct He as [-> | ->]; exact Hstep.
Qed.

Lemma clear_buffer_silent (fuel : nat) (t : Z) (st : St W) :
  silent → ticking → (1 <= fuel)%nat →
  ∃ st1, _clear_buffer fuel t st = (Ok "", st1) ∧ self st1 = self st.
Proof.
  intros Hsilent Htick Hfuel. destruct fuel as [|fuel]; [lia|].
  unfold _clear_buffer. simpl.
  destruct (receive_silent t st Hsilent Htick) as (e & st1 & -> & He & _ & Hself).
  exists st1. destruct He as [-> | ->]; auto.
Qed.


End EngineFacts.

(** ** The properties on concrete devices *)

Section Devices.

Import ExpectSession MiniRe Scripted Mute.

Local Open Scope Z_scope.

Lemma connect_failure_disconnects_and_reraises_witness :
  hooks_keep_inactive (W := wire)
  ∧ active refusing_device = false
  ∧ connect "#" refusing_device
    = (Raise (OtherException "no route to host"),
       disconnected (self refusing_device) (world refusing_device) refusing_device)
  ∧ active (snd (connect "#" refusing_device)) = false
  ∧ disconnects (world (snd (connect "#" refusing_device))) = 1%nat.
Proof.
  assert (Hh : hooks_keep_inactive (W := wire)).
  { split; [|split]; intros; simpl; assumption. }
  assert (H0 : active refusing_device = false) by reflexivity.
  destruct (connect_failure_disconnects_and_reraises "#" refusing_device Hh H0)
    as (Hinit & _ & _).
  destruct (Hinit (OtherException "no route to host") eq_refl) as [Hc Ha].
  split; [exact Hh|]. split; [exact H0|]. split; [exact Hc|]. split; [exact Ha|].
  rewrite Hc. reflexivity.
Defined.

(** C6, as the specification states it, fails: with an empty pattern and the
    command "reboot", the exception is raised, but the device has
    already been sent the command. *)
Lemma empty_pattern_command_already_sent :
  fst (hardware_expect 5 (Some "reboot") "" None None None None true None true
                       quiet_device)
  = Raise (ExpectedSessionException "List of expected messages can't be empty!")
  ∧ sent (world (snd (hardware_expect 5 (Some "reboot") "" None None None None true
                                      None true quiet_device)))
    = ["reboot" +:+ carriage_return]
  ∧ sent (world quiet_device) = [].
Proof. vm_compute. repeat split. Qed.

Lemma empty_pattern_rejected_after_drain_and_send_witness :
  ∃ st1 st2,
    _clear_buffer 5 (_clear_buffer_timeout (self quiet_device)) quiet_device = (Ok "", st1)
    ∧ send_line "reboot" st1 = (Ok tt, st2)
    ∧ hardware_expect 5 (Some "reboot") "" None None None None true None true quiet_device
      = (Raise (ExpectedSessionException "List of expected messages can't be empty!"), st2)
    ∧ sent (world st2) = ["reboot" +:+ carriage_return].
Proof.
  eexists _, _.
  assert (Hd : _clear_buffer 5 (_clear_buffer_timeout (self quiet_device)) quiet_device
               = (Ok "", with_world (mkWire 100 [] [] (Ok tt) (Ok tt) 0) quiet_device))
    by (vm_compute; reflexivity).
  split; [exact Hd|].
  assert (Hs : send_line "reboot"
                 (with_world (mkWire 100 [] [] (Ok tt) (Ok tt) 0) quiet_device)
               = (Ok tt, with_world (mkWire 100 [] ["reboot" +:+ carriage_return]
                                            (Ok tt) (Ok tt) 0) quiet_device))
    by (vm_compute; reflexivity).
  split; [exact Hs|]. split; [|reflexivity].
  exact (proj2 (empty_pattern_rejected_after_drain_and_send 5 None None None None true
                  None true quiet_device) "reboot" "" _ _ Hd Hs).
Defined.

Lemma error_map_overrides_prompt_match_witness :
  ∃ v st2,
    prologue 50 None "#\s*$" syntax_error_device = (Ok tt, syntax_error_device)
    ∧ expect_loop 50 50 None "#\s*$" (ActionMap_of_rules []) None 20 true 500
        (initial_vars true new_session) syntax_error_device = (Ok v, st2)
    ∧ is_correct_exit v = true
    ∧ first_error ["Syntax error"] (String.concat "" (output_list v)) = Some "Syntax error"
    ∧ hardware_expect 50 None "#\s*$" None (Some (mkErrorMap ["Syntax error"])) None None
        true None true syntax_error_device
      = (Raise (CommandExecutionException "Syntax error"), st2).
Proof.
  assert (Hp : prologue 50 None "#\s*$" syntax_error_device = (Ok tt, syntax_error_device))
    by reflexivity.
  destruct (expect_loop 50 50 None "#\s*$" (ActionMap_of_rules []) None 20 true 500
              (initial_vars true new_session) syntax_error_device) as [[v| |] st2] eqn:Hl;
    [|vm_compute in Hl; discriminate|vm_compute in Hl; discriminate].
  assert (Hv : is_correct_exit v = true
               ∧ first_error ["Syntax error"] (String.concat "" (output_list v))
                 = Some "Syntax error").
  { vm_compute in Hl. injection Hl as <- _. vm_compute. split; reflexivity. }
  destruct Hv as [Hexit Herr].
  exists v, st2. split; [exact Hp|]. split; [reflexivity|].
  split; [exact Hexit|]. split; [exact Herr|].
  exact (proj2 (error_map_overrides_prompt_match 50 None "#\s*$" None
                  (Some (mkErrorMap ["Syntax error"])) None None true None true
                  syntax_error_device syntax_error_device st2 v "Syntax error"
                  Hp Hl Hexit Herr)).
Defined.

Lemma prompt_and_action_match_archives_twice_witness :
  ∃ s1 w1 d1,
    match_prompt "Password:" "Password:" = true
    ∧ am_process password_rules "Password:" true
        (action_loop_detector (initial_vars true new_session))
        (self password_device) (world password_device) = (Ok true, (s1, w1), d1)
    ∧ match_and_act "Password:" password_rules true (initial_vars true new_session)
        "Password:" true password_device
      = (Ok (mkVars ["Password:"; "Password:"] "" 0 true true d1, true), mkSt s1 w1 0%nat)
    ∧ fst (hardware_expect 50 None "Password:" (Some password_rules) None None None true
                           None true password_device)
      = Ok "Password:Password:".
Proof.
  assert (Hhit : match_prompt "Password:" "Password:" = true) by reflexivity.
  destruct (am_process password_rules "Password:" true
              (action_loop_detector (initial_vars true new_session))
              (self password_device) (world password_device))
    as [[[[]| |] [s1 w1]] d1] eqn:Ham;
    try (vm_compute in Ham; discriminate).
  exists s1, w1, d1. split; [exact Hhit|]. split; [reflexivity|].
  split; [|vm_compute; reflexivity].
  exact (proj1 (prompt_and_action_match_archives_twice "Password:" password_rules true
                  (initial_vars true new_session) "Password:" true password_device
                  s1 w1 d1 Hhit Ham)).
Defined.

Lemma echo_removed_at_most_once_witness :
  (echo_strips (snd (hardware_expect 50 (Some "show") "device#\s*$" None None None None
                       true None true echoing_device)) <= 0 + 1)%nat
  ∧ fst (hardware_expect 50 (Some "show") "device#\s*$" None None None None
                         true None true echoing_device)
    = Ok ("show is back" +:+ crlf +:+ "device#")
  ∧ strip_echo (Some "show") true ("show" +:+ crlf) echoing_device
    = (Ok ("", false),
       count_strip (with_self (set_command_pattern "show" "\s*show\s*" new_session)
                              echoing_device))
  ∧ strip_echo (Some "show") false ("show is back" +:+ crlf +:+ "device#") echoing_device
    = (Ok ("show is back" +:+ crlf +:+ "device#", false), echoing_device).
Proof.
  destruct (echo_removed_at_most_once 50 (Some "show") "device#\s*$" None None None None
              true None true echoing_device) as (Hcount & Hfirst & Hlater).
  split; [exact Hcount|]. split; [vm_compute; reflexivity|]. split.
  - apply (Hfirst "show" ("show" +:+ crlf) echoing_device "\s*show\s*" _ "" ("show" +:+ crlf) "");
      vm_compute; reflexivity.
  - apply Hlater.
Defined.



(** The specification's end-to-end example, on the engine whose
    [re.sub] takes the template of line 160: the echo is deleted, the
    prompt is kept. *)
Example show_version_end_to_end :
  fst (hardware_expect 50 (Some "show version") "device#\s*$" None None None None true
                       None true
                       (device [Raise SessionReadTimeout;
                                Ok ("show version" +:+ crlf);
                                Ok ("Device OS 1.0" +:+ crlf +:+ "device#")]))
  = Ok ("Device OS 1.0" +:+ crlf +:+ "device#").
Proof. vm_compute. reflexivity. Qed.

(** The specification's loop-detection example: a device that keeps
    asking for the password fails the call at the third repeat. *)
Example password_loop_detected :
  let r := hardware_expect 50 None "never" (Some password_rules) None None None true
             None true
             (device [Ok "Password:"; Raise SessionReadTimeout;
                      Ok "Password:"; Raise SessionReadTimeout;
                      Ok "Password:"; Raise SessionReadTimeout;
                      Ok "Password:"]) in
  fst r = Raise (SessionLoopDetectorException "Expected actions loops detected")
  ∧ length (sent (world (snd r))) = 3%nat.
Proof. vm_compute. split; reflexivity. Qed.

End Devices.

(** ** The connection pool: creation policy and the callers' view *)

Section PoolCallFacts.

Import ConnectionManager PoolCalls.

Local Open Scope Z_scope.

Lemma lower_ascii_idem (c : ascii) : lower_ascii (lower_ascii c) = lower_ascii c.
Proof.
  unfold lower_ascii.
  destruct ((65 <=? nat_of_ascii c)%nat && (nat_of_ascii c <=? 90)%nat) eqn:E.
  - apply andb_true_iff in E as [E1 E2].
    apply Nat.leb_le in E1. apply Nat.leb_le in E2.
    rewrite nat_ascii_embedding by lia.
    replace ((nat_of_ascii c + 32 <=? 90)%nat) with false
      by (symmetry; apply Nat.leb_gt; lia).
    rewrite andb_false_r. reflexivity.
  - rewrite E. reflexivity.
Qed.

Lemma lower_idem (s : string) : lower (lower s) = lower s.
Proof.
  induction s as [|c s IH]; simpl; [reflexivity|].
  rewrite lower_ascii_idem, IH. reflexivity.
Qed.

Lemma nonempty_lower (s : string) : nonempty (lower s) = nonempty s.
Proof. destruct s; reflexivity. Qed.

Lemma new_session_map_only (cfg cfg' : config) (ct : string) (st : state) :
  _connection_map cfg = _connection_map cfg' →
  _new_session cfg ct st = _new_session cfg' ct st.
Proof. unfold _new_session. intros ->. reflexivity. Qed.

Lemma try_each_map_only (cfg cfg' : config) (keys : list (string * bool)) (st : state)
    (tried : list string) :
  _connection_map cfg = _connection_map cfg' →
  try_each cfg keys st tried = try_each cfg' keys st tried.
Proof.
  intros Hm. revert st tried.
  induction keys as [|[k v] keys IH]; intros st tried; simpl; [reflexivity|].
  rewrite (new_session_map_only cfg cfg' k st Hm).
  destruct (_new_session cfg' k st) as [[[s|o msg] st1] t]; [reflexivity | apply IH].
Qed.

(** X1: [_create_session_by_connection_type] reads the configured type
    without regard to case: a configuration naming a type [s] behaves as
    the one naming [lower s]. *)
Theorem connection_type_is_case_insensitive
    (m : list (string * bool)) (s default auto : string) (st : state) :
  _create_session_by_connection_type (mkConfig m (TypeStr s) default auto) st
  = _create_session_by_connection_type (mkConfig m (TypeStr (lower s)) default auto) st.
Proof.
  unfold _create_session_by_connection_type, resolve_connection_type. simpl.
  rewrite nonempty_lower, lower_idem. destruct s as [|c s]; [reflexivity|].
  cbn [nonempty]. destruct (negb _).
  - apply new_session_map_only. reflexivity.
  - erewrite try_each_map_only; reflexivity.
Qed.

Lemma resolve_is_lower (cfg : config) (ct : string) :
  resolve_connection_type cfg = Done ct → lower ct = ct.
Proof.
  unfold resolve_connection_type.
  destruct (_connection_type cfg) as [r|s|shown].
  - intros [= <-]. apply lower_idem.
  - destruct (nonempty s); [|discriminate]. intros [= <-]. apply lower_idem.
  - discriminate.
Qed.

(** X2: when the sentinel [_connection_type_auto] holds an upper-case
    letter, no configured type ever equals it: the type in force is
    passed to [_new_session] as a name, and the map is never iterated. *)
Theorem uppercase_auto_sentinel_never_matches (cfg : config) (ct : string) (st : state) :
  lower (_connection_type_auto cfg) ≠ _connection_type_auto cfg →
  resolve_connection_type cfg = Done ct →
  _create_session_by_connection_type cfg st = _new_session cfg ct st.
Proof.
  intros Hauto Hres. unfold _create_session_by_connection_type. rewrite Hres.
  destruct (String.eqb ct (_connection_type_auto cfg)) eqn:E; [|reflexivity].
  apply String.eqb_eq in E. exfalso. apply Hauto. rewrite <- E.
  exact (resolve_is_lower cfg ct Hres).
Qed.

Lemma uppercase_auto_sentinel_never_matches_witness :
  lower "Auto" ≠ "Auto"
  ∧ resolve_connection_type (mkConfig [("ssh", true)] (TypeStr "auto") "ssh" "Auto")
    = Done "auto"
  ∧ fst (fst (_create_session_by_connection_type
                (mkConfig [("ssh", true)] (TypeStr "auto") "ssh" "Auto") (init 2)))
    = Failed "ConnectionManager" "Unknown connection type 'auto'".
Proof.
  assert (H1 : lower (_connection_type_auto
                        (mkConfig [("ssh", true)] (TypeStr "auto") "ssh" "Auto"))
               ≠ _connection_type_auto
                   (mkConfig [("ssh", true)] (TypeStr "auto") "ssh" "Auto"))
    by (vm_compute; discriminate).
  assert (H2 : resolve_connection_type
                 (mkConfig [("ssh", true)] (TypeStr "auto") "ssh" "Auto") = Done "auto")
    by reflexivity.
  split; [exact H1|]. split; [exact H2|].
  rewrite (uppercase_auto_sentinel_never_matches _ "auto" (init 2) H1 H2). reflexivity.
Defined.

(** X3: a type given by name has no fallback: when its factory raises,
    the call fails after that one attempt, whatever other types the map
    holds; when the name is not a key of the map, the call fails and no
    factory is called.  Neither failure changes the state. *)
Theorem named_type_has_no_fallback (cfg : config) (ct : string) (st : state) :
  resolve_connection_type cfg = Done ct →
  ct ≠ _connection_type_auto cfg →
  (map_lookup ct (_connection_map cfg) = Some false →
   _create_session_by_connection_type cfg st
   = (Failed "ConnectionManager" "Failed to open connection, see logs for details",
      st, [ct]))
  ∧ (map_lookup ct (_connection_map cfg) = None →
     _create_session_by_connection_type cfg st
     = (Failed "ConnectionManager" ("Unknown connection type '" +:+ ct +:+ "'"), st, []))
  ∧ (map_lookup ct (_connection_map cfg) = Some true →
     _create_session_by_connection_type cfg st
     = (Done (next_sid st), snd (allocate st), [ct])).
Proof.
  intros Hres Hne. unfold _create_session_by_connection_type. rewrite Hres.
  replace (String.eqb ct (_connection_type_auto cfg)) with false
    by (symmetry; apply String.eqb_neq; exact Hne).
  unfold _new_session. simpl.
  split; [|split]; intros ->; reflexivity.
Qed.

Lemma named_type_has_no_fallback_witness :
  resolve_connection_type
    (mkConfig [("ssh", false); ("telnet", true)] (TypeStr "SSH") "telnet" "auto")
  = Done "ssh"
  ∧ "ssh" ≠ "auto"
  ∧ _create_session_by_connection_type
      (mkConfig [("ssh", false); ("telnet", true)] (TypeStr "SSH") "telnet" "auto") (init 2)
    = (Failed "ConnectionManager" "Failed to open connection, see logs for details",
       init 2, ["ssh"]).
Proof.
  pose (cfg := mkConfig [("ssh", false); ("telnet", true)] (TypeStr "SSH") "telnet" "auto").
  assert (H1 : resolve_connection_type cfg = Done "ssh") by reflexivity.
  assert (H2 : "ssh" ≠ _connection_type_auto cfg) by discriminate.
  split; [exact H1|]. split; [exact H2|].
  exact (proj1 (named_type_has_no_fallback cfg "ssh" (init 2) H1 H2) eq_refl).
Defined.

Lemma map_lookup_in (k : string) (v : bool) (m : list (string * bool)) :
  NoDup (map fst m) → In (k, v) m → map_lookup k m = Some v.
Proof.
  induction m as [|[k' v'] m IH]; simpl; [intros _ []|].
  intros Hnd [Hin|Hin].
  - injection Hin as -> ->. rewrite String.eqb_refl. reflexivity.
  - apply NoDup_cons in Hnd as [Hnotin Hnd].
    destruct (String.eqb k k') eqn:E.
    + apply String.eqb_eq in E. subst k'. exfalso. apply Hnotin.
      apply list_elem_of_In. apply in_map_iff. exists (k, v). auto.
    + apply IH; assumption.
Qed.

Lemma try_each_first_success (cfg : config) (pre post : list (string * bool))
    (k : string) (st : state) (tried : list string) :
  NoDup (map fst (_connection_map cfg)) →
  (∀ e, In e (pre ++ (k, true) :: post) → In e (_connection_map cfg)) →
  (∀ e, In e pre → snd e = false) →
  try_each cfg (pre ++ (k, true) :: post) st tried
  = (Some (next_sid st), snd (allocate st), tried ++ map fst pre ++ [k]).
Proof.
  intros Hnd. revert tried.
  induction pre as [|[k' v'] pre IH]; intros tried Hsub Hfail; simpl.
  - unfold _new_session.
    rewrite (map_lookup_in k true _ Hnd) by (apply Hsub; simpl; auto).
    reflexivity.
  - assert (Hv : v' = false) by (apply (Hfail (k', v')); simpl; auto). subst v'.
    unfold _new_session at 1.
    rewrite (map_lookup_in k' false _ Hnd) by (apply Hsub; simpl; auto).
    rewrite IH.
    + rewrite <- !app_assoc. reflexivity.
    + intros e He. apply Hsub. simpl. auto.
    + intros e He. apply Hfail. simpl. auto.
Qed.

Lemma try_each_all_fail (cfg : config) (keys : list (string * bool)) (st : state)
    (tried : list string) :
  NoDup (map fst (_connection_map cfg)) →
  (∀ e, In e keys → In e (_connection_map cfg)) →
  (∀ e, In e keys → snd e = false) →
  try_each cfg keys st tried = (None, st, tried ++ map fst keys).
Proof.
  intros Hnd. revert tried.
  induction keys as [|[k' v'] keys IH]; intros tried Hsub Hfail; simpl.
  - rewrite app_nil_r. reflexivity.
  - assert (Hv : v' = false) by (apply (Hfail (k', v')); simpl; auto). subst v'.
    unfold _new_session at 1.
    rewrite (map_lookup_in k' false _ Hnd) by (apply Hsub; simpl; auto).
    rewrite IH.
    + rewrite <- !app_assoc. reflexivity.
    + intros e He. apply Hsub. simpl. auto.
    + intros e He. apply Hfail. simpl. auto.
Qed.

(** X4: under the sentinel type, the types of the map are tried in its
    order and the first whose factory returns wins: the session is the
    next object of the store, the factories called are those before it
    and its own, and no later type is tried. *)
Theorem auto_first_success_wins
    (cfg : config) (pre post : list (string * bool)) (k : string) (st : state) :
  resolve_connection_type cfg = Done (_connection_type_auto cfg) →
  NoDup (map fst (_connection_map cfg)) →
  _connection_map cfg = pre ++ (k, true) :: post →
  (∀ e, In e pre → snd e = false) →
  _create_session_by_connection_type cfg st
  = (Done (next_sid st), snd (allocate st), map fst pre ++ [k]).
Proof.
  intros Hres Hnd Hmap Hfail. unfold _create_session_by_connection_type.
  rewrite Hres, String.eqb_refl. simpl. rewrite Hmap at 1.
  rewrite (try_each_first_success cfg pre post k st [] Hnd); [reflexivity| |exact Hfail].
  intros e He. rewrite Hmap. exact He.
Qed.

Lemma auto_first_success_wins_witness :
  resolve_connection_type ssh_down = Done (_connection_type_auto ssh_down)
  ∧ NoDup (map fst (_connection_map ssh_down))
  ∧ _connection_map ssh_down = [("ssh", false)] ++ ("telnet", true) :: [("tcp", true)]
  ∧ _create_session_by_connection_type ssh_down (init 2)
    = (Done 0%nat, snd (allocate (init 2)), ["ssh"; "telnet"]).
Proof.
  assert (H1 : resolve_connection_type ssh_down = Done (_connection_type_auto ssh_down))
    by reflexivity.
  assert (H2 : NoDup (map fst (_connection_map ssh_down))).
  { simpl. repeat constructor; rewrite ?elem_of_cons, ?elem_of_nil; intuition discriminate. }
  assert (H3 : _connection_map ssh_down
               = [("ssh", false)] ++ ("telnet", true) :: [("tcp", true)]) by reflexivity.
  assert (H4 : ∀ e, In e [("ssh", false)] → snd e = false).
  { intros e [<-|[]]. reflexivity. }
  split; [exact H1|]. split; [exact H2|]. split; [exact H3|].
  exact (auto_first_success_wins ssh_down [("ssh", false)] [("tcp", true)] "telnet"
           (init 2) H1 H2 H3 H4).
Defined.

(** X5: under the sentinel type, when every factory of the map raises,
    each one has been called once, in the order of the map, the state is
    as before, and the call fails with the aggregate message. *)
Theorem auto_all_fail (cfg : config) (st : state) :
  resolve_connection_type cfg = Done (_connection_type_auto cfg) →
  NoDup (map fst (_connection_map cfg)) →
  (∀ e, In e (_connection_map cfg) → snd e = false) →
  _create_session_by_connection_type cfg st
  = (Failed "ConnectionManager" "Failed to open connection to device.",
     st, map fst (_connection_map cfg)).
Proof.
  intros Hres Hnd Hfail. unfold _create_session_by_connection_type.
  rewrite Hres, String.eqb_refl. simpl.
  rewrite (try_each_all_fail cfg (_connection_map cfg) st [] Hnd); auto.
Qed.

Lemma auto_all_fail_witness :
  resolve_connection_type
    (mkConfig [("ssh", false); ("telnet", false)] (TypeCallable None) "AUTO" "auto")
  = Done "auto"
  ∧ _create_session_by_connection_type
      (mkConfig [("ssh", false); ("telnet", false)] (TypeCallable None) "AUTO" "auto")
      (init 2)
    = (Failed "ConnectionManager" "Failed to open connection to device.",
       init 2, ["ssh"; "telnet"]).
Proof.
  pose (cfg := mkConfig [("ssh", false); ("telnet", false)] (TypeCallable None) "AUTO" "auto").
  assert (H1 : resolve_connection_type cfg = Done (_connection_type_auto cfg))
    by reflexivity.
  assert (H2 : NoDup (map fst (_connection_map cfg))).
  { simpl. repeat constructor; rewrite ?elem_of_cons, ?elem_of_nil; intuition discriminate. }
  assert (H3 : ∀ e, In e (_connection_map cfg) → snd e = false).
  { intros e [<-|[<-|[]]]; reflexivity. }
  split; [exact H1|].
  exact (auto_all_fail cfg (init 2) H1 H2 H3).
Defined.

End PoolCallFacts.

(** ** The connection pool: the queue, the thread registry, the schedule *)

Section PoolUseFacts.

Import ConnectionManager PoolCalls.

Local Open Scope Z_scope.

Lemma with_pool_same (st : state) : with_pool (_session_pool st) st = st.
Proof. destruct st; reflexivity. Qed.

(** X6: the idle queue is first in, first out.  A session given back to
    a queue that is not full goes to its end, and the next session taken
    is the one that has waited longest; given back to an empty queue, it
    is the one taken next, and the pool is then as it was before. *)
Theorem pool_is_first_in_first_out (s : sid) (st : state) :
  pool_full st = false →
  ∃ st1, return_session_to_pool s st = Some st1
         ∧ _session_pool st1 = _session_pool st ++ [s]
         ∧ fst <$> _get_session_from_pool st1 = Some (hd s (_session_pool st))
         ∧ (_session_pool st = [] → _get_session_from_pool st1 = Some (s, st)).
Proof.
  intros Hfull. unfold return_session_to_pool. rewrite Hfull.
  eexists. split; [reflexivity|]. split; [reflexivity|].
  unfold _get_session_from_pool. simpl.
  destruct (_session_pool st) as [|x q] eqn:E; simpl.
  - split; [reflexivity|]. intros _. unfold with_pool. simpl.
    rewrite <- E. f_equal. f_equal. destruct st; reflexivity.
  - split; [reflexivity | discriminate].
Qed.

Lemma pool_is_first_in_first_out_witness :
  pool_full (init 2) = false
  ∧ ∃ st1, return_session_to_pool 7%nat (init 2) = Some st1
           ∧ _get_session_from_pool st1 = Some (7%nat, init 2).
Proof.
  assert (H0 : pool_full (init 2) = false) by reflexivity.
  destruct (pool_is_first_in_first_out 7%nat (init 2) H0) as (st1 & Hr & _ & _ & Hg).
  split; [exact H0|]. exists st1. split; [exact Hr | exact (Hg eq_refl)].
Defined.

(** X7: [get_thread_session] memoizes.  Once it has returned a session
    to a thread, every later call by that thread returns the same
    session and changes nothing, whatever the pool could create then. *)
Theorem get_thread_session_memoizes
    (create create' : state → outcome sid * state) (t : tid) (s : sid) (st st1 : state) :
  get_thread_session create t st = (Done s, st1) →
  SESSION_CONTAINER st1 !! t = Some s
  ∧ get_thread_session create' t st1 = (Done s, st1).
Proof.
  unfold get_thread_session at 1.
  destruct (SESSION_CONTAINER st !! t) as [s0|] eqn:E.
  - intros [= <- <-]. split; [exact E|].
    unfold get_thread_session. rewrite E. reflexivity.
  - destruct (get_session_instance_call create st) as [[s0|o m] st0]; [|discriminate].
    intros [= <- <-].
    assert (Hl : SESSION_CONTAINER
                   (with_container (<[t := s0]> (SESSION_CONTAINER st0)) st0) !! t
                 = Some s0) by apply lookup_insert_eq.
    split; [exact Hl|]. unfold get_thread_session. rewrite Hl. reflexivity.
Qed.

Lemma get_thread_session_memoizes_witness :
  ∃ st1, get_thread_session always_creates 1%nat (init 2) = (Done 0%nat, st1)
         ∧ get_thread_session (create_by ssh_down) 1%nat st1 = (Done 0%nat, st1).
Proof.
  destruct (get_thread_session always_creates 1%nat (init 2)) as [[s|o m] st1] eqn:E;
    [|vm_compute in E; discriminate].
  assert (Hs : s = 0%nat) by (vm_compute in E; congruence). subst s.
  exists st1. split; [reflexivity|].
  exact (proj2 (get_thread_session_memoizes always_creates (create_by ssh_down)
                  1%nat 0%nat (init 2) st1 E)).
Defined.

Lemma destroy_frame (t : tid) (s : sid) (st : state) :
  _session_pool (destroy_thread_session t s st) = _session_pool st
  ∧ _existing_sessions (destroy_thread_session t s st) = _existing_sessions st
  ∧ _max_connections (destroy_thread_session t s st) = _max_connections st
  ∧ next_sid (destroy_thread_session t s st) = next_sid st
  ∧ SESSION_CONTAINER (destroy_thread_session t s st) !! t = None.
Proof.
  unfold destroy_thread_session. destruct (decide _) as [Hin|Hout]; simpl.
  - repeat split. apply lookup_delete_eq.
  - repeat split. destruct (SESSION_CONTAINER st !! t) eqn:E; [|reflexivity].
    exfalso. apply Hout. eauto.
Qed.

(** X8: a destroyed session still counts.  With every session handed
    out and the counter at the capacity, a thread that destroys its
    session gets no other one: its next [get_thread_session] fails and
    creates nothing.  After one [decrement_sessions_count] the same call
    creates a new session and pins it to the thread, and the counter is
    back at the capacity. *)
Theorem destroyed_session_still_counts
    (create : state → outcome sid * state) (t : tid) (s : sid) (st : state) :
  _session_pool st = [] →
  _existing_sessions st = _max_connections st →
  0 < _max_connections st →
  let st1 := destroy_thread_session t s st in
  get_thread_session create t st1
  = (Failed "ConnectionManager" "Failed to get available session from pull.", st1)
  ∧ ∃ st2, get_thread_session always_creates t (decrement_sessions_count st1)
           = (Done (next_sid st), st2)
           ∧ SESSION_CONTAINER st2 !! t = Some (next_sid st)
           ∧ _existing_sessions st2 = _max_connections st
           ∧ _session_pool st2 = [].
Proof.
  intros Hpool Hcount Hmax st1. subst st1.
  destruct (destroy_frame t s st) as (Hp & Hc & Hm & Hn & Hcont).
  split.
  - unfold get_thread_session. rewrite Hcont.
    unfold get_session_instance_call, may_create, pool_empty.
    rewrite Hp, Hpool, Hc, Hm, Hcount, Z.ltb_irrefl. simpl.
    unfold _get_session_from_pool. rewrite Hp, Hpool. reflexivity.
  - set (st1 := destroy_thread_session t s st) in *.
    assert (Hdec : decrement_sessions_count st1
                   = with_count (_existing_sessions st1 - 1) st1).
    { unfold decrement_sessions_count.
      replace (0 <? _existing_sessions st1) with true; [reflexivity|].
      symmetry. apply Z.ltb_lt. lia. }
    rewrite Hdec. unfold get_thread_session. simpl. rewrite Hcont.
    unfold get_session_instance_call, may_create, pool_empty. simpl.
    rewrite Hp, Hpool, Hm.
    replace (_existing_sessions st1 - 1 <? _max_connections st) with true
      by (symmetry; apply Z.ltb_lt; lia).
    simpl. unfold return_session_to_pool, pool_full. simpl.
    rewrite Hp, Hpool, Hm. simpl.
    replace (_max_connections st <=? Z.of_nat 0) with false
      by (symmetry; apply Z.leb_gt; simpl; lia).
    rewrite andb_false_r. simpl. rewrite Hn. simpl.
    eexists. split; [reflexivity|]. simpl.
    split; [apply lookup_insert_eq|]. split; [lia | reflexivity].
Qed.

Lemma destroyed_session_still_counts_witness :
  ∃ st, get_thread_session always_creates 1%nat (init 1) = (Done 0%nat, st)
        ∧ _session_pool st = []
        ∧ _existing_sessions st = _max_connections st
        ∧ 0 < _max_connections st
        ∧ get_thread_session always_creates 1%nat (destroy_thread_session 1%nat 0%nat st)
          = (Failed "ConnectionManager" "Failed to get available session from pull.",
             destroy_thread_session 1%nat 0%nat st).
Proof.
  destruct (get_thread_session always_creates 1%nat (init 1)) as [[s|o m] st] eqn:E;
    [|vm_compute in E; discriminate].
  assert (Hst : s = 0%nat ∧ _session_pool st = []
                ∧ _existing_sessions st = _max_connections st
                ∧ 0 < _max_connections st).
  { vm_compute in E. injection E as <- <-. vm_compute. repeat split. }
  destruct Hst as (-> & Hp & Hc & Hm).
  exists st. split; [reflexivity|]. split; [exact Hp|]. split; [exact Hc|].
  split; [exact Hm|].
  exact (proj1 (destroyed_session_still_counts always_creates 1%nat 0%nat st Hp Hc Hm)).
Defined.

(** X9: mutual exclusion.  In every state a pool reaches, at most one
    thread is inside the with-block of [get_session_instance], and it is
    the holder of the lock. *)
Theorem one_thread_in_with_block
    (max : Z) (ls : list label) (st : state) (t1 t2 : tid) :
  0 <= max →
  run ls (init max) = Some st →
  in_with_block (pc_of t1 st) = true →
  in_with_block (pc_of t2 st) = true →
  t1 = t2 ∧ CREATE_SESSION_LOCK st = Some t1.
Proof.
  intros Hmax Hrun H1 H2.
  assert (Hinv : pool_inv max st).
  { apply (pool_inv_run max ls (init max)); [apply pool_inv_init | exact Hrun]. }
  destruct Hinv as (_ & _ & Hpc).
  assert (Hl : ∀ t, in_with_block (pc_of t st) = true → CREATE_SESSION_LOCK st = Some t).
  { intros t Ht. specialize (Hpc t). unfold pc_inv in Hpc.
    destruct (pc_of t st); try discriminate; try exact Hpc; exact (proj1 Hpc). }
  pose proof (Hl t1 H1) as L1. pose proof (Hl t2 H2) as L2.
  split; [congruence | exact L1].
Qed.

Lemma one_thread_in_with_block_witness :
  0 <= 2
  ∧ ∃ st, run [LAcquire 1%nat; LCheck 1%nat; LCreate 1%nat true] (init 2) = Some st
          ∧ in_with_block (pc_of 1%nat st) = true
          ∧ CREATE_SESSION_LOCK st = Some 1%nat
          ∧ step (LAcquire 2%nat) st = None.
Proof.
  assert (H0 : 0 <= 2) by lia. split; [exact H0|].
  destruct (run [LAcquire 1%nat; LCheck 1%nat; LCreate 1%nat true] (init 2))
    as [st|] eqn:E; [|vm_compute in E; discriminate].
  assert (H1 : in_with_block (pc_of 1%nat st) = true
               ∧ step (LAcquire 2%nat) st = None).
  { vm_compute in E. injection E as <-. vm_compute. split; reflexivity. }
  destruct H1 as [H1 H2].
  exists st. split; [reflexivity|]. split; [exact H1|]. split; [|exact H2].
  exact (proj2 (one_thread_in_with_block 2 _ st 1%nat 1%nat H0 E H1 H1)).
Defined.

End PoolUseFacts.

(** ** The connection pool: how many sessions are built *)

Section PoolBuiltFacts.

Import ConnectionManager PoolCalls.

Local Open Scope Z_scope.

Lemma built_inv_neutral (u : tid) (p : pc) (st X : state) :
  is_created (pc_of u st) = false → is_created p = false →
  next_sid X = next_sid st → _existing_sessions X = _existing_sessions st →
  pcs X = pcs st →
  built_inv st → built_inv (with_pc u p X).
Proof.
  intros Hu Hp Hn He Hpcs [[Heq Hnone]|[Heq [t0 Ht0]]].
  - left. simpl. rewrite Hn, He. split; [exact Heq|].
    intros t. rewrite pc_of_with_pc. destruct (decide (u = t)); [exact Hp|].
    rewrite (pc_of_frame t st X Hpcs). apply Hnone.
  - right. simpl. rewrite Hn, He. split; [exact Heq|].
    exists t0. rewrite pc_of_with_pc. destruct (decide (u = t0)) as [->|Hne].
    + congruence.
    + rewrite (pc_of_frame t0 st X Hpcs). exact Ht0.
Qed.

Lemma built_inv_same_pcs (st X : state) :
  next_sid X = next_sid st → _existing_sessions X = _existing_sessions st →
  pcs X = pcs st →
  built_inv st → built_inv X.
Proof.
  intros Hn He Hpcs [[Heq Hnone]|[Heq [t0 Ht0]]].
  - left. rewrite Hn, He. split; [exact Heq|].
    intros t. rewrite (pc_of_frame t st X Hpcs). apply Hnone.
  - right. rewrite Hn, He. split; [exact Heq|].
    exists t0. rewrite (pc_of_frame t0 st X Hpcs). exact Ht0.
Qed.

Lemma created_holds_lock (max : Z) (t : tid) (st : state) :
  pool_inv max st → is_created (pc_of t st) = true → CREATE_SESSION_LOCK st = Some t.
Proof.
  intros (_ & _ & Hpc) Ht. specialize (Hpc t). unfold pc_inv in Hpc.
  destruct (pc_of t st); try discriminate. exact (proj1 Hpc).
Qed.

Lemma built_inv_step (max : Z) (l : label) (st st' : state) :
  pool_inv max st → built_inv st → step l st = Some st' → built_inv st'.
Proof.
  intros Hinv Hb Hstep.
  destruct l as [u|u|u ok|u|u|u|u|u s'|u s']; simpl in Hstep;
    destruct (pc_of u st) eqn:Epu; try discriminate.
  - destruct (CREATE_SESSION_LOCK st); [discriminate|]. injection Hstep as <-.
    apply (built_inv_neutral u Locked st); try reflexivity; [rewrite Epu; reflexivity|exact Hb].
  - injection Hstep as <-.
    apply (built_inv_neutral u _ st); try reflexivity;
      [rewrite Epu; reflexivity | destruct (may_create st); reflexivity | exact Hb].
  - assert (Hlock : CREATE_SESSION_LOCK st = Some u).
    { destruct Hinv as (_ & _ & Hpc). specialize (Hpc u). unfold pc_inv in Hpc.
      rewrite Epu in Hpc. exact (proj1 Hpc). }
    destruct ok; injection Hstep as <-.
    + destruct Hb as [[Heq Hnone]|[Heq [t0 Ht0]]].
      * right. simpl. split; [lia|]. exists u.
        rewrite pc_of_with_pc, decide_True by reflexivity. reflexivity.
      * exfalso. pose proof (created_holds_lock max t0 st Hinv Ht0) as L.
        assert (t0 = u) by congruence. subst t0. rewrite Epu in Ht0. discriminate.
    + apply (built_inv_neutral u Idle st); try reflexivity;
        [rewrite Epu; reflexivity | exact Hb].
  - assert (Hlock : CREATE_SESSION_LOCK st = Some u).
    { apply (created_holds_lock max u st Hinv). rewrite Epu. reflexivity. }
    injection Hstep as <-.
    destruct Hb as [[Heq Hnone]|[Heq [t0 Ht0]]].
    + specialize (Hnone u). rewrite Epu in Hnone. discriminate.
    + left. simpl. split; [lia|]. intros t.
      rewrite pc_of_with_pc. destruct (decide (u = t)) as [->|Hne]; [reflexivity|].
      change (pc_of t (increment_sessions_count st)) with (pc_of t st).
      destruct (is_created (pc_of t st)) eqn:Et; [|reflexivity].
      pose proof (created_holds_lock max t st Hinv Et) as L. congruence.
  - unfold return_session_to_pool in Hstep.
    destruct (pool_full st); injection Hstep as <-;
      apply (built_inv_neutral u _ st); try reflexivity;
      try (rewrite Epu; reflexivity); exact Hb.
  - injection Hstep as <-.
    apply (built_inv_neutral u Getting st); try reflexivity;
      [rewrite Epu; reflexivity | exact Hb].
  - unfold _get_session_from_pool in Hstep.
    destruct (_session_pool st); injection Hstep as <-;
      apply (built_inv_neutral u Idle st); try reflexivity;
      try (rewrite Epu; reflexivity); exact Hb.
  - injection Hstep as <-. unfold return_session_to_pool.
    destruct (pool_full st); simpl; [exact Hb|].
    apply (built_inv_same_pcs st); try reflexivity. exact Hb.
  - injection Hstep as <-. apply (built_inv_same_pcs st); try exact Hb;
      unfold destroy_thread_session; destruct (decide _); reflexivity.
Qed.

Lemma built_inv_run (max : Z) (ls : list label) (st st' : state) :
  pool_inv max st → built_inv st → run ls st = Some st' → built_inv st'.
Proof.
  revert st. induction ls as [|l ls IH]; intros st Hinv Hb Hrun; simpl in Hrun.
  - injection Hrun as <-. exact Hb.
  - destruct (step l st) as [st1|] eqn:E; [|discriminate].
    apply (IH st1); [|exact (built_inv_step max l st st1 Hinv Hb E)|exact Hrun].
    exact (pool_inv_step max l st st1 Hinv E).
Qed.

(** X10: a pool of capacity [max] never holds more than [max] sessions
    that line 163 returned, that is, sessions that were constructed and
    whose [connect] returned: in every state the pool reaches, under
    any schedule of its callers, the number of these sessions is the
    counter, or the counter plus the one session line 163 has returned
    and line 164 is about to count, and it is at most [max], or zero
    when [max] is negative.  The objects [create_session()] constructs
    and [_new_session] drops because their [connect] raised are not
    among them: the pool keeps no count of those. *)
Theorem at_most_max_sessions_connected (max : Z) (ls : list label) (st : state) :
  run ls (init max) = Some st →
  Z.of_nat (next_sid st) <= Z.max 0 max
  ∧ _existing_sessions st <= Z.of_nat (next_sid st) <= _existing_sessions st + 1.
Proof.
  intros Hrun.
  assert (Hinv : pool_inv max st).
  { apply (pool_inv_run max ls (init max)); [apply pool_inv_init | exact Hrun]. }
  assert (Hb : built_inv st).
  { apply (built_inv_run max ls (init max)); [apply pool_inv_init| |exact Hrun].
    left. split; [reflexivity|]. intros t. unfold pc_of. simpl.
    rewrite lookup_empty. reflexivity. }
  destruct Hb as [[Heq Hnone]|[Heq [t0 Ht0]]].
  - destruct Hinv as (_ & Hle & _). lia.
  - destruct Hinv as (Hm & _ & Hpc). specialize (Hpc t0). unfold pc_inv in Hpc.
    destruct (pc_of t0 st); try discriminate. lia.
Qed.

Lemma at_most_max_sessions_connected_witness :
  ∃ st, run three_callers (init 2) = Some st
        ∧ Z.of_nat (next_sid st) <= Z.max 0 2
        ∧ next_sid st = 2%nat.
Proof.
  destruct (run three_callers (init 2)) as [st|] eqn:E;
    [|vm_compute in E; discriminate].
  exists st. split; [reflexivity|]. split.
  - exact (proj1 (at_most_max_sessions_connected 2 three_callers st E)).
  - vm_compute in E. injection E as <-. reflexivity.
Defined.

End PoolBuiltFacts.

(** ** The expect engine: the readers *)

Section ReaderFacts.

Import ExpectSession Recovery.

Context `{Lib} {W : Type} `{Transport W}.

Local Open Scope Z_scope.

Lemma clear_buffer_loop_absorbs (fuel : nat) (timeout : Z) (out : string) (st : St W) :
  match fst (_clear_buffer_loop fuel timeout out st) with
  | Raise e => transient e = false
  | _ => True
  end.
Proof.
  revert out st. induction fuel as [|fuel IH]; intros out st; simpl; [exact I|].
  destruct (receive timeout st) as [[data|e|] st1]; simpl.
  - destruct (truthy data); [apply IH | exact I].
  - destruct e; simpl; auto.
  - exact I.
Qed.

(** X11: [_clear_buffer] absorbs the two transient read failures: it
    never raises [SessionReadTimeout] or [SessionReadEmptyData],
    whatever the transport does. *)
Theorem clear_buffer_absorbs_transient_failures (fuel : nat) (timeout : Z) (st : St W) :
  match fst (_clear_buffer fuel timeout st) with
  | Raise e => transient e = false
  | _ => True
  end.
Proof. apply clear_buffer_loop_absorbs. Qed.

Lemma receive_all_loop_outcomes (fuel : nat) (timeout start_time : Z) (buf : string)
    (st : St W) :
  match fst (_receive_all_loop fuel timeout start_time buf st) with
  | Ok chunk => truthy chunk = true
  | Raise e => transient e = false
  | OutOfFuel => True
  end.
Proof.
  revert buf st. induction fuel as [|fuel IH]; intros buf st; simpl; [exact I|].
  destruct (receive 100 st) as [[data|e|] st1]; simpl.
  - apply IH.
  - destruct e; simpl; auto;
      (destruct (truthy buf) eqn:E; simpl; [exact E|]);
      (destruct (_ <? _); simpl; [reflexivity | apply IH]).
  - exact I.
Qed.

(** X12: [_receive_all] has three outcomes only: a chunk that is not
    empty, an exception that is not one of the two transient read
    failures, or no return at all.  It never returns an empty chunk, so
    the branch of [hardware_expect] that counts empty reads (lines
    247-250) is never taken. *)
Theorem receive_all_outcomes (fuel : nat) (timeout : option Z) (st : St W) :
  match fst (_receive_all fuel timeout st) with
  | Ok chunk => truthy chunk = true
  | Raise e => transient e = false
  | OutOfFuel => True
  end.
Proof. apply receive_all_loop_outcomes. Qed.

Lemma receive_hollow (t : Z) (st : St W) :
  hollow → ∃ st1, receive t st = (Ok "", st1).
Proof.
  intros Hh. unfold receive. specialize (Hh t (world st)).
  destruct (_receive t (world st)) as [r w]. simpl in Hh. subst r.
  eexists. reflexivity.
Qed.

Lemma receive_all_loop_hollow (fuel : nat) (timeout start_time : Z) (st : St W) :
  hollow → fst (_receive_all_loop fuel timeout start_time "" st) = OutOfFuel.
Proof.
  intros Hh. revert st. induction fuel as [|fuel IH]; intros st; simpl; [reflexivity|].
  destruct (receive_hollow 100 st Hh) as [st1 ->]. apply IH.
Qed.

(** X13: on a transport whose reads return the empty string without
    raising, [_receive_all] never returns, whatever its timeout: the
    clock is read only when a read raises.  [_clear_buffer] on the same
    transport returns the empty string after one read. *)
Theorem receive_all_spins_on_empty_reads
    (fuel : nat) (timeout : option Z) (t : Z) (st : St W) :
  hollow →
  fst (_receive_all fuel timeout st) = OutOfFuel
  ∧ fst (_clear_buffer (S fuel) t st) = Ok "".
Proof.
  intros Hh. split.
  - apply receive_all_loop_hollow, Hh.
  - unfold _clear_buffer. simpl.
    destruct (receive_hollow t st Hh) as [st1 ->]. reflexivity.
Qed.

(** The cache of command patterns. *)

(** X14: the cache of echo patterns (lines 153-162).  A command that is
    in the cache gets its stored pattern and nothing changes: [re] is
    not called.  For a command that is not, line 160 runs [re.sub] with
    the template [\s+]: where [re.sub] accepts that template (CPython up
    to 3.6) the pattern is returned and stored under the command, a
    second call returns it from the cache and changes nothing, and the
    entries of the other commands are as they were; where [re.sub]
    rejects it (CPython 3.7 and later) the call raises [re.error] and
    the cache, like the rest of the state, is as it was. *)
Theorem command_pattern_is_cached (command : string) (st : St W) :
  (∀ p, _command_patterns (self st) !! command = Some p →
        _generate_command_pattern command st = (Ok p, st))
  ∧ (∀ escaped,
       _command_patterns (self st) !! command = None →
       re_sub "\\\s+" "\s+" (re_escape command) = Some escaped →
       let p := "\s*" +:+ escaped +:+ "\s*" in
       let st1 := with_self (set_command_pattern command p (self st)) st in
       _generate_command_pattern command st = (Ok p, st1)
       ∧ _command_patterns (self st1) !! command = Some p
       ∧ _generate_command_pattern command st1 = (Ok p, st1)
       ∧ ∀ other, other ≠ command →
           _command_patterns (self st1) !! other = _command_patterns (self st) !! other)
  ∧ (_command_patterns (self st) !! command = None →
     re_sub "\\\s+" "\s+" (re_escape command) = None →
     _generate_command_pattern command st = (Raise ReError, st)).
Proof.
  unfold _generate_command_pattern. split; [|split].
  - intros p ->. reflexivity.
  - intros escaped E Hsub. rewrite E, Hsub. cbn zeta.
    cbn [self with_self set_command_pattern _command_patterns].
    rewrite lookup_insert_eq. split; [reflexivity|]. split; [reflexivity|].
    split; [reflexivity|].
    intros other Hne. apply lookup_insert_ne. congruence.
  - intros E Hsub. rewrite E, Hsub. reflexivity.
Qed.

End ReaderFacts.

(** ** The expect engine: how a call of [hardware_expect] ends *)

Section CallFacts.

Import ExpectSession Recovery.

Context `{Lib} {W : Type} `{Transport W}.

Local Open Scope Z_scope.

Lemma prologue_ok (fuel : nat) (command : option string) (expected_string : string)
    (st st1 : St W) (u : unit) :
  prologue fuel command expected_string st = (Ok u, st1) →
  truthy expected_string = true.
Proof.
  unfold prologue, raise.
  destruct (match command with Some _ => _ | None => _ end) as [[u'|e|] st2];
    try discriminate.
  destruct (truthy expected_string); [reflexivity | discriminate].
Qed.

(** X15: what a returned result guarantees.  When [hardware_expect]
    returns a string, the expected pattern is not empty, the string
    begins with the archived segments, one of these segments matches the
    expected pattern, and no pattern of the error map matches their
    concatenation. *)
Theorem returned_result_matched_prompt_and_no_error
    (fuel : nat) (command : option string) (expected_string : string)
    (action_map : option (ActionMap W)) (error_map : option ErrorMap)
    (timeout retries : option Z) (check : bool) (empty_loop_timeout : option Z)
    (remove : bool) (st st' : St W) (r : string) :
  hardware_expect fuel command expected_string action_map error_map timeout retries
                  check empty_loop_timeout remove st = (Ok r, st') →
  truthy expected_string = true
  ∧ ∃ segments tail,
      r = String.concat "" segments +:+ tail
      ∧ (∃ seg, In seg segments ∧ match_prompt expected_string seg = true)
      ∧ first_error (error_patterns (default (mkErrorMap []) error_map))
                    (String.concat "" segments) = None.
Proof.
  unfold hardware_expect.
  destruct (prologue fuel command expected_string st) as [[u|e|] st1] eqn:Hp;
    try discriminate.
  destruct (expect_loop _ _ _ _ _ _ _ _ _ _ _) as [[v|e|] st2] eqn:Hl; try discriminate.
  unfold epilogue, raise, em_process.
  destruct (is_correct_exit v) eqn:Hexit; simpl; [|discriminate].
  destruct (first_error _ _) as [m|] eqn:Herr; [discriminate|].
  destruct (_clear_buffer _ _ _) as [[tail|e|] st3]; try discriminate.
  intros [= <- _]. split; [exact (prologue_ok _ _ _ _ _ _ Hp)|].
  exists (output_list v), tail.
  split; [reflexivity|]. split; [|exact Herr].
  eapply expect_loop_exit; [|exact Hl|exact Hexit]. simpl. discriminate.
Qed.

Lemma iteration_break_flag (fuel : nat) (command : option string)
    (expected_string : string) (action_map : ActionMap W) (timeout : option Z)
    (check : bool) (empty_loop_timeout : Z) (v v1 : loop_vars) (b : bool)
    (st st1 : St W) :
  is_correct_exit v = false →
  iteration fuel command expected_string action_map timeout check empty_loop_timeout v st
  = (Ok (v1, b), st1) →
  is_correct_exit v1 = b.
Proof.
  intros Hv. unfold iteration.
  destruct (_receive_all _ _ _) as [[chunk|e|] st0]; try discriminate.
  destruct (truthy chunk).
  - destruct (strip_echo _ _ _ _) as [[[buf remove']|e|] st2]; try discriminate.
    unfold match_and_act.
    destruct (am_process _ _ _ _ _ _) as [[[m|e|] [s1 w1]] d1]; try discriminate.
    intros [= <- <- _]. reflexivity.
  - intros [= <- <- _]. exact Hv.
Qed.

Lemma expect_loop_ends_by_match (fuel k : nat) (command : option string)
    (expected_string : string) (action_map : ActionMap W) (timeout : option Z)
    (retries : Z) (check : bool) (empty_loop_timeout : Z) (v v' : loop_vars)
    (st st' : St W) :
  0 <= retries → retries_count v = 0 → is_correct_exit v = false →
  expect_loop fuel k command expected_string action_map timeout retries check
              empty_loop_timeout v st = (Ok v', st') →
  is_correct_exit v' = true.
Proof.
  intros Hr. revert v st.
  assert (Hg : loop_guard retries 0 = true).
  { unfold loop_guard. destruct (retries =? 0) eqn:E; [reflexivity|].
    apply Z.eqb_neq in E. apply Z.ltb_lt. lia. }
  induction k as [|k IH]; intros v st Hc Hv; simpl; rewrite Hc, Hg; [discriminate|].
  destruct (iteration _ _ _ _ _ _ _ _ _) as [[[v1 b]|e|] st1] eqn:Hit; try discriminate.
  pose proof (iteration_break_flag _ _ _ _ _ _ _ _ _ _ _ _ Hv Hit) as Hb.
  pose proof (iteration_resets_retries_count _ _ _ _ _ _ _ _ _ _ _ _ Hit) as Hc1.
  destruct b; [intros [= <- _]; exact Hb | apply IH; assumption].
Qed.

(** X16: under a retry bound that is not negative the loop of
    [hardware_expect] never gives up: if it ends without an exception,
    it has ended by a match of the expected pattern.  The exit through
    the loop condition, which leads to [SessionLoopLimitException], is
    not taken. *)
Theorem loop_never_gives_up_under_nonnegative_bound
    (fuel k : nat) (command : option string) (expected_string : string)
    (action_map : ActionMap W) (timeout : option Z) (retries : Z) (check : bool)
    (empty_loop_timeout : Z) (remove : bool) (s : session) (v : loop_vars)
    (st st' : St W) :
  0 <= retries →
  expect_loop fuel k command expected_string action_map timeout retries check
              empty_loop_timeout (initial_vars remove s) st = (Ok v, st') →
  is_correct_exit v = true.
Proof.
  intros Hr Hl.
  eapply expect_loop_ends_by_match; [exact Hr| | |exact Hl]; reflexivity.
Qed.

(** X17: a negative retry bound fails the call before any read: once
    the drain and send are done, [hardware_expect] raises
    [SessionLoopLimitException] with a count of zero, from the state the
    send has left. *)
Theorem negative_bound_fails_before_reading
    (fuel : nat) (command : option string) (expected_string : string)
    (action_map : option (ActionMap W)) (error_map : option ErrorMap)
    (timeout retries : option Z) (check : bool) (empty_loop_timeout : option Z)
    (remove : bool) (st st1 : St W) :
  effective_retries retries (self st) < 0 →
  prologue fuel command expected_string st = (Ok tt, st1) →
  hardware_expect fuel command expected_string action_map error_map timeout retries
                  check empty_loop_timeout remove st
  = (Raise (SessionLoopLimitException 0), st1).
Proof.
  intros Hneg Hp. unfold hardware_expect. rewrite Hp.
  assert (Hg : loop_guard (effective_retries retries (self st)) 0 = false).
  { unfold loop_guard. apply orb_false_iff. split.
    - apply Z.eqb_neq. lia.
    - apply Z.ltb_ge. lia. }
  destruct fuel; cbn [expect_loop initial_vars retries_count]; rewrite Hg; reflexivity.
Qed.

Lemma expect_loop_count_zero (fuel k : nat) (command : option string)
    (expected_string : string) (action_map : ActionMap W) (timeout : option Z)
    (retries : Z) (check : bool) (empty_loop_timeout : Z) (v v' : loop_vars)
    (st st' : St W) :
  retries_count v = 0 →
  expect_loop fuel k command expected_string action_map timeout retries check
              empty_loop_timeout v st = (Ok v', st') →
  retries_count v' = 0.
Proof.
  revert v st. induction k as [|k IH]; intros v st Hc; simpl.
  - destruct (loop_guard _ _); [discriminate|]. intros [= <- _]. exact Hc.
  - destruct (loop_guard _ _); [|intros [= <- _]; exact Hc].
    destruct (iteration _ _ _ _ _ _ _ _ _) as [[[v1 b]|e|] st1] eqn:Hit; try discriminate.
    pose proof (iteration_resets_retries_count _ _ _ _ _ _ _ _ _ _ _ _ Hit) as Hc1.
    destruct b; [intros [= <- _]; exact Hc1 | apply IH; exact Hc1].
Qed.

(** *** [hardware_expect]: the retry bound *)

(** C4, as the code has it.  Once the drain and the send are done, the
    bound in force is the argument [retries], or the session's
    [_max_loop_retries] when the argument is 0 or None (line 205); and
    it is the sign of this bound, not its size, that decides.  Under a
    negative bound the call raises [SessionLoopLimitException] at once,
    before any read.  Under a bound that is not negative, zero or
    above, the count of empty reads stays at zero and the loop does not
    end through its condition: when it ends without an exception it has
    matched the expected pattern, and the call goes on to the error map
    and the closing drain; line 271 is not reached. *)
Theorem retry_bound_defaults_to_session
    (fuel : nat) (command : option string) (expected_string : string)
    (action_map : option (ActionMap W)) (error_map : option ErrorMap)
    (timeout retries : option Z) (check : bool) (empty_loop_timeout : option Z)
    (remove : bool) (st st1 : St W) :
  prologue fuel command expected_string st = (Ok tt, st1) →
  let bound := effective_retries retries (self st) in
  (retries = None ∨ retries = Some 0 → bound = _max_loop_retries (self st))
  ∧ (∀ n, retries = Some n → n ≠ 0 → bound = n)
  ∧ (bound < 0 →
     hardware_expect fuel command expected_string action_map error_map timeout retries
                     check empty_loop_timeout remove st
     = (Raise (SessionLoopLimitException 0), st1))
  ∧ (0 <= bound →
     ∀ v st2,
       expect_loop fuel fuel command expected_string
                   (default (ActionMap_of_rules []) action_map) timeout bound check
                   (py_or empty_loop_timeout (_empty_loop_timeout (self st)))
                   (initial_vars remove (self st1)) st1 = (Ok v, st2) →
       is_correct_exit v = true
       ∧ retries_count v = 0
       ∧ hardware_expect fuel command expected_string action_map error_map timeout
                         retries check empty_loop_timeout remove st
         = epilogue fuel (default (mkErrorMap []) error_map) v st2).
Proof.
  intros Hp bound. subst bound. split; [|split; [|split]].
  - intros [->| ->]; reflexivity.
  - intros n -> Hn. unfold effective_retries, py_or.
    destruct (n =? 0) eqn:E; [|reflexivity]. apply Z.eqb_eq in E. contradiction.
  - intros Hneg. unfold hardware_expect. rewrite Hp.
    assert (Hg : loop_guard (effective_retries retries (self st)) 0 = false).
    { unfold loop_guard. apply orb_false_iff. split.
      - apply Z.eqb_neq. lia.
      - apply Z.ltb_ge. lia. }
    destruct fuel; cbn [expect_loop initial_vars retries_count]; rewrite Hg; reflexivity.
  - intros Hpos v st2 Hl. split; [|split].
    + eapply expect_loop_ends_by_match; [exact Hpos| | |exact Hl]; reflexivity.
    + eapply expect_loop_count_zero; [|exact Hl]. reflexivity.
    + unfold hardware_expect. rewrite Hp, Hl. reflexivity.
Qed.

Lemma strip_echo_off (command : option string) (remove : bool) (buf : string)
    (st : St W) :
  command = None ∨ command = Some "" ∨ remove = false →
  strip_echo command remove buf st = (Ok (buf, remove), st).
Proof.
  intros [->|[->| ->]]; unfold strip_echo; try reflexivity.
  destruct command as [c|]; [|reflexivity]. rewrite andb_false_r. reflexivity.
Qed.

Lemma expect_loop_no_strip (fuel k : nat) (command : option string)
    (expected_string : string) (action_map : ActionMap W) (timeout : option Z)
    (retries : Z) (check : bool) (empty_loop_timeout : Z) (v : loop_vars) (st : St W) :
  command = None ∨ command = Some "" ∨ remove_command_from_output v = false →
  echo_strips (snd (expect_loop fuel k command expected_string action_map timeout
                                retries check empty_loop_timeout v st))
  = echo_strips st.
Proof.
  revert v st. induction k as [|k IH]; intros v st Hoff; simpl.
  - destruct (loop_guard _ _); reflexivity.
  - destruct (loop_guard _ _); [|reflexivity].
    unfold iteration, _receive_all.
    destruct (receive_all_loop_frame fuel (py_or timeout (_timeout (self st)))
                (time_time (world st)) "" st) as [Hs _].
    destruct (_receive_all_loop _ _ _ _ _) as [[chunk|e|] st0]; simpl in Hs;
      try exact Hs.
    destruct (truthy chunk).
    + rewrite (strip_echo_off _ _ _ _ Hoff).
      destruct (match_and_act_frame expected_string action_map check v
                  (output_str v +:+ normalize_buffer chunk)
                  (remove_command_from_output v) st0) as [Hm Hv].
      destruct (match_and_act _ _ _ _ _ _ _) as [[[v1 b]|e|] st1]; simpl in Hm;
        cbn [fst snd]; try congruence.
      destruct b; cbn [fst snd]; [congruence|].
      rewrite IH; [congruence|].
      rewrite (Hv v1 false eq_refl). exact Hoff.
    + rewrite IH; [simpl; exact Hs | exact Hoff].
Qed.

(** X18: a call with no command, with the empty command (as
    [probe_for_prompt] makes it) or with [remove_command_from_output]
    off never deletes an echo: line 244 is not run. *)
Theorem no_echo_removed_without_command
    (fuel : nat) (command : option string) (expected_string : string)
    (action_map : option (ActionMap W)) (error_map : option ErrorMap)
    (timeout retries : option Z) (check : bool) (empty_loop_timeout : option Z)
    (remove : bool) (st : St W) :
  command = None ∨ command = Some "" ∨ remove = false →
  echo_strips (snd (hardware_expect fuel command expected_string action_map error_map
                      timeout retries check empty_loop_timeout remove st))
  = echo_strips st.
Proof.
  intros Hoff. unfold hardware_expect.
  destruct (prologue_frame fuel command expected_string st) as [Hs _].
  destruct (prologue fuel command expected_string st) as [[u|e|] st1];
    simpl in Hs; try exact Hs.
  match goal with |- context [expect_loop ?f ?k ?c ?e ?a ?t ?r ?ch ?el ?v ?s] =>
    pose proof (expect_loop_no_strip f k c e a t r ch el v s Hoff) as Hl
  end.
  destruct (expect_loop _ _ _ _ _ _ _ _ _ _ _) as [[v|e|] st2]; simpl in Hl;
    [rewrite epilogue_frame|simpl|simpl]; congruence.
Qed.

Lemma strip_echo_outcomes (command : option string) (remove : bool) (buf : string)
    (st : St W) :
  match fst (strip_echo command remove buf st) with
  | Ok _ => True
  | Raise e => e = ReError
  | OutOfFuel => False
  end.
Proof.
  unfold strip_echo. destruct command as [c|]; [|exact I].
  destruct (truthy c && remove); [|exact I].
  unfold _generate_command_pattern.
  destruct (_command_patterns (self st) !! c).
  - destruct (re_search _ _ _); exact I.
  - destruct (re_sub _ _ _); [|reflexivity].
    destruct (re_search _ _ _); exact I.
Qed.

Lemma expect_loop_clean (fuel k : nat) (command : option string)
    (expected_string : string) (action_map : ActionMap W) (timeout : option Z)
    (retries : Z) (check : bool) (empty_loop_timeout : Z) (v : loop_vars) (st : St W) :
  acts_cleanly action_map →
  match fst (expect_loop fuel k command expected_string action_map timeout retries
                         check empty_loop_timeout v st) with
  | Raise e => transient e = false
  | _ => True
  end.
Proof.
  intros Hact. revert v st. induction k as [|k IH]; intros v st; simpl.
  - destruct (loop_guard _ _); exact I.
  - destruct (loop_guard _ _); [|exact I].
    unfold iteration.
    pose proof (receive_all_loop_outcomes fuel (py_or timeout (_timeout (self st)))
                  (time_time (world st)) "" st) as Hr.
    fold (_receive_all fuel timeout st) in Hr.
    destruct (_receive_all fuel timeout st) as [[chunk|e|] st0]; simpl in Hr;
      [|exact Hr|exact I].
    rewrite Hr.
    pose proof (strip_echo_outcomes command (remove_command_from_output v)
                  (output_str v +:+ normalize_buffer chunk) st0) as Hse.
    destruct (strip_echo _ _ _ _) as [[[buf remove']|e|] st2]; cbn [fst] in Hse;
      [|subst e; reflexivity|destruct Hse].
    unfold match_and_act.
    pose proof (Hact buf check (action_loop_detector v) (self st2) (world st2)) as Ha.
    destruct (am_process _ _ _ _ _ _) as [[[m|e|] [s1 w1]] d1]; simpl in *.
    + destruct (if match_prompt expected_string buf then true else is_correct_exit v);
        [exact I | apply IH].
    + apply Ha. reflexivity.
    + exact I.
Qed.

(** X19: the two transient read failures never leave [hardware_expect]:
    when neither the transport's send nor the action map raises one,
    no call raises [SessionReadTimeout] or [SessionReadEmptyData],
    whatever the reads do. *)
Theorem transient_failures_never_propagate
    (fuel : nat) (command : option string) (expected_string : string)
    (action_map : option (ActionMap W)) (error_map : option ErrorMap)
    (timeout retries : option Z) (check : bool) (empty_loop_timeout : option Z)
    (remove : bool) (st : St W) :
  sends_cleanly →
  acts_cleanly (default (ActionMap_of_rules []) action_map) →
  match fst (hardware_expect fuel command expected_string action_map error_map timeout
                             retries check empty_loop_timeout remove st) with
  | Raise e => transient e = false
  | _ => True
  end.
Proof.
  intros Hsend Hact. unfold hardware_expect.
  assert (Hpro : match fst (prologue fuel command expected_string st) with
                 | Raise e => transient e = false
                 | _ => True
                 end).
  { unfold prologue, raise. destruct command as [c|].
    - pose proof (clear_buffer_loop_absorbs fuel (_clear_buffer_timeout (self st)) "" st)
        as Hc.
      fold (_clear_buffer fuel (_clear_buffer_timeout (self st)) st) in Hc.
      destruct (_clear_buffer _ _ _) as [[x|e|] st1]; simpl in Hc; simpl;
        [|exact Hc|exact I].
      unfold send_line.
      pose proof (Hsend (c +:+ _new_line (self st1)) (world st1)) as Hs.
      destruct (_send _ (world st1)) as [[u|e|] w]; simpl in *;
        [destruct (truthy expected_string); simpl; auto | apply Hs; reflexivity | exact I].
    - destruct (truthy expected_string); simpl; auto. }
  destruct (prologue fuel command expected_string st) as [[u|e|] st1]; simpl in Hpro;
    [|exact Hpro|exact I].
  match goal with |- context [expect_loop ?f ?k ?c ?e ?a ?t ?r ?ch ?el ?v ?s] =>
    pose proof (expect_loop_clean f k c e a t r ch el v s Hact) as Hl
  end.
  destruct (expect_loop _ _ _ _ _ _ _ _ _ _ _) as [[v|e|] st2]; simpl in Hl;
    [|exact Hl|exact I].
  unfold epilogue, raise, em_process.
  destruct (negb (is_correct_exit v)); simpl; [reflexivity|].
  destruct (first_error _ _); simpl; [reflexivity|].
  pose proof (clear_buffer_loop_absorbs fuel (_clear_buffer_timeout (self st2)) "" st2)
    as Hc.
  fold (_clear_buffer fuel (_clear_buffer_timeout (self st2)) st2) in Hc.
  destruct (_clear_buffer _ _ _) as [[x|e|] st3]; simpl in *; auto.
Qed.

End CallFacts.

(** ** The expect engine: [reconnect] *)

Section ReconnectFacts.

Import ExpectSession Recovery.

Context {W : Type} `{Transport W}.

Local Open Scope Z_scope.

Lemma connect_ok_active (prompt : string) (st st1 : St W) (u : unit) :
  connect prompt st = (Ok u, st1) → active st1 = true.
Proof.
  unfold connect.
  destruct (_initialize_session prompt (self st) (world st)) as [[u1|e|] [s1 w1]];
    try discriminate.
  destruct (_connect_actions prompt s1 w1) as [[u2|e|] [s2 w2]]; try discriminate.
  intros [= _ <-]. reflexivity.
Qed.

Lemma reconnect_loop_outcomes (fuel : nat) (prompt : string) (timeout call_time : Z)
    (st : St W) :
  match fst (reconnect_loop fuel prompt timeout call_time st) with
  | Ok _ => active (snd (reconnect_loop fuel prompt timeout call_time st)) = true
  | Raise e =>
      (e = ExpectedSessionException
             "Reconnect unsuccessful, timeout exceeded, see logs for more details"
       ∧ timeout <= time_time (world (snd (reconnect_loop fuel prompt timeout call_time st)))
                    - call_time)
      ∨ (is_exception e = false
         ∧ ∃ st0, time_time (world st0) - call_time < timeout
                  ∧ connect prompt (disconnected (self st0) (world st0) st0)
                    = (Raise e, snd (reconnect_loop fuel prompt timeout call_time st)))
  | OutOfFuel => True
  end.
Proof.
  revert st. induction fuel as [|fuel IH]; intros st; simpl.
  - destruct (_ <? _) eqn:E; simpl; [exact I|].
    apply Z.ltb_ge in E. left. split; [reflexivity | exact E].
  - destruct (_ <? _) eqn:E; simpl.
    + destruct (connect prompt _) as [[u|e|] st1] eqn:Hc; simpl.
      * exact (connect_ok_active _ _ _ _ Hc).
      * destruct (is_exception e) eqn:He; [apply IH|]. simpl.
        right. split; [exact He|]. exists st. split; [apply Z.ltb_lt, E | exact Hc].
      * exact I.
    + apply Z.ltb_ge in E. left. split; [reflexivity | exact E].
Qed.

(** X20: how [reconnect] ends (lines 280-299).  It swallows the
    exceptions of an attempt that are instances of [Exception], and only
    those.  It either returns, and the session is then active; or raises
    its own [ExpectedSessionException], and the timeout has then passed
    since the call; or ends with an exception that is no instance of
    [Exception] ([KeyboardInterrupt], [SystemExit]), which an attempt
    made before the timeout raised and line 296 did not catch.
    Conversely, such an exception of the first attempt reaches the
    caller at once, in the state [connect] left, and an instance of
    [Exception] never does: the loop goes on. *)
Theorem reconnect_returns_active_or_times_out
    (fuel : nat) (prompt : string) (timeout : option Z) (st : St W) :
  let limit := py_or timeout (_reconnect_timeout (self st)) in
  match fst (reconnect fuel prompt timeout st) with
  | Ok _ => active (snd (reconnect fuel prompt timeout st)) = true
  | Raise e =>
      (e = ExpectedSessionException
             "Reconnect unsuccessful, timeout exceeded, see logs for more details"
       ∧ limit <= time_time (world (snd (reconnect fuel prompt timeout st)))
                  - time_time (world st))
      ∨ (is_exception e = false
         ∧ ∃ st0, time_time (world st0) - time_time (world st) < limit
                  ∧ connect prompt (disconnected (self st0) (world st0) st0)
                    = (Raise e, snd (reconnect fuel prompt timeout st)))
  | OutOfFuel => True
  end
  ∧ (∀ e st1,
       0 < limit →
       connect prompt (disconnected (self st) (world st) st) = (Raise e, st1) →
       reconnect (S fuel) prompt timeout st
       = if is_exception e
         then reconnect_loop fuel prompt limit (time_time (world st)) st1
         else (Raise e, st1)).
Proof.
  cbn zeta. split.
  - apply reconnect_loop_outcomes.
  - intros e st1 Hpos Hc. unfold reconnect. cbn [reconnect_loop].
    rewrite Z.sub_diag.
    replace (0 <? py_or timeout (_reconnect_timeout (self st))) with true
      by (symmetry; apply Z.ltb_lt; exact Hpos).
    rewrite Hc. reflexivity.
Qed.

Lemma connect_refused (prompt : string) (st : St W) :
  refusing → attempts_take_time →
  ∃ e st1, connect prompt st = (Raise e, st1)
           ∧ is_exception e = true
           ∧ time_time (world st) + 1 <= time_time (world st1).
Proof.
  intros Href [Hd Hi]. unfold connect.
  specialize (Href prompt (self st) (world st)). destruct Href as [e [Hexc He]].
  specialize (Hi prompt (self st) (world st)).
  destruct (_initialize_session prompt (self st) (world st)) as [r [s1 w1]].
  simpl in He, Hi. subst r. exists e. eexists. split; [reflexivity|].
  split; [exact Hexc|]. unfold disconnected. specialize (Hd s1 w1).
  destruct (disconnect s1 w1) as [s2 w2]. simpl in *. lia.
Qed.

Lemma reconnect_loop_refused (fuel : nat) (prompt : string) (timeout call_time : Z)
    (st : St W) :
  refusing → attempts_take_time →
  (Z.to_nat (timeout - (time_time (world st) - call_time)) <= fuel)%nat →
  ∃ st', reconnect_loop fuel prompt timeout call_time st
         = (Raise (ExpectedSessionException
                     "Reconnect unsuccessful, timeout exceeded, see logs for more details"),
            st').
Proof.
  intros Href Htime. revert st.
  induction fuel as [|fuel IH]; intros st Hfuel; simpl.
  - destruct (_ <? _) eqn:E; [|eexists; reflexivity].
    apply Z.ltb_lt in E. lia.
  - destruct (_ <? _) eqn:E; [|eexists; reflexivity].
    apply Z.ltb_lt in E.
    destruct (connect_refused prompt (disconnected (self st) (world st) st) Href Htime)
      as (e & st1 & -> & -> & Ht).
    apply IH.
    assert (Hd : time_time (world st)
                 <= time_time (world (disconnected (self st) (world st) st))).
    { unfold disconnected. pose proof (proj1 Htime (self st) (world st)) as Hd.
      destruct (disconnect (self st) (world st)) as [s2 w2]. exact Hd. }
    lia.
Qed.

(** X21: against a device that refuses every connection, with hooks
    that take time, [reconnect] does not retry for ever: it raises its
    [ExpectedSessionException]. *)
Theorem reconnect_gives_up_on_refusing_device
    (fuel : nat) (prompt : string) (timeout : option Z) (st : St W) :
  refusing → attempts_take_time →
  (Z.to_nat (py_or timeout (_reconnect_timeout (self st))) <= fuel)%nat →
  ∃ st', reconnect fuel prompt timeout st
         = (Raise (ExpectedSessionException
                     "Reconnect unsuccessful, timeout exceeded, see logs for more details"),
            st').
Proof.
  intros Href Htime Hfuel. unfold reconnect.
  apply reconnect_loop_refused; [exact Href | exact Htime |].
  rewrite Z.sub_diag, Z.sub_0_r. exact Hfuel.
Qed.

End ReconnectFacts.

(** ** The expect engine on particular transports *)

Section TransportFacts.

Import ExpectSession Recovery MiniRe Scripted Flaky.

Local Open Scope Z_scope.

Lemma flaky_reconnect_loop (n fuel : nat) (prompt : string) (timeout call_time : Z)
    (s : session) (l : Flaky.line) (strips : nat) :
  Flaky.failures_left l = n →
  0 <= Flaky.cost l →
  Flaky.clock l + Z.of_nat n * Flaky.cost l - call_time < timeout →
  (n < fuel)%nat →
  reconnect_loop fuel prompt timeout call_time (mkSt s l strips)
  = (Ok tt,
     mkSt (set_active_session true s)
          (Flaky.mkLine (Flaky.clock l + Z.of_nat (S n) * Flaky.cost l) (Flaky.cost l) 0
                        (Flaky.attempts l + S n) (Flaky.closed l + 2 * n + 1))
          strips).
Proof.
  revert fuel l. induction n as [|n IH]; intros fuel l Hn Hcost Hguard Hfuel;
    (destruct fuel as [|fuel]; [lia|]); destruct l as [c k f a d]; simpl in *; subst f.
  - replace (c - call_time <? timeout) with true by (symmetry; apply Z.ltb_lt; lia).
    unfold connect, disconnected, set_active, with_self. simpl.
    match goal with
    | |- (_, mkSt _ (mkLine ?x1 _ _ ?y1 ?z1) _) = (_, mkSt _ (mkLine ?x2 _ _ ?y2 ?z2) _) =>
        replace x2 with x1 by lia; replace y2 with y1 by lia; replace z2 with z1 by lia
    end.
    reflexivity.
  - replace (c - call_time <? timeout) with true by (symmetry; apply Z.ltb_lt; nia).
    unfold connect, disconnected. cbn [_initialize_session disconnect transport fst snd
      self world echo_strips failures_left clock cost attempts closed is_exception].
    rewrite IH; cbn [failures_left clock cost attempts closed]; try reflexivity; try lia.
    match goal with
    | |- (_, mkSt _ (mkLine ?x1 _ _ ?y1 ?z1) _) = (_, mkSt _ (mkLine ?x2 _ _ ?y2 ?z2) _) =>
        replace x2 with x1 by lia; replace y2 with y1 by lia; replace z2 with z1 by lia
    end.
    reflexivity.
Qed.

(** X22: [reconnect] retries at once until an attempt succeeds.  On a
    line whose connection fails [n] times and then succeeds, each
    attempt taking [cost] milliseconds, with [n] attempts fitting in the
    timeout, it returns after [n + 1] attempts with the session active;
    the line has been disconnected at the start of every attempt and
    again after every failure. *)
Theorem reconnect_succeeds_after_failures
    (n fuel : nat) (cost : Z) (prompt : string) (timeout : option Z) :
  0 <= cost →
  Z.of_nat n * cost < py_or timeout RECONNECT_TIMEOUT →
  (n < fuel)%nat →
  reconnect fuel prompt timeout (Flaky.flaky_session n cost)
  = (Ok tt,
     mkSt (set_active_session true new_session)
          (Flaky.mkLine (Z.of_nat (S n) * cost) cost 0 (S n) (2 * n + 1)) 0).
Proof.
  intros Hcost Hfit Hfuel. unfold reconnect, flaky_session.
  cbn [self world _reconnect_timeout new_session time_time transport clock].
  rewrite (flaky_reconnect_loop n fuel prompt
             (py_or timeout RECONNECT_TIMEOUT) 0 new_session (mkLine 0 cost n 0 0) 0);
    cbn [failures_left clock Flaky.cost attempts closed];
    [|reflexivity|exact Hcost|lia|exact Hfuel].
  match goal with
  | |- (_, mkSt _ (mkLine ?x1 _ _ ?y1 ?z1) _) = (_, mkSt _ (mkLine ?x2 _ _ ?y2 ?z2) _) =>
      replace x1 with x2 by lia; replace y1 with y2 by lia; replace z1 with z2 by lia
  end.
  reflexivity.
Qed.

Lemma reconnect_succeeds_after_failures_witness :
  0 <= 50
  ∧ Z.of_nat 2 * 50 < py_or (Some 5000) RECONNECT_TIMEOUT
  ∧ (2 < 10)%nat
  ∧ reconnect 10 "#" (Some 5000) (Flaky.flaky_session 2 50)
    = (Ok tt,
       mkSt (set_active_session true new_session) (Flaky.mkLine 150 50 0 3 5) 0).
Proof.
  assert (H1 : 0 <= 50) by lia.
  assert (H2 : Z.of_nat 2 * 50 < py_or (Some 5000) RECONNECT_TIMEOUT)
    by (vm_compute; reflexivity).
  assert (H3 : (2 < 10)%nat) by lia.
  split; [exact H1|]. split; [exact H2|]. split; [exact H3|].
  exact (reconnect_succeeds_after_failures 2 10 50 "#" (Some 5000) H1 H2 H3).
Defined.

End TransportFacts.

(** ** The readers on a scripted device *)

Section ScriptFacts.

Import ExpectSession Recovery MiniRe Scripted.

Local Open Scope Z_scope.

Lemma scripted_receive_head (t : Z) (r : res string) (rest : list (res string))
    (st : St wire) :
  incoming (world st) = r :: rest →
  ∃ st1, receive t st = (r, st1)
         ∧ incoming (world st1) = rest
         ∧ sent (world st1) = sent (world st)
         ∧ self st1 = self st.
Proof.
  intros Hin. unfold receive. simpl. unfold scripted_receive. rewrite Hin.
  eexists. split; [reflexivity|]. simpl. auto.
Qed.

Lemma scripted_receive_all_loop (ds : list string) (e : exn) (rest : list (res string))
    (fuel : nat) (timeout start_time : Z) (buf : string) (st : St wire) :
  incoming (world st) = map Ok ds ++ Raise e :: rest →
  transient e = true →
  truthy (buf +:+ String.concat "" ds) = true →
  (length ds < fuel)%nat →
  ∃ st', _receive_all_loop fuel timeout start_time buf st
         = (Ok (buf +:+ String.concat "" ds), st')
         ∧ incoming (world st') = rest
         ∧ sent (world st') = sent (world st)
         ∧ self st' = self st.
Proof.
  revert fuel buf st.
  induction ds as [|d ds IH]; intros fuel buf st Hin He Hbuf Hfuel;
    (destruct fuel as [|fuel]; [simpl in Hfuel; lia|]).
  - simpl in Hin. destruct (scripted_receive_head 100 _ _ st Hin) as (st1 & Hr & H1 & H2 & H3).
    cbn [_receive_all_loop]. rewrite Hr.
    change (String.concat "" []) with "" in *. rewrite append_empty_r in *.
    rewrite Hbuf. exists st1.
    destruct e; try discriminate; auto.
  - simpl in Hin. destruct (scripted_receive_head 100 _ _ st Hin) as (st1 & Hr & H1 & H2 & H3).
    cbn [_receive_all_loop]. rewrite Hr.
    rewrite concat_cons, <- append_assoc in *.
    destruct (IH fuel (buf +:+ d) st1 H1 He Hbuf) as (st' & Hl & I1 & I2 & I3);
      [simpl in Hfuel; lia|].
    exists st'. rewrite Hl. split; [reflexivity|]. split; [exact I1|].
    split; congruence.
Qed.

(** X23: [_receive_all] returns what has arrived.  When the device has
    sent the chunks [ds], not all empty, and the next read fails with a
    transient exception, [_receive_all] returns the chunks joined in
    order; the script after that failure is left unread and nothing is
    sent. *)
Theorem receive_all_returns_what_arrived
    (ds : list string) (e : exn) (rest : list (res string)) (fuel : nat)
    (timeout : option Z) (st : St wire) :
  incoming (world st) = map Ok ds ++ Raise e :: rest →
  transient e = true →
  truthy (String.concat "" ds) = true →
  (length ds < fuel)%nat →
  ∃ st', _receive_all fuel timeout st = (Ok (String.concat "" ds), st')
         ∧ incoming (world st') = rest
         ∧ sent (world st') = sent (world st)
         ∧ self st' = self st.
Proof.
  intros Hin He Hbuf Hfuel. unfold _receive_all.
  exact (scripted_receive_all_loop ds e rest fuel _ _ "" st Hin He Hbuf Hfuel).
Qed.

Lemma receive_all_returns_what_arrived_witness :
  incoming (world echoing_device)
  = map Ok [] ++ Raise SessionReadEmptyData
      :: [Ok ("show" +:+ crlf); Raise SessionReadTimeout;
          Ok ("show is back" +:+ crlf +:+ "device#")]
  ∧ ∃ st1 st2,
      _clear_buffer 5 100 echoing_device = (Ok "", st1)
      ∧ incoming (world st1)
        = map Ok ["show" +:+ crlf] ++ Raise SessionReadTimeout
            :: [Ok ("show is back" +:+ crlf +:+ "device#")]
      ∧ _receive_all 5 None st1 = (Ok (String.concat "" ["show" +:+ crlf]), st2)
      ∧ incoming (world st2) = [Ok ("show is back" +:+ crlf +:+ "device#")].
Proof.
  split; [reflexivity|].
  destruct (_clear_buffer 5 100 echoing_device) as [[out| |] st1] eqn:E;
    try (vm_compute in E; discriminate).
  assert (Hst1 : out = ""
                 ∧ incoming (world st1)
                   = map Ok ["show" +:+ crlf] ++ Raise SessionReadTimeout
                       :: [Ok ("show is back" +:+ crlf +:+ "device#")]).
  { vm_compute in E. injection E as <- <-. split; reflexivity. }
  destruct Hst1 as [-> Hin].
  destruct (receive_all_returns_what_arrived ["show" +:+ crlf] SessionReadTimeout
              [Ok ("show is back" +:+ crlf +:+ "device#")] 5 None st1 Hin
              eq_refl eq_refl) as (st2 & Hr & Hrest & _); [simpl; lia|].
  exists st1, st2. split; [reflexivity|]. split; [exact Hin|].
  split; [exact Hr | exact Hrest].
Defined.

Lemma scripted_clear_buffer_loop (ds : list string) (stop : res string)
    (rest : list (res string)) (fuel : nat) (t : Z) (out : string) (st : St wire) :
  incoming (world st) = map Ok ds ++ stop :: rest →
  Forall (fun d => truthy d = true) ds →
  match stop with
  | Ok s => truthy s = false
  | Raise e => transient e = true
  | OutOfFuel => False
  end →
  (length ds < fuel)%nat →
  ∃ st', _clear_buffer_loop fuel t out st = (Ok (out +:+ String.concat "" ds), st')
         ∧ incoming (world st') = rest
         ∧ sent (world st') = sent (world st).
Proof.
  revert fuel out st.
  induction ds as [|d ds IH]; intros fuel out st Hin Hds Hstop Hfuel;
    (destruct fuel as [|fuel]; [simpl in Hfuel; lia|]).
  - simpl in Hin. destruct (scripted_receive_head t _ _ st Hin) as (st1 & Hr & H1 & H2 & _).
    cbn [_clear_buffer_loop]. rewrite Hr.
    change (String.concat "" []) with "". rewrite append_empty_r.
    exists st1. destruct stop as [s|e|]; [rewrite Hstop; auto| |contradiction].
    destruct e; try discriminate; auto.
  - simpl in Hin. destruct (scripted_receive_head t _ _ st Hin) as (st1 & Hr & H1 & H2 & _).
    cbn [_clear_buffer_loop]. rewrite Hr.
    apply Forall_cons in Hds as [Hd Hds]. rewrite Hd.
    rewrite concat_cons, <- append_assoc.
    destruct (IH fuel (out +:+ d) st1 H1 Hds Hstop) as (st' & Hl & I1 & I2);
      [simpl in Hfuel; lia|].
    exists st'. rewrite Hl. split; [reflexivity|]. split; [exact I1 | congruence].
Qed.

(** X24: [_clear_buffer] drains up to the first gap.  When the device
    has sent the non-empty chunks [ds] and the next read is empty or
    fails with a transient exception, [_clear_buffer] returns the chunks
    joined in order and stops there: what the device sends after the
    gap is left unread. *)
Theorem clear_buffer_drains_to_first_gap
    (ds : list string) (stop : res string) (rest : list (res string)) (fuel : nat)
    (t : Z) (st : St wire) :
  incoming (world st) = map Ok ds ++ stop :: rest →
  Forall (fun d => truthy d = true) ds →
  match stop with
  | Ok s => truthy s = false
  | Raise e => transient e = true
  | OutOfFuel => False
  end →
  (length ds < fuel)%nat →
  ∃ st', _clear_buffer fuel t st = (Ok (String.concat "" ds), st')
         ∧ incoming (world st') = rest
         ∧ sent (world st') = sent (world st).
Proof.
  intros Hin Hds Hstop Hfuel. unfold _clear_buffer.
  exact (scripted_clear_buffer_loop ds stop rest fuel t "" st Hin Hds Hstop Hfuel).
Qed.

Lemma clear_buffer_drains_to_first_gap_witness :
  ∃ st', _clear_buffer 5 100
           (device [Ok "stale "; Ok "output"; Ok ""; Ok "fresh"])
         = (Ok (String.concat "" ["stale "; "output"]), st')
         ∧ incoming (world st') = [Ok "fresh"].
Proof.
  destruct (clear_buffer_drains_to_first_gap ["stale "; "output"] (Ok "") [Ok "fresh"]
              5 100 (device [Ok "stale "; Ok "output"; Ok ""; Ok "fresh"]))
    as (st' & Hc & Hrest & _).
  - reflexivity.
  - repeat constructor.
  - reflexivity.
  - simpl. lia.
  - exists st'. split; [exact Hc | exact Hrest].
Defined.

(** Worked calls on the scripted device. *)

Lemma returned_result_matched_prompt_and_no_error_witness :
  ∃ st', hardware_expect 50 (Some "show") "device#\s*$" None
           (Some (mkErrorMap ["Syntax error"])) None None true None true echoing_device
         = (Ok ("show is back" +:+ crlf +:+ "device#"), st')
         ∧ ∃ segments tail,
             "show is back" +:+ crlf +:+ "device#" = String.concat "" segments +:+ tail
             ∧ first_error ["Syntax error"] (String.concat "" segments) = None.
Proof.
  destruct (hardware_expect 50 (Some "show") "device#\s*$" None
              (Some (mkErrorMap ["Syntax error"])) None None true None true echoing_device)
    as [[r| |] st'] eqn:E; try (vm_compute in E; discriminate).
  assert (Hr : r = "show is back" +:+ crlf +:+ "device#")
    by (vm_compute in E; injection E as <- _; reflexivity).
  subst r.
  destruct (returned_result_matched_prompt_and_no_error _ _ _ _ _ _ _ _ _ _ _ _ _ E)
    as (_ & segments & tail & Hres & _ & Herr).
  exists st'. split; [reflexivity|]. exists segments, tail. split; [exact Hres | exact Herr].
Defined.

Lemma loop_never_gives_up_under_nonnegative_bound_witness :
  0 <= 20
  ∧ ∃ v st', expect_loop 50 50 None "Password:" password_rules None 20 true 500
               (initial_vars true new_session) password_device = (Ok v, st')
             ∧ is_correct_exit v = true.
Proof.
  assert (H0 : 0 <= 20) by lia. split; [exact H0|].
  destruct (expect_loop 50 50 None "Password:" password_rules None 20 true 500
              (initial_vars true new_session) password_device) as [[v| |] st'] eqn:E;
    try (vm_compute in E; discriminate).
  exists v, st'. split; [reflexivity|].
  exact (loop_never_gives_up_under_nonnegative_bound _ _ _ _ _ _ _ _ _ _ _ _ _ _ H0 E).
Defined.

Lemma negative_bound_fails_before_reading_witness :
  effective_retries (Some (-1)) (self syntax_error_device) < 0
  ∧ prologue 5 None "#" syntax_error_device = (Ok tt, syntax_error_device)
  ∧ hardware_expect 5 None "#" None None None (Some (-1)) true None true
                    syntax_error_device
    = (Raise (SessionLoopLimitException 0), syntax_error_device).
Proof.
  assert (H1 : effective_retries (Some (-1)) (self syntax_error_device) < 0)
    by (vm_compute; reflexivity).
  assert (H2 : prologue 5 None "#" syntax_error_device = (Ok tt, syntax_error_device))
    by reflexivity.
  split; [exact H1|]. split; [exact H2|].
  exact (negative_bound_fails_before_reading 5 None "#" None None None (Some (-1)) true
           None true syntax_error_device syntax_error_device H1 H2).
Defined.

Lemma no_echo_removed_without_command_witness :
  (Some "" = None ∨ Some "" = Some "" ∨ true = false)
  ∧ echo_strips (snd (probe_for_prompt 50 "device#" echoing_device)) = 0%nat
  ∧ fst (probe_for_prompt 50 "device#" echoing_device)
    = Ok ("show" +:+ crlf +:+ "show is back" +:+ crlf +:+ "device#").
Proof.
  assert (H0 : Some "" = None ∨ Some "" = Some "" ∨ true = false)
    by (right; left; reflexivity).
  split; [exact H0|]. split; [|vm_compute; reflexivity].
  exact (no_echo_removed_without_command 50 (Some "") "device#" None None None None true
           None true echoing_device H0).
Defined.

Lemma transient_failures_never_propagate_witness :
  sends_cleanly (W := wire)
  ∧ acts_cleanly (W := wire) (ActionMap_of_rules [])
  ∧ fst (hardware_expect 5 (Some "show") "#" None None None None true None true
                         (device [Raise (OtherException "connection reset by peer")]))
    = Raise (OtherException "connection reset by peer")
  ∧ transient (OtherException "connection reset by peer") = false.
Proof.
  assert (Hs : sends_cleanly (W := wire)) by (intros d w e; discriminate).
  assert (Ha : acts_cleanly (W := wire) (ActionMap_of_rules []))
    by (intros o c d s w e; discriminate).
  split; [exact Hs|]. split; [exact Ha|].
  assert (E : fst (hardware_expect 5 (Some "show") "#" None None None None true None true
                     (device [Raise (OtherException "connection reset by peer")]))
              = Raise (OtherException "connection reset by peer"))
    by (vm_compute; reflexivity).
  split; [exact E|].
  pose proof (transient_failures_never_propagate 5 (Some "show") "#" None None None None
                true None true
                (device [Raise (OtherException "connection reset by peer")]) Hs Ha) as Ht.
  rewrite E in Ht. exact Ht.
Defined.

End ScriptFacts.

Section RetryFacts.

Import ExpectSession MiniRe Scripted Mute.

Local Open Scope Z_scope.

Lemma retry_bound_defaults_to_session_witness :
  ∃ st1 v st2,
    prologue 50 (Some "show") "device#" (prompting_device new_session) = (Ok tt, st1)
    ∧ effective_retries (Some 0) new_session = 20
    ∧ expect_loop 50 50 (Some "show") "device#" (ActionMap_of_rules []) None 20 true 500
        (initial_vars true (self st1)) st1 = (Ok v, st2)
    ∧ is_correct_exit v = true
    ∧ retries_count v = 0
    ∧ fst (hardware_expect 50 (Some "show") "device#" None None None (Some 0) true None
                           true (prompting_device new_session))
      = Ok "device#".
Proof.
  destruct (prologue 50 (Some "show") "device#" (prompting_device new_session))
    as [[[]| |] st1] eqn:Hp; try (vm_compute in Hp; discriminate).
  destruct (expect_loop 50 50 (Some "show") "device#" (ActionMap_of_rules []) None 20 true
              500 (initial_vars true (self st1)) st1) as [[v| |] st2] eqn:Hl;
    try (vm_compute in Hp; injection Hp as <-; vm_compute in Hl; discriminate).
  destruct (retry_bound_defaults_to_session 50 (Some "show") "device#" None None None
              (Some 0) true None true (prompting_device new_session) st1 Hp)
    as (Hzero & _ & _ & Hloop).
  destruct (Hloop ltac:(vm_compute; discriminate) v st2 Hl) as (Hexit & Hcount & _).
  exists st1, v, st2. split; [reflexivity|]. split; [apply Hzero; right; reflexivity|].
  split; [exact Hl|]. split; [exact Hexit|]. split; [exact Hcount|].
  vm_compute. reflexivity.
Defined.

(** C4, as the specification states it, fails on both counts.  With
    [retries = 0] the loop is not unbounded: on a session constructed
    with [max_loop_retries = -1] the call gives up at once, with the
    prompt of the device still unread, where the same call on a session
    with the default bound returns it.  And with [retries = 1] the call
    does not fail after one empty read: on a device that stays silent
    it reads until the timeout of three hundred milliseconds has passed
    and ends with the exception of [_receive_all]. *)
Lemma retries_zero_gives_up_under_negative_default :
  _max_loop_retries (self (prompting_device (new_session_with_max_loop_retries (-1)))) = -1
  ∧ fst (hardware_expect 50 (Some "show") "device#" None None None (Some 0) true None true
                         (prompting_device (new_session_with_max_loop_retries (-1))))
    = Raise (SessionLoopLimitException 0)
  ∧ incoming (world (snd (hardware_expect 50 (Some "show") "device#" None None None
                            (Some 0) true None true
                            (prompting_device (new_session_with_max_loop_retries (-1))))))
    = [Ok "device#"]
  ∧ fst (hardware_expect 50 (Some "show") "device#" None None None (Some 0) true None true
                         (prompting_device new_session))
    = Ok "device#"
  ∧ hardware_expect 50 None "#" None None (Some 300) (Some 1) true None true mute_session
    = (Raise (ExpectedSessionException "Socket closed by timeout"), mkSt new_session 400 0).
Proof. vm_compute. repeat split. Qed.

End RetryFacts.

Section StrictReFacts.

Import ExpectSession MiniRe37 Scripted.

Local Open Scope Z_scope.

Lemma uncached_echo_pattern_raises_witness :
  (∀ x, re_sub "\\\s+" "\s+" x = None)
  ∧ truthy "show" = true
  ∧ _command_patterns (self echoing_device) !! "show" = None
  ∧ fst (hardware_expect 50 (Some "show") "device#\s*$" None None None None true None true
                         echoing_device)
    = Raise ReError
  ∧ echo_strips (snd (hardware_expect 50 (Some "show") "device#\s*$" None None None None
                        true None true echoing_device))
    = 0%nat
  ∧ sent (world (snd (hardware_expect 50 (Some "show") "device#\s*$" None None None None
                        true None true echoing_device)))
    = ["show" +:+ carriage_return]
  ∧ fst (hardware_expect (H := MiniRe.lib) 50 (Some "show") "device#\s*$" None None None
                         None true None true echoing_device)
    = Ok ("show is back" +:+ crlf +:+ "device#").
Proof.
  assert (H1 : ∀ x, re_sub "\\\s+" "\s+" x = None) by (intros x; reflexivity).
  assert (H2 : truthy "show" = true) by reflexivity.
  assert (H3 : _command_patterns (self echoing_device) !! "show" = None) by reflexivity.
  split; [exact H1|]. split; [exact H2|]. split; [exact H3|].
  split; [vm_compute; reflexivity|]. split.
  - exact (proj1 (proj2 (uncached_echo_pattern_raises 50 "show" "device#\s*$" None None
                           None None true None echoing_device H1 H2 H3))).
  - split; vm_compute; reflexivity.
Defined.

Lemma command_pattern_is_cached_witness :
  let st1 := with_self (set_command_pattern "show" "\s*show\s*" new_session)
                       echoing_device in
  _generate_command_pattern (H := MiniRe.lib) "show" echoing_device
  = (Ok "\s*show\s*", st1)
  ∧ _generate_command_pattern (H := MiniRe.lib) "show" st1 = (Ok "\s*show\s*", st1)
  ∧ _generate_command_pattern "show" st1 = (Ok "\s*show\s*", st1)
  ∧ _generate_command_pattern "show" echoing_device = (Raise ReError, echoing_device).
Proof.
  cbn zeta.
  destruct (command_pattern_is_cached (H := MiniRe.lib) "show" echoing_device)
    as (_ & Hmiss & _).
  destruct (Hmiss "show" eq_refl eq_refl) as (Hfirst & _ & Hsecond & _).
  destruct (command_pattern_is_cached "show"
              (with_self (set_command_pattern "show" "\s*show\s*" new_session)
                         echoing_device)) as (Hhit & _ & _).
  destruct (command_pattern_is_cached "show" echoing_device) as (_ & _ & Hraise).
  split; [exact Hfirst|]. split; [exact Hsecond|].
  split; [apply Hhit; vm_compute; reflexivity|].
  apply Hraise; reflexivity.
Defined.

End StrictReFacts.

Section HollowFacts.

Import ExpectSession Recovery MiniRe Hollow.

Local Open Scope Z_scope.

Lemma receive_all_spins_on_empty_reads_witness :
  hollow (W := Z)
  ∧ fst (_receive_all 1000 (Some 1) hollow_session) = OutOfFuel
  ∧ fst (_clear_buffer 1001 100 hollow_session) = Ok "".
Proof.
  assert (Hh : hollow (W := Z)) by (intros t w; reflexivity).
  split; [exact Hh|].
  exact (receive_all_spins_on_empty_reads 1000 (Some 1) 100 hollow_session Hh).
Defined.

End HollowFacts.

Section DeadFacts.

Import ExpectSession Recovery Dead.

Local Open Scope Z_scope.

Lemma reconnect_gives_up_on_refusing_device_witness :
  refusing (W := host) ∧ attempts_take_time (W := host)
  ∧ (Z.to_nat (py_or (Some 1000%Z) (_reconnect_timeout (self dead_session))) <= 1000)%nat
  ∧ ∃ st', reconnect 1000 "#" (Some 1000) dead_session
           = (Raise (ExpectedSessionException
                       "Reconnect unsuccessful, timeout exceeded, see logs for more details"),
              st').
Proof.
  assert (H1 : refusing (W := host)) by (intros p s w; exists (OtherException "connection refused"); split; reflexivity).
  assert (H2 : attempts_take_time (W := host)) by (split; intros; simpl; lia).
  assert (H3 : (Z.to_nat (py_or (Some 1000%Z) (_reconnect_timeout (self dead_session)))
                <= 1000)%nat) by (vm_compute; lia).
  split; [exact H1|]. split; [exact H2|]. split; [exact H3|].
  exact (reconnect_gives_up_on_refusing_device 1000 "#" (Some 1000) dead_session H1 H2 H3).
Defined.

End DeadFacts.

Section InterruptedFacts.

Import ExpectSession Recovery Interrupted.

Local Open Scope Z_scope.

Lemma reconnect_returns_active_or_times_out_witness :
  0 < py_or None (_reconnect_timeout (self interrupted_session))
  ∧ connect "#" (disconnected (self interrupted_session) (world interrupted_session)
                              interrupted_session)
    = (Raise (Interrupt "KeyboardInterrupt"), mkSt new_session 10 0)
  ∧ reconnect 1 "#" None interrupted_session
    = (Raise (Interrupt "KeyboardInterrupt"), mkSt new_session 10 0).
Proof.
  assert (H1 : 0 < py_or None (_reconnect_timeout (self interrupted_session)))
    by (vm_compute; reflexivity).
  assert (H2 : connect "#" (disconnected (self interrupted_session)
                                         (world interrupted_session) interrupted_session)
               = (Raise (Interrupt "KeyboardInterrupt"), mkSt new_session 10 0))
    by reflexivity.
  split; [exact H1|]. split; [exact H2|].
  exact (proj2 (reconnect_returns_active_or_times_out 0 "#" None interrupted_session)
               (Interrupt "KeyboardInterrupt") (mkSt new_session 10 0) H1 H2).
Defined.

End InterruptedFacts.

(** ** One call in the schedule, and what a call writes *)

Section CallInSchedule.

Import ConnectionManager PoolCalls.

Local Open Scope Z_scope.

Lemma pc_of_idle_insert (t : tid) (p : pc) (st : state) :
  pc_of t (with_pc t p st) = p.
Proof. rewrite pc_of_with_pc, decide_True by reflexivity. reflexivity. Qed.

(** X25: an uncontended call of [get_session_instance] always leaves the
    with-block and releases the lock, whether a session is created, the
    creation raises, or nothing is created; the thread is then outside
    the call, and the queue, the counter and the store are those the
    call run from start to end gives. *)
Theorem uncontended_call_releases_lock (t : tid) (ok : bool) (st : state) :
  pc_of t st = Idle →
  CREATE_SESSION_LOCK st = None →
  ∃ st', run (get_session_instance t ok st) st = Some st'
         ∧ CREATE_SESSION_LOCK st' = None
         ∧ pc_of t st' = Idle
         ∧ _session_pool st'
           = _session_pool (snd (get_session_instance_call (creation_outcome ok) st))
         ∧ _existing_sessions st'
           = _existing_sessions (snd (get_session_instance_call (creation_outcome ok) st))
         ∧ next_sid st'
           = next_sid (snd (get_session_instance_call (creation_outcome ok) st)).
Proof.
  intros Hidle Hlock.
  unfold get_session_instance, get_session_instance_call, creation_outcome.
  cbn [run]. unfold step at 1. rewrite Hidle, Hlock.
  cbn [run]. unfold step at 1. rewrite pc_of_idle_insert.
  change (may_create (with_pc t Locked (with_lock (Some t) st))) with (may_create st).
  destruct (may_create st) eqn:Em.
  - unfold may_create, pool_empty in Em. apply andb_true_iff in Em as [Ep Ec].
    destruct (_session_pool st) as [|x q] eqn:Eq; [|discriminate].
    destruct ok.
    + cbn [run]. unfold step at 1. rewrite !pc_of_idle_insert.
      unfold step at 1. rewrite !pc_of_idle_insert.
      unfold step at 1. rewrite !pc_of_idle_insert.
      unfold return_session_to_pool, pool_full, always_creates, allocate.
      simpl _session_pool. simpl _max_connections. rewrite Eq.
      replace ((0 <? _max_connections st) && (_max_connections st <=? Z.of_nat (length [])))
        with false.
      2:{ symmetry. apply andb_false_iff.
          destruct (0 <? _max_connections st) eqn:E0; [right|left; reflexivity].
          apply Z.ltb_lt in E0. apply Z.leb_gt. simpl. lia. }
      unfold step at 1. rewrite !pc_of_idle_insert.
      unfold step at 1. rewrite !pc_of_idle_insert.
      unfold _get_session_from_pool. simpl.
      eexists. split; [reflexivity|]. simpl.
      rewrite pc_of_idle_insert. repeat split.
    + cbn [run]. unfold step at 1. rewrite !pc_of_idle_insert.
      eexists. split; [reflexivity|]. simpl. rewrite pc_of_idle_insert. repeat split.
  - cbn [run]. unfold step at 1. rewrite !pc_of_idle_insert.
    unfold step at 1. rewrite !pc_of_idle_insert.
    unfold _get_session_from_pool. simpl.
    destruct (_session_pool st) as [|x q] eqn:Eq; simpl;
      (eexists; split; [reflexivity|]); simpl; rewrite pc_of_idle_insert; repeat split.
Qed.

Lemma uncontended_call_releases_lock_witness :
  pc_of 1%nat (init 2) = Idle
  ∧ CREATE_SESSION_LOCK (init 2) = None
  ∧ ∃ st', run (get_session_instance 1%nat false (init 2)) (init 2) = Some st'
           ∧ CREATE_SESSION_LOCK st' = None
           ∧ _existing_sessions st' = 0.
Proof.
  assert (H1 : pc_of 1%nat (init 2) = Idle) by reflexivity.
  assert (H2 : CREATE_SESSION_LOCK (init 2) = None) by reflexivity.
  destruct (uncontended_call_releases_lock 1%nat false (init 2) H1 H2)
    as (st' & Hrun & Hl & _ & _ & Hc & _).
  split; [exact H1|]. split; [exact H2|].
  exists st'. split; [exact Hrun|]. split; [exact Hl|]. rewrite Hc. reflexivity.
Defined.

End CallInSchedule.

Section WriteFacts.

Import ExpectSession Recovery MiniRe Scripted.

Local Open Scope Z_scope.

Lemma scripted_receive_sent (t : Z) (st : St wire) :
  sent (world (snd (receive t st))) = sent (world st)
  ∧ self (snd (receive t st)) = self st.
Proof.
  unfold receive. simpl. unfold scripted_receive.
  destruct (incoming (world st)); split; reflexivity.
Qed.

Lemma scripted_clear_buffer_sent (fuel : nat) (t : Z) (out : string) (st : St wire) :
  sent (world (snd (_clear_buffer_loop fuel t out st))) = sent (world st).
Proof.
  revert out st. induction fuel as [|fuel IH]; intros out st; simpl; [reflexivity|].
  destruct (scripted_receive_sent t st) as [Hs _].
  destruct (receive t st) as [[data|e|] st1]; simpl in Hs.
  - destruct (truthy data); [rewrite IH|]; exact Hs.
  - destruct e; exact Hs.
  - exact Hs.
Qed.

Lemma scripted_receive_all_sent (fuel : nat) (timeout start_time : Z) (buf : string)
    (st : St wire) :
  sent (world (snd (_receive_all_loop fuel timeout start_time buf st))) = sent (world st).
Proof.
  revert buf st. induction fuel as [|fuel IH]; intros buf st; simpl; [reflexivity|].
  destruct (scripted_receive_sent 100 st) as [Hs _].
  destruct (receive 100 st) as [[data|e|] st1]; simpl in Hs.
  - rewrite IH. exact Hs.
  - destruct e; try exact Hs;
      (destruct (truthy buf); [exact Hs|]);
      (destruct (_ <? _); [exact Hs | rewrite IH; exact Hs]).
  - exact Hs.
Qed.

Lemma scripted_loop_sent (fuel k : nat) (command : option string)
    (expected_string : string) (timeout : option Z) (retries : Z) (check : bool)
    (empty_loop_timeout : Z) (v : loop_vars) (st : St wire) :
  sent (world (snd (expect_loop fuel k command expected_string (ActionMap_of_rules [])
                                timeout retries check empty_loop_timeout v st)))
  = sent (world st).
Proof.
  revert v st. induction k as [|k IH]; intros v st; simpl.
  - destruct (loop_guard _ _); reflexivity.
  - destruct (loop_guard _ _); [|reflexivity].
    unfold iteration, _receive_all.
    pose proof (scripted_receive_all_sent fuel (py_or timeout (_timeout (self st)))
                  (time_time (world st)) "" st) as Hs.
    destruct (_receive_all_loop _ _ _ _ _) as [[chunk|e|] st0]; simpl in Hs;
      try exact Hs.
    destruct (truthy chunk).
    + assert (Hstrip : ∀ c r b (s0 : St wire),
                world (snd (strip_echo c r b s0)) = world s0).
      { intros c r b s0. unfold strip_echo, _generate_command_pattern.
        destruct c as [c|]; [|reflexivity].
        destruct (truthy c && r); [|reflexivity].
        destruct (_command_patterns (self s0) !! c);
          [|destruct (re_sub _ _ _); [|reflexivity]];
          destruct (re_search MULTILINE _ b); reflexivity. }
      specialize (Hstrip command (remove_command_from_output v)
                    (output_str v +:+ normalize_buffer chunk) st0).
      destruct (strip_echo _ _ _ _) as [[[buf remove']|e|] st2]; simpl in Hstrip;
        [|simpl; congruence|simpl; congruence].
      unfold match_and_act. simpl.
      destruct (if match_prompt expected_string buf then true else is_correct_exit v);
        simpl; [|rewrite IH; simpl]; congruence.
    + rewrite IH. simpl. exact Hs.
Qed.

(** X26: with the default action map, [hardware_expect] writes to the
    device once: after a drain and a send that returned, whatever the
    call then does, the device has been sent the command followed by the
    line terminator and nothing else; a call without a command sends
    nothing. *)
Theorem call_writes_the_command_only
    (fuel : nat) (command : option string) (expected_string : string)
    (error_map : option ErrorMap) (timeout retries : option Z) (check : bool)
    (empty_loop_timeout : option Z) (remove : bool) (st st1 : St wire) :
  prologue fuel command expected_string st = (Ok tt, st1) →
  sent (world (snd (hardware_expect fuel command expected_string None error_map timeout
                      retries check empty_loop_timeout remove st)))
  = sent (world st)
    ++ match command with
       | Some c => [c +:+ _new_line (self st)]
       | None => []
       end.
Proof.
  intros Hp. unfold hardware_expect. rewrite Hp.
  assert (H1 : sent (world st1)
               = sent (world st)
                 ++ match command with
                    | Some c => [c +:+ _new_line (self st)]
                    | None => []
                    end).
  { revert Hp. unfold prologue, raise, _clear_buffer. destruct command as [c|].
    - pose proof (scripted_clear_buffer_sent fuel (_clear_buffer_timeout (self st)) "" st)
        as Hs.
      destruct (clear_buffer_loop_frame (H0 := transport) fuel
                  (_clear_buffer_timeout (self st)) "" st) as [_ Hself].
      destruct (_clear_buffer_loop _ _ _ _) as [[x|e|] st0]; simpl in *;
        try discriminate.
      destruct (truthy expected_string); [|discriminate].
      intros [= <-]. unfold world at 1. simpl. rewrite Hs, Hself. reflexivity.
    - destruct (truthy expected_string); [|discriminate].
      intros [= <-]. rewrite app_nil_r. reflexivity. }
  simpl.
  match goal with |- context [expect_loop ?f ?k ?c ?e _ ?t ?r ?ch ?el ?v ?s] =>
    pose proof (scripted_loop_sent f k c e t r ch el v s) as Hl
  end.
  destruct (expect_loop _ _ _ _ _ _ _ _ _ _ _) as [[v|e|] st2]; simpl in Hl;
    simpl; try congruence.
  unfold epilogue, raise, _clear_buffer.
  destruct (negb (is_correct_exit v)); simpl; [congruence|].
  destruct (em_process _ _); simpl; try congruence.
  pose proof (scripted_clear_buffer_sent fuel (_clear_buffer_timeout (self st2)) "" st2)
    as Hs.
  destruct (_clear_buffer_loop _ _ _ _) as [[x|e|] st3]; simpl in *; congruence.
Qed.

Lemma call_writes_the_command_only_witness :
  ∃ st1, prologue 50 (Some "show") "device#\s*$" echoing_device = (Ok tt, st1)
         ∧ sent (world (snd (hardware_expect 50 (Some "show") "device#\s*$" None None
                               None None true None true echoing_device)))
           = ["show" +:+ carriage_return].
Proof.
  destruct (prologue 50 (Some "show") "device#\s*$" echoing_device)
    as [[[]| |] st1] eqn:E; try (vm_compute in E; discriminate).
  exists st1. split; [reflexivity|].
  exact (call_writes_the_command_only 50 (Some "show") "device#\s*$" None None None true
           None true echoing_device st1 E).
Defined.

End WriteFacts.
